(** * Wire codec, protocol decoders and message framer of the Owl common library

    A shallow embedding of [netbuffer.hpp]/[netbuffer.cpp] (the big-endian
    byte codec and the [BuffReader] cursor), of the decoders and encoders of
    [aggregator_solver_protocol.cpp], [sensor_aggregator_protocol.cpp] and
    [world_model_protocol.cpp], of the operators of [sample_data.cpp] and
    [grail_types.cpp], and of [message_receiver.cpp] (the length-prefix
    framer).

    Conventions of the embedding:
    - a buffer ([std::vector<unsigned char>]) is a [list byte];
    - fixed-width integers are [Z] with their wrap-around written out
      ([u32], [to_int64]); the wire image of a value of [n] bytes is
      [be_bytes n v], which is what [toNetworkEndian] leaves in memory on a
      host of either endianness;
    - [cur_index] is an [unsigned int] that can only wrap on buffers of 4 GiB
      or more, where the iterator [buff_i] and [cur_index] would disagree and
      [std::copy] would leave the buffer; the embedding keeps one cursor, a
      [nat], which is [buff_i - buff.begin()];
    - a C++ reference parameter that the callee writes to ([Buffer& buff])
      is returned next to the result;
    - the framer's socket is the list of answers it still has to give, and
      [bool& interrupted] is the value the flag has while the call runs (no
      second thread is modelled). *)

From Stdlib Require Import ZArith Lia Bool.
From Stdlib.Strings Require Import Byte Ascii String.
From stdpp Require Import base list.

Local Open Scope Z_scope.

(** ** Bytes and big-endian images *)

Definition byte_to_Z (b : byte) : Z := Z.of_N (Byte.to_N b).

Definition byte_of_Z (z : Z) : byte :=
  default Byte.x00 (Byte.of_N (Z.to_N (z mod 256))).

Definition Buffer := list byte.

(** The value of a byte string read as one big-endian unsigned integer. *)
Definition be_val (bs : list byte) : Z :=
  fold_left (fun acc b => acc * 256 + byte_to_Z b) bs 0.

(** The [n] bytes of [v] (taken modulo [2^(8n)]), most significant first. *)
Fixpoint be_bytes (n : nat) (v : Z) : list byte :=
  match n with
  | O => []
  | S k => be_bytes k (v / 256) ++ [byte_of_Z v]
  end.

Definition u32 (x : Z) : Z := x mod 2 ^ 32.

(** Reinterpretation of a 64-bit pattern as [int64_t] ([grail_time]). *)
Definition to_int64 (v : Z) : Z := if v <? 2 ^ 63 then v else v - 2 ^ 64.

(** A [u"..."] literal of ASCII text: its UTF-16 code units. *)
Definition u16 (s : string) : list Z :=
  map (fun c => Z.of_N (N_of_ascii c)) (list_ascii_of_string s).

(** [uint128_t] of [sample_data.hpp]: two 64-bit halves, upper first. *)
Record uint128_t := mk_uint128 { upper : Z; lower : Z }.

(** ** [BuffReader] (netbuffer.hpp) *)

Record BuffReader := mkBuffReader {
  buff : Buffer;
  cur_index : nat;
  out_of_range : bool
}.

(** [BuffReader::BuffReader(buffer)] *)
Definition BuffReader_new (buffer : Buffer) : BuffReader :=
  mkBuffReader buffer 0 false.

(** [BuffReader::outOfRange()] *)
Definition outOfRange (r : BuffReader) : bool := out_of_range r.

(** [BuffReader::readPrimitive<T>()] with [sizeofT = sizeof(T)]; the result
    is the unsigned value of the bytes read, [(T)0] when the bytes are not
    there.  The failing branch only sets the flag. *)
Definition readPrimitive (sizeofT : nat) (r : BuffReader) : Z * BuffReader :=
  if (cur_index r + sizeofT <=? length (buff r))%nat then
    (be_val (take sizeofT (drop (cur_index r) (buff r))),
     mkBuffReader (buff r) (cur_index r + sizeofT) (out_of_range r))
  else
    (0, mkBuffReader (buff r) (cur_index r) true).

(** [readPrimitive<int64_t>] / [readPrimitive<grail_time>] *)
Definition readPrimitive_int64 (r : BuffReader) : Z * BuffReader :=
  let '(v, r) := readPrimitive 8 r in (to_int64 v, r).

(** [readPrimitive<uint128_t>]: one bounds check for the 16 bytes, then each
    half is converted from network order. *)
Definition readPrimitive_uint128 (r : BuffReader) : uint128_t * BuffReader :=
  let '(v, r) := readPrimitive 16 r in
  (mk_uint128 (v / 2 ^ 64) (v mod 2 ^ 64), r).

(** [BuffReader::readUTF16(size)]: [size] code units, each through
    [readPrimitive<char16_t>]. *)
Fixpoint readUTF16 (size : nat) (r : BuffReader) : list Z * BuffReader :=
  match size with
  | O => ([], r)
  | S k =>
      let '(c, r) := readPrimitive 2 r in
      let '(str, r) := readUTF16 k r in
      (c :: str, r)
  end.

(** [BuffReader::readSizedUTF16()]: the byte length is halved by integer
    division and that many code units are read. *)
Definition readSizedUTF16 (r : BuffReader) : list Z * BuffReader :=
  let '(len, r) := readPrimitive 4 r in
  readUTF16 (Z.to_nat (len / 2)) r.

(** The loop of [BuffReader::readSizedVector<uint8_t>()]: it stops without
    touching the flag as soon as no byte is left. *)
Fixpoint readSizedVector_loop (size : nat) (r : BuffReader)
  : list byte * BuffReader :=
  match size with
  | O => ([], r)
  | S k =>
      if (cur_index r + 1 <=? length (buff r))%nat then
        let '(val, r) := readPrimitive 1 r in
        let '(vect, r) := readSizedVector_loop k r in
        (byte_of_Z val :: vect, r)
      else ([], r)
  end.

(** [BuffReader::readSizedVector<uint8_t>()] *)
Definition readSizedVector (r : BuffReader) : list byte * BuffReader :=
  let '(size, r) := readPrimitive 4 r in
  readSizedVector_loop (Z.to_nat (size / 1)) r.

(** [BuffReader::readPrimitiveContainer(container)] on a byte vector: the
    positions that could not be read keep their old content. *)
Fixpoint readPrimitiveContainer (container : list byte) (r : BuffReader)
  : list byte * BuffReader :=
  match container with
  | [] => ([], r)
  | c :: rest =>
      if (cur_index r + 1 <=? length (buff r))%nat then
        let '(val, r) := readPrimitive 1 r in
        let '(rest', r) := readPrimitiveContainer rest r in
        (byte_of_Z val :: rest', r)
      else (container, r)
  end.

(** The free function [readPrimitive<T>(buff, index)] of netbuffer.hpp:
    zero when the bytes are not all inside the buffer. *)
Definition readPrimitiveAt (sizeofT : nat) (b : Buffer) (index : nat) : Z :=
  if (index + (sizeofT - 1) <? length b)%nat
  then be_val (take sizeofT (drop index b))
  else 0.

(** ** Encoders of netbuffer *)

(** [pushBackVal<T>(val, buff)]: appends the network image of [val] and
    returns [sizeof(T)]. *)
Definition pushBackVal (sizeofT : nat) (val : Z) (b : Buffer) : Z * Buffer :=
  (Z.of_nat sizeofT, b ++ be_bytes sizeofT val).

(** [pushBackVal<T>(val, buff, index)]: overwrites [sizeof(T)] bytes that
    are already in the buffer. *)
Definition pushBackValAt (sizeofT : nat) (val : Z) (b : Buffer) (index : nat)
  : Z * Buffer :=
  (Z.of_nat sizeofT,
   take index b ++ be_bytes sizeofT val ++ drop (index + sizeofT) b).

(** [pushBackUTF16(buff, str)] *)
Definition pushBackUTF16 (b : Buffer) (str : list Z) : Z * Buffer :=
  fold_left (fun '(size, b) c =>
               let '(n, b) := pushBackVal 2 c b in (u32 (size + n), b))
            str (0, b).

(** [pushBackSizedUTF16(buff, str)] *)
Definition pushBackSizedUTF16 (b : Buffer) (str : list Z) : Z * Buffer :=
  let string_len := u32 (Z.of_nat (length str) * 2) in
  let '(n, b) := pushBackVal 4 string_len b in
  fold_left (fun '(size, b) c =>
               let '(n, b) := pushBackVal 2 c b in (u32 (size + n), b))
            str (u32 (0 + n), b).

(** [pushSizedContainer] on a [std::vector<uint8_t>] *)
Definition pushSizedContainer (container : list byte) (b : Buffer)
  : Z * Buffer :=
  let container_len := u32 (Z.of_nat (length container) * 1) in
  let '(n, b) := pushBackVal 4 container_len b in
  fold_left (fun '(size, b) c =>
               let '(n, b) := pushBackVal 1 (byte_to_Z c) b in
               (u32 (size + n), b))
            container (u32 (0 + n), b).

(** [pushContainer] on a [std::vector<unsigned char>] *)
Definition pushContainer (container : list byte) (b : Buffer) : Z * Buffer :=
  fold_left (fun '(size, b) c =>
               let '(n, b) := pushBackVal 1 (byte_to_Z c) b in
               (u32 (size + n), b))
            container (0, b).

(** [pushBackVal<uint128_t>(val, buff)]: sixteen bytes, each half put in
    network order where it lies, the upper half first. *)
Definition pushBackVal_uint128 (val : uint128_t) (b : Buffer) : Z * Buffer :=
  (16, b ++ be_bytes 8 (upper val) ++ be_bytes 8 (lower val)).

(** The free function [readUTF16(buff, start, size)] of netbuffer.cpp.  The
    test of the first line is on [size_t]; when [start] lies beyond the
    buffer the difference wraps, the test fails and the loop then stops at
    once, which is the empty string either way.  The loop runs while
    [index * 2 < size]. *)
Fixpoint readUTF16At_loop (fuel : nat) (b : Buffer) (start size index : nat)
  : list Z :=
  match fuel with
  | O => []
  | S k =>
      if (index * 2 <? size)%nat && (start + index * 2 <=? length b)%nat then
        readPrimitiveAt 2 b (start + index * 2)
        :: readUTF16At_loop k b start size (S index)
      else []
  end.

Definition readUTF16At (b : Buffer) (start size : nat) : list Z :=
  if (length b - start <? size * 2)%nat then []
  else readUTF16At_loop size b start size 0.

(** The free function [readSizedUTF16(buff, start)]. *)
Definition readSizedUTF16At (b : Buffer) (start : nat) : list Z :=
  let size := Z.to_nat (readPrimitiveAt 4 b start / 2) in
  readUTF16At b (start + 4) size.

(** ** sample_data.hpp *)

(** [SampleData]; [rss] holds the bit pattern of the [float]. *)
Record SampleData := mkSampleData {
  physical_layer : Z;
  tx_id : uint128_t;
  rx_id : uint128_t;
  rx_timestamp : Z;
  rss : Z;
  sense_data : list byte;
  valid : bool
}.

(** [operator==], [operator<] and [operator&] on [uint128_t]
    (sample_data.cpp). *)
Definition uint128_eq (a b : uint128_t) : bool :=
  (upper a =? upper b) && (lower a =? lower b).

Definition uint128_lt (a b : uint128_t) : bool :=
  (upper a <? upper b) || ((upper a =? upper b) && (lower a <? lower b)).

Definition uint128_and (a b : uint128_t) : uint128_t :=
  mk_uint128 (Z.land (upper a) (upper b)) (Z.land (lower a) (lower b)).

(** [uint128_t::uint128_t(uint64_t val)] *)
Definition uint128_of_uint64 (val : Z) : uint128_t := mk_uint128 0 val.

(** ** aggregator_solver_protocol.cpp *)

Module aggregator_solver.

(** [enum MessageID] *)
Definition keep_alive : Z := 0.
Definition certificate : Z := 1.
Definition ack_certificate : Z := 2.
Definition subscription_request : Z := 3.
Definition subscription_response : Z := 4.
Definition device_position : Z := 5.
Definition server_sample : Z := 6.
Definition buffer_overrun : Z := 7.

Record Transmitter := mkTransmitter { base_id : uint128_t; mask : uint128_t }.

Record Rule := mkRule {
  physical_layer : Z;
  txers : list Transmitter;
  update_interval : Z
}.

Definition Subscription := list Rule.

(** The inner loop of [decodeSubscribeMsg] over [txer_no]. *)
Fixpoint read_txers (num_txers : nat) (reader : BuffReader)
  : list Transmitter * BuffReader :=
  match num_txers with
  | O => ([], reader)
  | S k =>
      let '(b, reader) := readPrimitive_uint128 reader in
      let '(m, reader) := readPrimitive_uint128 reader in
      let '(ts, reader) := read_txers k reader in
      (mkTransmitter b m :: ts, reader)
  end.

(** The outer loop of [decodeSubscribeMsg] over [rule_no]. *)
Fixpoint read_rules (num_rules : nat) (reader : BuffReader)
  : list Rule * BuffReader :=
  match num_rules with
  | O => ([], reader)
  | S k =>
      let '(phy, reader) := readPrimitive 1 reader in
      let '(num_txers, reader) := readPrimitive 4 reader in
      let '(ts, reader) := read_txers (Z.to_nat num_txers) reader in
      let '(interval, reader) := readPrimitive 8 reader in
      let '(rules, reader) := read_rules k reader in
      (mkRule phy ts interval :: rules, reader)
  end.

(** [decodeSubscribeMsg(buff, length)]; [length] is an [unsigned int]
    argument of its own, which the callers set to the buffer size.  The
    reader's flag is never consulted. *)
Definition decodeSubscribeMsg (b : Buffer) (length_ : Z) : Subscription :=
  if 4 <? length_ then
    let reader := BuffReader_new b in
    let '(entire_length, reader) := readPrimitive 4 reader in
    let '(msg_type, reader) := readPrimitive 1 reader in
    if (u32 (entire_length + 4) =? length_)
       && ((subscription_request =? msg_type)
           || (subscription_response =? msg_type)) then
      let '(num_rules, reader) := readPrimitive 4 reader in
      fst (read_rules (Z.to_nat num_rules) reader)
    else []
  else [].

(** The local [SampleData sample] after [sample.valid = false]; the
    scalar members, which the source leaves uninitialised, are shown as
    zero and nothing below depends on them. *)
Definition invalid_sample : SampleData :=
  mkSampleData 0 (mk_uint128 0 0) (mk_uint128 0 0) 0 0 [] false.

(** The body of [decodeSampleMsg(buff, length)], returning next to the
    sample what [reader.outOfRange()] would answer at the [return] (false
    when no reader was made). *)
Definition decodeSampleMsg_run (b : Buffer) (length_ : Z)
  : SampleData * bool :=
  if 4 <? length_ then
    let reader := BuffReader_new b in
    let '(entire_length, reader) := readPrimitive 4 reader in
    let '(msg_type, reader) := readPrimitive 1 reader in
    if (u32 (entire_length + 4) =? length_)
       && (server_sample =? msg_type) then
      let '(phy, reader) := readPrimitive 1 reader in
      let '(tx, reader) := readPrimitive_uint128 reader in
      let '(rx, reader) := readPrimitive_uint128 reader in
      let '(stamp, reader) := readPrimitive_int64 reader in
      let '(strength, reader) := readPrimitive 4 reader in
      let left := u32 (length_ - Z.of_nat (cur_index reader)) in
      let '(sense, reader) :=
        readPrimitiveContainer (replicate (Z.to_nat left) Byte.x00) reader in
      (mkSampleData phy tx rx stamp strength sense true, outOfRange reader)
    else (invalid_sample, outOfRange reader)
  else (invalid_sample, false).

(** [decodeSampleMsg(buff, length)] *)
Definition decodeSampleMsg (b : Buffer) (length_ : Z) : SampleData :=
  fst (decodeSampleMsg_run b length_).

(** The loops of [makeSubscribeReqMsg]. *)
Definition push_txers (ts : list Transmitter) (total_length : Z) (b : Buffer)
  : Z * Buffer :=
  fold_left (fun '(total_length, b) txer =>
               let '(n, b) := pushBackVal_uint128 (base_id txer) b in
               let total_length := u32 (total_length + n) in
               let '(n, b) := pushBackVal_uint128 (mask txer) b in
               let total_length := u32 (total_length + n) in
               (total_length, b))
            ts (total_length, b).

Definition push_rules (rules : list Rule) (total_length : Z) (b : Buffer)
  : Z * Buffer :=
  fold_left (fun '(total_length, b) rule =>
               let '(n, b) := pushBackVal 1 (physical_layer rule) b in
               let total_length := u32 (total_length + n) in
               let num_txers := u32 (Z.of_nat (length (txers rule))) in
               let '(n, b) := pushBackVal 4 num_txers b in
               let total_length := u32 (total_length + n) in
               let '(total_length, b) :=
                 push_txers (txers rule) total_length b in
               let '(n, b) := pushBackVal 8 (update_interval rule) b in
               let total_length := u32 (total_length + n) in
               (total_length, b))
            rules (total_length, b).

(** [makeSubscribeReqMsg(rules)] *)
Definition makeSubscribeReqMsg (rules : Subscription) : Buffer :=
  let total_length := 1 in
  let b : Buffer :=
    [Byte.x00; Byte.x00; Byte.x00; Byte.x00; byte_of_Z subscription_request] in
  let num_rules := u32 (Z.of_nat (length rules)) in
  let '(n, b) := pushBackVal 4 num_rules b in
  let total_length := u32 (total_length + n) in
  let '(total_length, b) := push_rules rules total_length b in
  let '(_, b) := pushBackValAt 4 total_length b 0 in
  b.

(** [makeSampleMsg(sample)] *)
Definition makeSampleMsg (sample : SampleData) : Buffer :=
  let 'mkSampleData phy tx rx stamp strength sense _ := sample in
  let total_length := 1 in
  let b : Buffer :=
    [Byte.x00; Byte.x00; Byte.x00; Byte.x00; byte_of_Z server_sample] in
  let '(n, b) := pushBackVal 1 phy b in
  let total_length := u32 (total_length + n) in
  let '(n, b) := pushBackVal_uint128 tx b in
  let total_length := u32 (total_length + n) in
  let '(n, b) := pushBackVal_uint128 rx b in
  let total_length := u32 (total_length + n) in
  let '(n, b) := pushBackVal 8 stamp b in
  let total_length := u32 (total_length + n) in
  let '(n, b) := pushBackVal 4 strength b in
  let total_length := u32 (total_length + n) in
  let '(total_length, b) :=
    if (0 <? length sense)%nat then
      let '(n, b) := pushContainer sense b in
      (u32 (total_length + n), b)
    else (total_length, b) in
  let '(_, b) := pushBackValAt 4 total_length b 0 in
  b.

End aggregator_solver.

(** ** world_model_protocol.hpp / world_model_protocol.cpp *)

Module world_model.

(** A [URI] / [std::u16string] is the list of its UTF-16 code units. *)
Definition URI := list Z.

Record AliasedAttribute := mkAliasedAttribute {
  name_alias : Z;
  creation_date : Z;
  expiration_date : Z;
  origin_alias : Z;
  data : Buffer
}.

Record AliasedWorldData := mkAliasedWorldData {
  object_uri : URI;
  attributes : list AliasedAttribute
}.

(** Loop over [readSizedUTF16], shared by the decoders that read a
    counted list of strings ([for (i < total) push_back(readSizedUTF16())]). *)
Fixpoint read_strings (total : nat) (reader : BuffReader)
  : list URI * BuffReader :=
  match total with
  | O => ([], reader)
  | S k =>
      let '(s, reader) := readSizedUTF16 reader in
      let '(ss, reader) := read_strings k reader in
      (s :: ss, reader)
  end.

(** Loop over [pushBackSizedUTF16], shared by the encoders that write a
    list of strings; [total_length] is the [uint32_t] running sum. *)
Definition push_strings (strs : list URI) (total_length : Z) (b : Buffer)
  : Z * Buffer :=
  fold_left (fun '(total_length, b) s =>
               let '(n, b) := pushBackSizedUTF16 b s in
               (u32 (total_length + n), b))
            strs (total_length, b).

(** The test [buff.size() == (total_length + 4)]; the sum is a
    [uint32_t]. *)
Definition length_matches (b : Buffer) (total_length : Z) : bool :=
  Z.of_nat (length b) =? u32 (total_length + 4).

Module client.

(** [enum class MessageID : uint8_t] *)
Definition keep_alive : Z := 0.
Definition snapshot_request : Z := 1.
Definition range_request : Z := 2.
Definition stream_request : Z := 3.
Definition attribute_alias : Z := 4.
Definition origin_alias : Z := 5.
Definition request_complete : Z := 6.
Definition cancel_request : Z := 7.
Definition data_response : Z := 8.
Definition uri_search : Z := 9.
Definition uri_response : Z := 10.
Definition origin_preference : Z := 11.

Record AliasType := mkAliasType { alias : Z; type : list Z }.

Record Request := mkRequest {
  object_uri : URI;
  attributes : list URI;
  start : Z;
  stop_period : Z
}.

(** [client::Request()]: value-initialised, so no strings and both times
    zero. *)
Definition Request_empty : Request := mkRequest [] [] 0 0.

(** A local [client::Request request;] that nothing has written to: it is
    default-initialised, so it has no strings, and its [start] and
    [stop_period] are not initialised.  What these two hold is not set by
    the program; the functions that can return such a local take it as the
    input [uninit]. *)
Definition Request_uninit (uninit : Z * Z) : Request :=
  mkRequest [] [] (fst uninit) (snd uninit).

(** [makeSnapshotRequest(request, ticket)] *)
Definition makeSnapshotRequest (request : Request) (ticket : Z) : Buffer :=
  let b : Buffer := [] in
  let total_length := 0 in
  let '(_, b) := pushBackVal 4 total_length b in
  let '(n, b) := pushBackVal 1 snapshot_request b in
  let total_length := u32 (total_length + n) in
  let '(n, b) := pushBackVal 4 ticket b in
  let total_length := u32 (total_length + n) in
  let '(n, b) := pushBackSizedUTF16 b (object_uri request) in
  let total_length := u32 (total_length + n) in
  let '(n, b) :=
    pushBackVal 4 (u32 (Z.of_nat (length (attributes request)))) b in
  let total_length := u32 (total_length + n) in
  let '(total_length, b) :=
    push_strings (attributes request) total_length b in
  let '(n, b) := pushBackVal 8 (start request) b in
  let total_length := u32 (total_length + n) in
  let '(n, b) := pushBackVal 8 (stop_period request) b in
  let total_length := u32 (total_length + n) in
  let '(_, b) := pushBackValAt 4 total_length b 0 in
  b.

(** The body of [decodeSnapshotRequest] up to the test of
    [reader.outOfRange()]; [uninit] is what [start] and [stop_period] of
    the local [request] hold before anything is assigned to them. *)
Definition decodeSnapshotRequest_run (uninit : Z * Z) (b : Buffer)
  : Request * Z * BuffReader :=
  let reader := BuffReader_new b in
  let '(total_length, reader) := readPrimitive 4 reader in
  let '(msg_type, reader) := readPrimitive 1 reader in
  if length_matches b total_length && (msg_type =? snapshot_request) then
    let '(ticket, reader) := readPrimitive 4 reader in
    let '(uri, reader) := readSizedUTF16 reader in
    let '(total_attributes, reader) := readPrimitive 4 reader in
    let '(attrs, reader) :=
      read_strings (Z.to_nat total_attributes) reader in
    let '(t0, reader) := readPrimitive_int64 reader in
    let '(t1, reader) := readPrimitive_int64 reader in
    (mkRequest uri attrs t0 t1, ticket, reader)
  else (Request_uninit uninit, 0, reader).

(** [decodeSnapshotRequest(buff)]: on out-of-range the request is
    [client::Request()] and [ticket] is returned as it was read. *)
Definition decodeSnapshotRequest (uninit : Z * Z) (b : Buffer) : Request * Z :=
  let '(request, ticket, reader) := decodeSnapshotRequest_run uninit b in
  if outOfRange reader then (Request_empty, ticket)
  else (request, ticket).

(** [decodeRangeRequest(buff)]: [buff] is a reference; the buffer as the
    call leaves it is the second component.  [uninit_empty] is what the
    local [Request empty;] holds in its two times, [uninit] what the local
    of [decodeSnapshotRequest] holds. *)
Definition decodeRangeRequest (uninit_empty uninit : Z * Z) (b : Buffer)
  : (Request * Z) * Buffer :=
  if bool_decide (5 <= length b)%nat
     && (from_option (fun c => range_request =? byte_to_Z c) false
                     (b !! 4%nat)) then
    let b := <[4%nat := byte_of_Z snapshot_request]> b in
    (decodeSnapshotRequest uninit b, b)
  else ((Request_uninit uninit_empty, 0), b).

(** [decodeStreamRequest(buff)] *)
Definition decodeStreamRequest (uninit_empty uninit : Z * Z) (b : Buffer)
  : (Request * Z) * Buffer :=
  if bool_decide (5 <= length b)%nat
     && (from_option (fun c => stream_request =? byte_to_Z c) false
                     (b !! 4%nat)) then
    let b := <[4%nat := byte_of_Z snapshot_request]> b in
    (decodeSnapshotRequest uninit b, b)
  else ((Request_uninit uninit_empty, 0), b).

(** The loop of [decodeAttrAliasMsg]. *)
Fixpoint read_aliases (total : nat) (reader : BuffReader)
  : list AliasType * BuffReader :=
  match total with
  | O => ([], reader)
  | S k =>
      let '(a, reader) := readPrimitive 4 reader in
      let '(t, reader) := readSizedUTF16 reader in
      let '(rest, reader) := read_aliases k reader in
      (mkAliasType a t :: rest, reader)
  end.

Definition decodeAttrAliasMsg_run (b : Buffer)
  : list AliasType * BuffReader :=
  let reader := BuffReader_new b in
  let '(total_length, reader) := readPrimitive 4 reader in
  let '(msg_type, reader) := readPrimitive 1 reader in
  if length_matches b total_length && (msg_type =? attribute_alias) then
    let '(total_attributes, reader) := readPrimitive 4 reader in
    read_aliases (Z.to_nat total_attributes) reader
  else ([], reader).

(** [decodeAttrAliasMsg(buff)] *)
Definition decodeAttrAliasMsg (b : Buffer) : list AliasType :=
  let '(aliases, reader) := decodeAttrAliasMsg_run b in
  if outOfRange reader then [] else aliases.

(** The body of [decodeRequestComplete], returning next to the ticket the
    reader as the function leaves it. *)
Definition decodeRequestComplete_run (b : Buffer) : Z * BuffReader :=
  let reader := BuffReader_new b in
  let '(total_length, reader) := readPrimitive 4 reader in
  let '(msg_type, reader) := readPrimitive 1 reader in
  if length_matches b total_length && (request_complete =? msg_type) then
    readPrimitive 4 reader
  else (0, reader).

(** [decodeRequestComplete(buff)] *)
Definition decodeRequestComplete (b : Buffer) : Z :=
  fst (decodeRequestComplete_run b).

Definition decodeCancelRequest_run (b : Buffer) : Z * BuffReader :=
  let reader := BuffReader_new b in
  let '(total_length, reader) := readPrimitive 4 reader in
  let '(msg_type, reader) := readPrimitive 1 reader in
  if length_matches b total_length && (cancel_request =? msg_type) then
    readPrimitive 4 reader
  else (0, reader).

(** [decodeCancelRequest(buff)] *)
Definition decodeCancelRequest (b : Buffer) : Z :=
  fst (decodeCancelRequest_run b).

Definition AliasedWorldData_empty : AliasedWorldData :=
  mkAliasedWorldData [] [].

(** The loop of [decodeDataMessage], one [AliasedAttribute] a turn. *)
Fixpoint read_attributes (total_attributes : nat) (reader : BuffReader)
  : list AliasedAttribute * BuffReader :=
  match total_attributes with
  | O => ([], reader)
  | S k =>
      let '(na, reader) := readPrimitive 4 reader in
      let '(cd, reader) := readPrimitive_int64 reader in
      let '(ed, reader) := readPrimitive_int64 reader in
      let '(oa, reader) := readPrimitive 4 reader in
      let '(d, reader) := readSizedVector reader in
      let '(rest, reader) := read_attributes k reader in
      (mkAliasedAttribute na cd ed oa d :: rest, reader)
  end.

Definition decodeDataMessage_run (b : Buffer)
  : AliasedWorldData * Z * BuffReader :=
  let reader := BuffReader_new b in
  let '(total_length, reader) := readPrimitive 4 reader in
  let '(msg_type, reader) := readPrimitive 1 reader in
  if length_matches b total_length && (data_response =? msg_type) then
    let '(uri, reader) := readSizedUTF16 reader in
    let '(ticket_number, reader) := readPrimitive 4 reader in
    let '(total_attributes, reader) := readPrimitive 4 reader in
    let '(attrs, reader) :=
      read_attributes (Z.to_nat total_attributes) reader in
    (mkAliasedWorldData uri attrs, ticket_number, reader)
  else (AliasedWorldData_empty, 0, reader).

(** [decodeDataMessage(buff)] *)
Definition decodeDataMessage (b : Buffer) : AliasedWorldData * Z :=
  let '(wd, ticket_number, reader) := decodeDataMessage_run b in
  if outOfRange reader then (AliasedWorldData_empty, 0)
  else (wd, ticket_number).

Definition decodeURISearch_run (b : Buffer) : URI * BuffReader :=
  let reader := BuffReader_new b in
  let '(total_length, reader) := readPrimitive 4 reader in
  let '(msg_type, reader) := readPrimitive 1 reader in
  if length_matches b total_length && (uri_search =? msg_type) then
    readUTF16 ((length b - cur_index reader) / 2)%nat reader
  else ([], reader).

(** [decodeURISearch(buff)] *)
Definition decodeURISearch (b : Buffer) : URI :=
  fst (decodeURISearch_run b).

(** [makeURISearchResponse(uris)]: no count is written before the
    strings. *)
Definition makeURISearchResponse (uris : list URI) : Buffer :=
  let b : Buffer := [] in
  let total_length := 0 in
  let '(_, b) := pushBackVal 4 total_length b in
  let '(n, b) := pushBackVal 1 uri_response b in
  let total_length := u32 (total_length + n) in
  let '(total_length, b) := push_strings uris total_length b in
  let '(_, b) := pushBackValAt 4 total_length b 0 in
  b.

Definition decodeURISearchResponse_run (b : Buffer)
  : list URI * BuffReader :=
  let reader := BuffReader_new b in
  let '(total_length, reader) := readPrimitive 4 reader in
  let '(msg_type, reader) := readPrimitive 1 reader in
  if length_matches b total_length && (uri_response =? msg_type) then
    let '(total_uris, reader) := readPrimitive 4 reader in
    read_strings (Z.to_nat total_uris) reader
  else ([], reader).

(** [decodeURISearchResponse(buff)] *)
Definition decodeURISearchResponse (b : Buffer) : list URI :=
  let '(uris, reader) := decodeURISearchResponse_run b in
  if outOfRange reader then [] else uris.

(** [makeRangeRequest(request, ticket)] *)
Definition makeRangeRequest (request : Request) (ticket : Z) : Buffer :=
  let b := makeSnapshotRequest request ticket in
  <[4%nat := byte_of_Z range_request]> b.

(** [makeStreamRequest(request, ticket)] *)
Definition makeStreamRequest (request : Request) (ticket : Z) : Buffer :=
  let b := makeSnapshotRequest request ticket in
  <[4%nat := byte_of_Z stream_request]> b.

(** The loop of [makeAttrAliasMsg]. *)
Definition push_aliases (aliases : list AliasType) (total_length : Z)
           (b : Buffer) : Z * Buffer :=
  fold_left (fun '(total_length, b) a =>
               let '(n, b) := pushBackVal 4 (alias a) b in
               let total_length := u32 (total_length + n) in
               let '(n, b) := pushBackSizedUTF16 b (type a) in
               let total_length := u32 (total_length + n) in
               (total_length, b))
            aliases (total_length, b).

(** [makeAttrAliasMsg(attribute_aliases)] *)
Definition makeAttrAliasMsg (attribute_aliases : list AliasType) : Buffer :=
  let b : Buffer := [] in
  let total_length := 0 in
  let '(_, b) := pushBackVal 4 total_length b in
  let '(n, b) := pushBackVal 1 attribute_alias b in
  let total_length := u32 (total_length + n) in
  let '(n, b) :=
    pushBackVal 4 (u32 (Z.of_nat (length attribute_aliases))) b in
  let total_length := u32 (total_length + n) in
  let '(total_length, b) := push_aliases attribute_aliases total_length b in
  let '(_, b) := pushBackValAt 4 total_length b 0 in
  b.

(** [makeOriginAliasMsg(origin_aliases)] *)
Definition makeOriginAliasMsg (origin_aliases : list AliasType) : Buffer :=
  let b := makeAttrAliasMsg origin_aliases in
  <[4%nat := byte_of_Z origin_alias]> b.

(** [decodeOriginAliasMsg(buff)]: the size test is a strict one; [buff] is
    a reference, and the buffer as the call leaves it is the second
    component. *)
Definition decodeOriginAliasMsg (b : Buffer) : list AliasType * Buffer :=
  if bool_decide (5 < length b)%nat
     && (from_option (fun c => origin_alias =? byte_to_Z c) false
                     (b !! 4%nat)) then
    let b := <[4%nat := byte_of_Z attribute_alias]> b in
    (decodeAttrAliasMsg b, b)
  else ([], b).

(** [makeRequestComplete(ticket_number)] *)
Definition makeRequestComplete (ticket_number : Z) : Buffer :=
  let b : Buffer := [] in
  let total_length := 5 in
  let '(_, b) := pushBackVal 4 total_length b in
  let '(_, b) := pushBackVal 1 request_complete b in
  let '(_, b) := pushBackVal 4 ticket_number b in
  b.

(** [makeCancelRequest(ticket_number)] *)
Definition makeCancelRequest (ticket_number : Z) : Buffer :=
  let b : Buffer := [] in
  let total_length := 5 in
  let '(_, b) := pushBackVal 4 total_length b in
  let '(_, b) := pushBackVal 1 cancel_request b in
  let '(_, b) := pushBackVal 4 ticket_number b in
  b.

(** The loop of [makeDataMessage]. *)
Definition push_attributes (attrs : list AliasedAttribute) (total_length : Z)
           (b : Buffer) : Z * Buffer :=
  fold_left (fun '(total_length, b) attr =>
               let 'mkAliasedAttribute na cd ed oa d := attr in
               let '(n, b) := pushBackVal 4 na b in
               let total_length := u32 (total_length + n) in
               let '(n, b) := pushBackVal 8 cd b in
               let total_length := u32 (total_length + n) in
               let '(n, b) := pushBackVal 8 ed b in
               let total_length := u32 (total_length + n) in
               let '(n, b) := pushBackVal 4 oa b in
               let total_length := u32 (total_length + n) in
               let '(n, b) := pushSizedContainer d b in
               let total_length := u32 (total_length + n) in
               (total_length, b))
            attrs (total_length, b).

(** [makeDataMessage(wd, ticket)] *)
Definition makeDataMessage (wd : AliasedWorldData) (ticket : Z) : Buffer :=
  let 'mkAliasedWorldData wd_uri wd_attributes := wd in
  let b : Buffer := [] in
  let total_length := 0 in
  let '(_, b) := pushBackVal 4 total_length b in
  let '(n, b) := pushBackVal 1 data_response b in
  let total_length := u32 (total_length + n) in
  let '(n, b) := pushBackSizedUTF16 b wd_uri in
  let total_length := u32 (total_length + n) in
  let '(n, b) := pushBackVal 4 ticket b in
  let total_length := u32 (total_length + n) in
  let '(n, b) := pushBackVal 4 (u32 (Z.of_nat (length wd_attributes))) b in
  let total_length := u32 (total_length + n) in
  let '(total_length, b) := push_attributes wd_attributes total_length b in
  let '(_, b) := pushBackValAt 4 total_length b 0 in
  b.

(** [makeURISearch(uri)] *)
Definition makeURISearch (uri : URI) : Buffer :=
  let b : Buffer := [] in
  let total_length := 0 in
  let '(_, b) := pushBackVal 4 total_length b in
  let '(n, b) := pushBackVal 1 uri_search b in
  let total_length := u32 (total_length + n) in
  let '(n, b) := pushBackUTF16 b uri in
  let total_length := u32 (total_length + n) in
  let '(_, b) := pushBackValAt 4 total_length b 0 in
  b.

End client.

Module solver.

(** [enum class MessageID : uint8_t] *)
Definition keep_alive : Z := 0.
Definition type_announce : Z := 1.
Definition start_on_demand : Z := 2.
Definition stop_on_demand : Z := 3.
Definition solver_data : Z := 4.
Definition create_uri : Z := 5.
Definition expire_uri : Z := 6.
Definition delete_uri : Z := 7.
Definition expire_attribute : Z := 8.
Definition delete_attribute : Z := 9.

Record SolutionData := mkSolutionData {
  type_alias : Z;
  time : Z;
  target : URI;
  data : list byte
}.

Record AliasType := mkAliasType {
  alias : Z;
  type : list Z;
  on_demand : bool
}.

(** The loop of [decodeTypeAnnounceMsg]. *)
Fixpoint read_aliases (total : nat) (reader : BuffReader)
  : list AliasType * BuffReader :=
  match total with
  | O => ([], reader)
  | S k =>
      let '(a, reader) := readPrimitive 4 reader in
      let '(t, reader) := readSizedUTF16 reader in
      let '(od, reader) := readPrimitive 1 reader in
      let '(rest, reader) := read_aliases k reader in
      (mkAliasType a t (negb (od =? 0)) :: rest, reader)
  end.

(** The body of [decodeTypeAnnounceMsg] up to the test of
    [reader.outOfRange()]: the origin is read after, and outside, the test
    of the header. *)
Definition decodeTypeAnnounceMsg_run (b : Buffer)
  : list AliasType * list Z * BuffReader :=
  let reader := BuffReader_new b in
  let '(total_length, reader) := readPrimitive 4 reader in
  let '(msg_type, reader) := readPrimitive 1 reader in
  let '(aliases, reader) :=
    if length_matches b total_length && (msg_type =? type_announce) then
      let '(total_aliases, reader) := readPrimitive 4 reader in
      read_aliases (Z.to_nat total_aliases) reader
    else ([], reader) in
  let '(origin, reader) :=
    readUTF16 ((length b - cur_index reader) / 2)%nat reader in
  (aliases, origin, reader).

(** [decodeTypeAnnounceMsg(buff)] *)
Definition decodeTypeAnnounceMsg (b : Buffer) : list AliasType * list Z :=
  let '(aliases, origin, reader) := decodeTypeAnnounceMsg_run b in
  if outOfRange reader then ([], []) else (aliases, origin).

(** The loop of [decodeStartOnDemand] over the aliases. *)
Fixpoint read_on_demand (total_aliases : nat) (reader : BuffReader)
  : list (Z * list URI) * BuffReader :=
  match total_aliases with
  | O => ([], reader)
  | S k =>
      let '(cur_alias, reader) := readPrimitive 4 reader in
      let '(total_attribs, reader) := readPrimitive 4 reader in
      let '(attribs, reader) :=
        read_strings (Z.to_nat total_attribs) reader in
      let '(rest, reader) := read_on_demand k reader in
      ((cur_alias, attribs) :: rest, reader)
  end.

Definition decodeStartOnDemand_run (b : Buffer)
  : list (Z * list URI) * BuffReader :=
  let reader := BuffReader_new b in
  let '(total_length, reader) := readPrimitive 4 reader in
  let '(msg_type, reader) := readPrimitive 1 reader in
  if length_matches b total_length && (msg_type =? start_on_demand) then
    let '(total_aliases, reader) := readPrimitive 4 reader in
    read_on_demand (Z.to_nat total_aliases) reader
  else ([], reader).

(** [decodeStartOnDemand(buff)] *)
Definition decodeStartOnDemand (b : Buffer) : list (Z * list URI) :=
  let '(aliases, reader) := decodeStartOnDemand_run b in
  if outOfRange reader then [] else aliases.

(** [decodeStopOnDemand(buff)]: [buff] is a reference; the buffer as the
    call leaves it is the second component. *)
Definition decodeStopOnDemand (b : Buffer)
  : list (Z * list URI) * Buffer :=
  let reader := BuffReader_new b in
  let '(total_length, reader) := readPrimitive 4 reader in
  let '(msg_type, reader) := readPrimitive 1 reader in
  if length_matches b total_length && (msg_type =? stop_on_demand) then
    let b := <[4%nat := byte_of_Z start_on_demand]> b in
    (decodeStartOnDemand b, b)
  else ([], b).

(** The loop of [makeSolutionMsg]. *)
Definition push_solutions (solutions : list SolutionData)
           (total_length : Z) (b : Buffer) : Z * Buffer :=
  fold_left (fun '(total_length, b) soln =>
               let '(n, b) := pushBackVal 4 (type_alias soln) b in
               let total_length := u32 (total_length + n) in
               let '(n, b) := pushBackVal 8 (time soln) b in
               let total_length := u32 (total_length + n) in
               let '(n, b) := pushBackSizedUTF16 b (target soln) in
               let total_length := u32 (total_length + n) in
               let '(n, b) := pushSizedContainer (data soln) b in
               let total_length := u32 (total_length + n) in
               (total_length, b))
            solutions (total_length, b).

(** [makeSolutionMsg(create_uris, solutions)] *)
Definition makeSolutionMsg (create_uris : bool)
           (solutions : list SolutionData) : Buffer :=
  let b : Buffer := [] in
  let total_length := 0 in
  let '(_, b) := pushBackVal 4 total_length b in
  let '(n, b) := pushBackVal 1 solver_data b in
  let total_length := u32 (total_length + n) in
  let '(n, b) := pushBackVal 1 (if create_uris then 1 else 0) b in
  let total_length := u32 (total_length + n) in
  let '(n, b) := pushBackVal 4 (u32 (Z.of_nat (length solutions))) b in
  let total_length := u32 (total_length + n) in
  let '(total_length, b) := push_solutions solutions total_length b in
  let '(_, b) := pushBackValAt 4 total_length b 0 in
  b.

(** The loop of [decodeSolutionMsg]. *)
Fixpoint read_solutions (num_solns : nat) (reader : BuffReader)
  : list SolutionData * BuffReader :=
  match num_solns with
  | O => ([], reader)
  | S k =>
      let '(ta, reader) := readPrimitive 4 reader in
      let '(t, reader) := readPrimitive_int64 reader in
      let '(tg, reader) := readSizedUTF16 reader in
      let '(d, reader) := readSizedVector reader in
      let '(rest, reader) := read_solutions k reader in
      (mkSolutionData ta t tg d :: rest, reader)
  end.

Definition decodeSolutionMsg_run (b : Buffer)
  : bool * list SolutionData * BuffReader :=
  let reader := BuffReader_new b in
  let '(total_length, reader) := readPrimitive 4 reader in
  let '(msg_type, reader) := readPrimitive 1 reader in
  if length_matches b total_length && (msg_type =? solver_data) then
    let '(c, reader) := readPrimitive 1 reader in
    let '(num_solns, reader) := readPrimitive 4 reader in
    let '(solutions, reader) :=
      read_solutions (Z.to_nat num_solns) reader in
    (c =? 1, solutions, reader)
  else (false, [], reader).

(** [decodeSolutionMsg(buff)] *)
Definition decodeSolutionMsg (b : Buffer) : bool * list SolutionData :=
  let '(create_uris, solutions, reader) := decodeSolutionMsg_run b in
  if outOfRange reader then (false, []) else (create_uris, solutions).

(** The body of [decodeCreateURI], returning next to the result the reader
    as the function leaves it. *)
Definition decodeCreateURI_run (b : Buffer) : (URI * Z * list Z) * BuffReader :=
  let reader := BuffReader_new b in
  let '(total_length, reader) := readPrimitive 4 reader in
  let '(msg_type, reader) := readPrimitive 1 reader in
  if length_matches b total_length && (create_uri =? msg_type) then
    let '(new_uri, reader) := readSizedUTF16 reader in
    let '(created, reader) := readPrimitive_int64 reader in
    let '(origin, reader) :=
      readUTF16 ((length b - cur_index reader) / 2)%nat reader in
    if outOfRange reader then (([], 0, []), reader)
    else ((new_uri, created, origin), reader)
  else (([], 0, []), reader).

(** [decodeCreateURI(buff)] *)
Definition decodeCreateURI (b : Buffer) : URI * Z * list Z :=
  fst (decodeCreateURI_run b).

Definition decodeExpireURI_run (b : Buffer) : (URI * Z * list Z) * BuffReader :=
  let reader := BuffReader_new b in
  let '(total_length, reader) := readPrimitive 4 reader in
  let '(msg_type, reader) := readPrimitive 1 reader in
  if length_matches b total_length && (expire_uri =? msg_type) then
    let '(uri, reader) := readSizedUTF16 reader in
    let '(expired, reader) := readPrimitive_int64 reader in
    let '(origin, reader) :=
      readUTF16 ((length b - cur_index reader) / 2)%nat reader in
    if outOfRange reader then (([], 0, []), reader)
    else ((uri, expired, origin), reader)
  else (([], 0, []), reader).

(** [decodeExpireURI(buff)] *)
Definition decodeExpireURI (b : Buffer) : URI * Z * list Z :=
  fst (decodeExpireURI_run b).

Definition decodeDeleteURI_run (b : Buffer) : (URI * list Z) * BuffReader :=
  let reader := BuffReader_new b in
  let '(total_length, reader) := readPrimitive 4 reader in
  let '(msg_type, reader) := readPrimitive 1 reader in
  if length_matches b total_length && (delete_uri =? msg_type) then
    let '(uri, reader) := readSizedUTF16 reader in
    let '(origin, reader) :=
      readUTF16 ((length b - cur_index reader) / 2)%nat reader in
    if outOfRange reader then (([], []), reader)
    else ((uri, origin), reader)
  else (([], []), reader).

(** [decodeDeleteURI(buff)] *)
Definition decodeDeleteURI (b : Buffer) : URI * list Z :=
  fst (decodeDeleteURI_run b).

(** The loop of [makeTypeAnnounceMsg]. *)
Definition push_type_aliases (aliases : list AliasType) (total_length : Z)
           (b : Buffer) : Z * Buffer :=
  fold_left (fun '(total_length, b) a =>
               let '(n, b) := pushBackVal 4 (alias a) b in
               let total_length := u32 (total_length + n) in
               let '(n, b) := pushBackSizedUTF16 b (type a) in
               let total_length := u32 (total_length + n) in
               let '(n, b) :=
                 pushBackVal 1 (if on_demand a then 1 else 0) b in
               let total_length := u32 (total_length + n) in
               (total_length, b))
            aliases (total_length, b).

(** [makeTypeAnnounceMsg(type_alias, origin)] *)
Definition makeTypeAnnounceMsg (type_alias : list AliasType)
           (origin : list Z) : Buffer :=
  let b : Buffer := [] in
  let total_length := 0 in
  let '(_, b) := pushBackVal 4 total_length b in
  let '(n, b) := pushBackVal 1 type_announce b in
  let total_length := u32 (total_length + n) in
  let '(n, b) := pushBackVal 4 (u32 (Z.of_nat (length type_alias))) b in
  let total_length := u32 (total_length + n) in
  let '(total_length, b) := push_type_aliases type_alias total_length b in
  let '(n, b) := pushBackUTF16 b origin in
  let total_length := u32 (total_length + n) in
  let '(_, b) := pushBackValAt 4 total_length b 0 in
  b.

(** The loop of [makeStartOnDemand]. *)
Definition push_on_demand (aliases : list (Z * list URI)) (total_length : Z)
           (b : Buffer) : Z * Buffer :=
  fold_left (fun '(total_length, b) a =>
               let '(n, b) := pushBackVal 4 (fst a) b in
               let total_length := u32 (total_length + n) in
               let '(n, b) :=
                 pushBackVal 4 (u32 (Z.of_nat (length (snd a)))) b in
               let total_length := u32 (total_length + n) in
               push_strings (snd a) total_length b)
            aliases (total_length, b).

(** [makeStartOnDemand(aliases)] *)
Definition makeStartOnDemand (aliases : list (Z * list URI)) : Buffer :=
  let b : Buffer := [] in
  let total_length := 0 in
  let '(_, b) := pushBackVal 4 total_length b in
  let '(n, b) := pushBackVal 1 start_on_demand b in
  let total_length := u32 (total_length + n) in
  let '(n, b) := pushBackVal 4 (u32 (Z.of_nat (length aliases))) b in
  let total_length := u32 (total_length + n) in
  let '(total_length, b) := push_on_demand aliases total_length b in
  let '(_, b) := pushBackValAt 4 total_length b 0 in
  b.

(** [makeStopOnDemand(aliases)] *)
Definition makeStopOnDemand (aliases : list (Z * list URI)) : Buffer :=
  let b := makeStartOnDemand aliases in
  <[4%nat := byte_of_Z stop_on_demand]> b.

(** [makeCreateURI(new_uri, creation, origin)] *)
Definition makeCreateURI (new_uri : URI) (creation : Z) (origin : list Z)
  : Buffer :=
  let b : Buffer := [] in
  let total_length := 0 in
  let '(_, b) := pushBackVal 4 total_length b in
  let '(n, b) := pushBackVal 1 create_uri b in
  let total_length := u32 (total_length + n) in
  let '(n, b) := pushBackSizedUTF16 b new_uri in
  let total_length := u32 (total_length + n) in
  let '(n, b) := pushBackVal 8 creation b in
  let total_length := u32 (total_length + n) in
  let '(n, b) := pushBackUTF16 b origin in
  let total_length := u32 (total_length + n) in
  let '(_, b) := pushBackValAt 4 total_length b 0 in
  b.

(** [makeExpireURI(uri, expiration, origin)] *)
Definition makeExpireURI (uri : URI) (expiration : Z) (origin : list Z)
  : Buffer :=
  let b : Buffer := [] in
  let total_length := 0 in
  let '(_, b) := pushBackVal 4 total_length b in
  let '(n, b) := pushBackVal 1 expire_uri b in
  let total_length := u32 (total_length + n) in
  let '(n, b) := pushBackSizedUTF16 b uri in
  let total_length := u32 (total_length + n) in
  let '(n, b) := pushBackVal 8 expiration b in
  let total_length := u32 (total_length + n) in
  let '(n, b) := pushBackUTF16 b origin in
  let total_length := u32 (total_length + n) in
  let '(_, b) := pushBackValAt 4 total_length b 0 in
  b.

(** [makeDeleteURI(uri, origin)] *)
Definition makeDeleteURI (uri : URI) (origin : list Z) : Buffer :=
  let b : Buffer := [] in
  let total_length := 0 in
  let '(_, b) := pushBackVal 4 total_length b in
  let '(n, b) := pushBackVal 1 delete_uri b in
  let total_length := u32 (total_length + n) in
  let '(n, b) := pushBackSizedUTF16 b uri in
  let total_length := u32 (total_length + n) in
  let '(n, b) := pushBackUTF16 b origin in
  let total_length := u32 (total_length + n) in
  let '(_, b) := pushBackValAt 4 total_length b 0 in
  b.

(** [makeExpireAttribute(uri, attribute, origin, expiration)] *)
Definition makeExpireAttribute (uri : URI) (attribute origin : list Z)
           (expiration : Z) : Buffer :=
  let b : Buffer := [] in
  let total_length := 0 in
  let '(_, b) := pushBackVal 4 total_length b in
  let '(n, b) := pushBackVal 1 expire_attribute b in
  let total_length := u32 (total_length + n) in
  let '(n, b) := pushBackSizedUTF16 b uri in
  let total_length := u32 (total_length + n) in
  let '(n, b) := pushBackSizedUTF16 b attribute in
  let total_length := u32 (total_length + n) in
  let '(n, b) := pushBackVal 8 expiration b in
  let total_length := u32 (total_length + n) in
  let '(n, b) := pushBackUTF16 b origin in
  let total_length := u32 (total_length + n) in
  let '(_, b) := pushBackValAt 4 total_length b 0 in
  b.

(** The body of [decodeExpireAttribute], returning next to the result the
    reader as the function leaves it. *)
Definition decodeExpireAttribute_run (b : Buffer)
  : (URI * list Z * Z * list Z) * BuffReader :=
  let reader := BuffReader_new b in
  let '(total_length, reader) := readPrimitive 4 reader in
  let '(msg_type, reader) := readPrimitive 1 reader in
  if length_matches b total_length && (expire_attribute =? msg_type) then
    let '(uri, reader) := readSizedUTF16 reader in
    let '(attribute, reader) := readSizedUTF16 reader in
    let '(expired, reader) := readPrimitive_int64 reader in
    let '(origin, reader) :=
      readUTF16 ((length b - cur_index reader) / 2)%nat reader in
    if outOfRange reader then (([], [], 0, []), reader)
    else ((uri, attribute, expired, origin), reader)
  else (([], [], 0, []), reader).

(** [decodeExpireAttribute(buff)] *)
Definition decodeExpireAttribute (b : Buffer) : URI * list Z * Z * list Z :=
  fst (decodeExpireAttribute_run b).

(** [makeDeleteAttribute(uri, attribute, origin)] *)
Definition makeDeleteAttribute (uri : URI) (attribute origin : list Z)
  : Buffer :=
  let b : Buffer := [] in
  let total_length := 0 in
  let '(_, b) := pushBackVal 4 total_length b in
  let '(n, b) := pushBackVal 1 delete_attribute b in
  let total_length := u32 (total_length + n) in
  let '(n, b) := pushBackSizedUTF16 b uri in
  let total_length := u32 (total_length + n) in
  let '(n, b) := pushBackSizedUTF16 b attribute in
  let total_length := u32 (total_length + n) in
  let '(n, b) := pushBackUTF16 b origin in
  let total_length := u32 (total_length + n) in
  let '(_, b) := pushBackValAt 4 total_length b 0 in
  b.

(** The body of [decodeDeleteAttribute], returning next to the result the
    reader as the function leaves it. *)
Definition decodeDeleteAttribute_run (b : Buffer)
  : (URI * list Z * list Z) * BuffReader :=
  let reader := BuffReader_new b in
  let '(total_length, reader) := readPrimitive 4 reader in
  let '(msg_type, reader) := readPrimitive 1 reader in
  if length_matches b total_length && (delete_attribute =? msg_type) then
    let '(uri, reader) := readSizedUTF16 reader in
    let '(attribute, reader) := readSizedUTF16 reader in
    let '(origin, reader) :=
      readUTF16 ((length b - cur_index reader) / 2)%nat reader in
    if outOfRange reader then (([], [], []), reader)
    else ((uri, attribute, origin), reader)
  else (([], [], []), reader).

(** [decodeDeleteAttribute(buff)] *)
Definition decodeDeleteAttribute (b : Buffer) : URI * list Z * list Z :=
  fst (decodeDeleteAttribute_run b).

End solver.

End world_model.

(** ** sensor_aggregator_protocol.cpp *)

Module sensor_aggregator.

(** [makeSampleMsg(sample)]: the frame has no kind byte. *)
Definition makeSampleMsg (sample : SampleData) : Buffer :=
  let total_length := 0 in
  let b : Buffer := [Byte.x00; Byte.x00; Byte.x00; Byte.x00] in
  let '(n, b) := pushBackVal 1 (physical_layer sample) b in
  let total_length := u32 (total_length + n) in
  let '(n, b) := pushBackVal_uint128 (tx_id sample) b in
  let total_length := u32 (total_length + n) in
  let '(n, b) := pushBackVal_uint128 (rx_id sample) b in
  let total_length := u32 (total_length + n) in
  let '(n, b) := pushBackVal 8 (rx_timestamp sample) b in
  let total_length := u32 (total_length + n) in
  let '(n, b) := pushBackVal 4 (rss sample) b in
  let total_length := u32 (total_length + n) in
  let '(total_length, b) :=
    if (0 <? length (sense_data sample))%nat then
      let '(n, b) := pushContainer (sense_data sample) b in
      (u32 (total_length + n), b)
    else (total_length, b) in
  let '(_, b) := pushBackValAt 4 total_length b 0 in
  b.

(** [decodeSampleMsg(buff, length)]; the scalar members of an invalid
    sample are uninitialised in the source and shown as zero. *)
Definition decodeSampleMsg (b : Buffer) (length_ : Z) : SampleData :=
  if 4 <? length_ then
    let reader := BuffReader_new b in
    let '(entire_length, reader) := readPrimitive 4 reader in
    if u32 (entire_length + 4) =? length_ then
      let '(phy, reader) := readPrimitive 1 reader in
      let '(tx, reader) := readPrimitive_uint128 reader in
      let '(rx, reader) := readPrimitive_uint128 reader in
      let '(stamp, reader) := readPrimitive_int64 reader in
      let '(strength, reader) := readPrimitive 4 reader in
      let left := u32 (length_ - Z.of_nat (cur_index reader)) in
      let '(sense, reader) :=
        readPrimitiveContainer (replicate (Z.to_nat left) Byte.x00) reader in
      mkSampleData phy tx rx stamp strength sense true
    else aggregator_solver.invalid_sample
  else aggregator_solver.invalid_sample.

End sensor_aggregator.

(** ** grail_types.hpp / grail_types.cpp *)

Module grail_types.

Record transmitter := mk_transmitter { phy : Z; id : uint128_t }.

(** [operator<] and [operator==] on transmitters. *)
Definition transmitter_lt (a b : transmitter) : bool :=
  (phy a <? phy b) || ((phy a =? phy b) && uint128_lt (id a) (id b)).

Definition transmitter_eq (a b : transmitter) : bool :=
  (phy a =? phy b) && uint128_eq (id a) (id b).

(** [readTransmitterFromBuffer(reader)] *)
Definition readTransmitterFromBuffer (reader : BuffReader)
  : transmitter * BuffReader :=
  let '(p, reader) := readPrimitive 1 reader in
  let '(u, reader) := readPrimitive 8 reader in
  let '(l, reader) := readPrimitive 8 reader in
  (mk_transmitter p (mk_uint128 u l), reader).

(** [readTransmitter(buff)] *)
Definition readTransmitter (b : Buffer) : transmitter :=
  mk_transmitter (readPrimitiveAt 1 b 0)
                 (mk_uint128 (readPrimitiveAt 8 b 1)
                             (readPrimitiveAt 8 b (1 + 8))).

(** The loop of [unpackGRAILVector]. *)
Fixpoint unpack_loop {T : Type} (read_fun : BuffReader -> T * BuffReader)
         (total : nat) (reader : BuffReader) : list T * BuffReader :=
  match total with
  | O => ([], reader)
  | S k =>
      let '(x, reader) := read_fun reader in
      let '(xs, reader) := unpack_loop read_fun k reader in
      (x :: xs, reader)
  end.

(** [unpackGRAILVector<T>(read_fun, buff)] *)
Definition unpackGRAILVector {T : Type}
           (read_fun : BuffReader -> T * BuffReader) (b : Buffer) : list T :=
  let reader := BuffReader_new b in
  let '(total, reader) := readPrimitive 4 reader in
  fst (unpack_loop read_fun (Z.to_nat total) reader).

End grail_types.

(** ** message_receiver.cpp *)

Module MessageReceiver.

(** What one [read(2)] behind [ClientSocket::receive] answers. *)
Inductive recv_result :=
| RecvBytes (bs : list byte)
    (** [bs] were read; not more than the size of [raw_messages] is
        taken; an empty read is end of file *)
| RecvWouldBlock  (** [-1], [errno] is [EAGAIN] or [EWOULDBLOCK] *)
| RecvError.      (** [-1], any other [errno] *)

(** What one [ClientSocket::inputReady] answers. *)
Inductive ready_result :=
| Ready
| NotReady
| PollFailed.  (** the call throws *)

(** The socket as the receiver sees it: the answers still to come and the
    number of calls made on it so far. *)
Record ClientSocket := mkSocket {
  polls : list ready_result;
  reads : list recv_result;
  io_calls : nat
}.

Record state := mkState {
  previous_unfinished : Buffer;
  sock : ClientSocket
}.

(** [raw_messages(10000)] *)
Definition raw_messages_size : nat := Z.to_nat 10000.

Inductive outcome (A : Type) :=
| Returned (a : A)
| Thrown    (** [std::runtime_error] *)
| Waiting.  (** still in the loop when the answers are exhausted *)
Arguments Returned {A} a.
Arguments Thrown {A}.
Arguments Waiting {A}.

(** [sock.inputReady(10)]; nothing is ready once the answers are
    exhausted. *)
Definition inputReady (s : ClientSocket) : ready_result * ClientSocket :=
  match polls s with
  | [] => (NotReady, mkSocket [] (reads s) (S (io_calls s)))
  | a :: rest => (a, mkSocket rest (reads s) (S (io_calls s)))
  end.

(** [readPrimitive<uint32_t>(previous_unfinished, 0) + 4], a
    [uint32_t]. *)
Definition piece_length_of (pending : Buffer) : Z :=
  u32 (readPrimitiveAt 4 pending 0 + 4).

(** [piece_length] as both member functions set it on entry: zero until
    four bytes are there. *)
Definition known_piece_length (pending : Buffer) : Z :=
  if (4 <=? length pending)%nat then piece_length_of pending else 0.

(** The test that guards the receive in both member functions. *)
Definition needs_more (interrupted : bool) (pending : Buffer)
           (piece_length : Z) : bool :=
  negb interrupted
  && ((length pending <? 4)%nat
      || (Z.of_nat (length pending) <? piece_length)).

(** [messageAvailable(interrupted)] *)
Definition messageAvailable (interrupted : bool) (st : state)
  : outcome (bool * state) :=
  let pending := previous_unfinished st in
  let piece_length := known_piece_length pending in
  let finish (st : state) :=
    let pending := previous_unfinished st in
    Returned (piece_length_of pending <=? Z.of_nat (length pending), st) in
  if needs_more interrupted pending piece_length then
    let '(ready, s) := inputReady (sock st) in
    match ready with
    | PollFailed => Thrown
    | NotReady => Returned (false, mkState pending s)
    | Ready =>
        match reads s with
        | [] | RecvWouldBlock :: _ =>
            Returned (false,
                      mkState pending
                              (mkSocket (polls s) (tl (reads s))
                                        (S (io_calls s))))
        | RecvError :: _ => Thrown
        | RecvBytes bs :: rest =>
            let received := take raw_messages_size bs in
            if (length received =? 0)%nat then Thrown
            else finish (mkState (pending ++ received)
                                 (mkSocket (polls s) rest (S (io_calls s))))
        end
    end
  else finish st.

(** The [while] loop of [getNextMessage]; every turn is one
    [sock.receive]. *)
Fixpoint receive_loop (interrupted : bool) (answers : list recv_result)
         (pending : Buffer) (piece_length : Z) (calls : nat) {struct answers}
  : outcome (Buffer * list recv_result * nat) :=
  if needs_more interrupted pending piece_length then
    match answers with
    | [] => Waiting
    | RecvWouldBlock :: rest =>
        receive_loop interrupted rest pending piece_length (S calls)
    | RecvError :: _ => Thrown
    | RecvBytes bs :: rest =>
        let received := take raw_messages_size bs in
        if (length received =? 0)%nat then Thrown
        else
          let pending := pending ++ received in
          let piece_length :=
            if (4 <=? length pending)%nat then piece_length_of pending
            else piece_length in
          receive_loop interrupted rest pending piece_length (S calls)
    end
  else Returned (pending, answers, calls).

(** [getNextMessage(interrupted)] *)
Definition getNextMessage (interrupted : bool) (st : state)
  : outcome (Buffer * state) :=
  let pending := previous_unfinished st in
  let piece_length := known_piece_length pending in
  match receive_loop interrupted (reads (sock st)) pending piece_length
                     (io_calls (sock st)) with
  | Thrown => Thrown
  | Waiting => Waiting
  | Returned (pending, answers, calls) =>
      let s := mkSocket (polls (sock st)) answers calls in
      if interrupted then Returned ([], mkState pending s)
      else
        let piece_length := piece_length_of pending in
        let new_packet := take (Z.to_nat piece_length) pending in
        if piece_length <? Z.of_nat (length pending) then
          Returned (new_packet,
                    mkState (drop (Z.to_nat piece_length) pending) s)
        else Returned (new_packet, mkState [] s)
  end.

(** The states the receiver can be in: the constructor leaves
    [previous_unfinished] empty, the two member functions are the only
    code that writes it, and what the socket will answer is not known in
    advance (a call that throws leaves the bytes it held). *)
Inductive reachable : state -> Prop :=
| reach_init s : reachable (mkState [] s)
| reach_socket st s :
    reachable st -> reachable (mkState (previous_unfinished st) s)
| reach_available st interrupted ready st' :
    reachable st ->
    messageAvailable interrupted st = Returned (ready, st') ->
    reachable st'
| reach_next st interrupted packet st' :
    reachable st ->
    getNextMessage interrupted st = Returned (packet, st') ->
    reachable st'.

End MessageReceiver.

(** ** Reader positions and wire images *)

(** The bytes from the cursor to the end of the buffer. *)
Definition remaining (r : BuffReader) : list byte :=
  drop (cur_index r) (buff r).

(** The reader [n] bytes further on, flag untouched. *)
Definition advance (n : nat) (r : BuffReader) : BuffReader :=
  mkBuffReader (buff r) (cur_index r + n) (out_of_range r).

(** What every reading function guarantees between the reader [r] it is
    given and the reader [r'] it leaves: the same buffer, a cursor that
    stays inside it and does not move back, a flag that is never cleared,
    and, when the flag is still clear afterwards, at least [n] bytes
    consumed. *)
Definition consumes (n : nat) (r r' : BuffReader) : Prop :=
  buff r' = buff r
  /\ (cur_index r <= cur_index r')%nat
  /\ ((cur_index r <= length (buff r))%nat ->
      (cur_index r' <= length (buff r))%nat)
  /\ (out_of_range r' = false ->
      out_of_range r = false /\ (cur_index r + n <= cur_index r')%nat).

(** The wire image of a string without and with its length prefix, and of
    a sized byte vector. *)
Definition wire_utf16 (str : list Z) : list byte :=
  concat (map (be_bytes 2) str).

Definition wire_sized_utf16 (str : list Z) : list byte :=
  be_bytes 4 (Z.of_nat (length str) * 2) ++ wire_utf16 str.

Definition wire_sized_bytes (d : list byte) : list byte :=
  be_bytes 4 (Z.of_nat (length d)) ++ d.

(** The wire image of one solution and of a [solver_data] payload, kind
    byte first. *)
Definition wire_solution (s : world_model.solver.SolutionData) : list byte :=
  be_bytes 4 (world_model.solver.type_alias s)
  ++ be_bytes 8 (world_model.solver.time s)
  ++ wire_sized_utf16 (world_model.solver.target s)
  ++ wire_sized_bytes (world_model.solver.data s).

Definition wire_solutions (create_uris : bool)
           (solutions : list world_model.solver.SolutionData) : list byte :=
  be_bytes 1 world_model.solver.solver_data
  ++ be_bytes 1 (if create_uris then 1 else 0)
  ++ be_bytes 4 (Z.of_nat (length solutions))
  ++ concat (map wire_solution solutions).

(** A well-formed solution: the alias is a [uint32_t], the time an
    [int64_t], the target a string of UTF-16 code units. *)
Definition wf_solution (s : world_model.solver.SolutionData) : Prop :=
  0 <= world_model.solver.type_alias s < 2 ^ 32
  /\ - 2 ^ 63 <= world_model.solver.time s < 2 ^ 63
  /\ Forall (fun c => 0 <= c < 2 ^ 16) (world_model.solver.target s).

(** A [data_response] frame with a consistent length field: the kind, the
    object URI, the ticket, the attribute count [n], and then whatever
    bytes [rest] the frame goes on with. *)
Definition wire_data_response (uri : world_model.URI) (ticket n : Z)
           (rest : list byte) : Buffer :=
  let payload :=
    be_bytes 1 world_model.client.data_response
    ++ wire_sized_utf16 uri ++ be_bytes 4 ticket ++ be_bytes 4 n ++ rest in
  be_bytes 4 (Z.of_nat (length payload)) ++ payload.

(** ** An invariant of the framer *)

(** No receive adds more than [raw_messages] holds, and no receive happens
    once the bytes of the announced piece are there: the pending bytes
    never exceed the piece by 10000 or more. *)
Definition pending_bounded (pending : Buffer) : Prop :=
  Z.of_nat (length pending)
  < Z.max 4 (MessageReceiver.piece_length_of pending) + 10000.

(** ** Frames and example values *)

(** A frame of kind [id]: the first four bytes declare the size of the rest,
    the whole is below 4 GiB (the declared size plus four is computed in 32
    bits), and the byte at offset 4 is [id]. *)
Definition is_frame (id : Z) (b : Buffer) : Prop :=
  Z.of_nat (length b) = be_val (take 4 b) + 4
  /\ Z.of_nat (length b) < 2 ^ 32
  /\ b !! 4%nat = Some (byte_of_Z id).

(** The request of the snapshot scenario: ["lamp.*"], attributes
    ["location"] and ["on"], from 1000 to 2000. *)
Definition lamp_request : world_model.client.Request :=
  world_model.client.mkRequest
    (u16 "lamp.*") [u16 "location"; u16 "on"] 1000 2000.

(** ** The decoders of the world-model protocol, taken together *)

(** The decoders that parse a frame themselves. *)
Inductive decoder :=
| SnapshotRequest | AttrAliasMsg | RequestComplete | CancelRequest
| DataMessage | URISearch | URISearchResponse
| TypeAnnounceMsg | StartOnDemand | SolutionMsg
| CreateURI | ExpireURI | DeleteURI | ExpireAttribute | DeleteAttribute.

(** The kind each decoder expects at offset 4. *)
Definition kind_of (d : decoder) : Z :=
  match d with
  | SnapshotRequest => world_model.client.snapshot_request
  | AttrAliasMsg => world_model.client.attribute_alias
  | RequestComplete => world_model.client.request_complete
  | CancelRequest => world_model.client.cancel_request
  | DataMessage => world_model.client.data_response
  | URISearch => world_model.client.uri_search
  | URISearchResponse => world_model.client.uri_response
  | TypeAnnounceMsg => world_model.solver.type_announce
  | StartOnDemand => world_model.solver.start_on_demand
  | SolutionMsg => world_model.solver.solver_data
  | CreateURI => world_model.solver.create_uri
  | ExpireURI => world_model.solver.expire_uri
  | DeleteURI => world_model.solver.delete_uri
  | ExpireAttribute => world_model.solver.expire_attribute
  | DeleteAttribute => world_model.solver.delete_attribute
  end.

(** What [reader.outOfRange()] answers when the decoder is done with its
    reader. *)
Definition flag_after (uninit : Z * Z) (d : decoder) (b : Buffer) : bool :=
  match d with
  | SnapshotRequest =>
      outOfRange (snd (world_model.client.decodeSnapshotRequest_run uninit b))
  | AttrAliasMsg =>
      outOfRange (snd (world_model.client.decodeAttrAliasMsg_run b))
  | RequestComplete =>
      outOfRange (snd (world_model.client.decodeRequestComplete_run b))
  | CancelRequest =>
      outOfRange (snd (world_model.client.decodeCancelRequest_run b))
  | DataMessage =>
      outOfRange (snd (world_model.client.decodeDataMessage_run b))
  | URISearch =>
      outOfRange (snd (world_model.client.decodeURISearch_run b))
  | URISearchResponse =>
      outOfRange (snd (world_model.client.decodeURISearchResponse_run b))
  | TypeAnnounceMsg =>
      outOfRange (snd (world_model.solver.decodeTypeAnnounceMsg_run b))
  | StartOnDemand =>
      outOfRange (snd (world_model.solver.decodeStartOnDemand_run b))
  | SolutionMsg =>
      outOfRange (snd (world_model.solver.decodeSolutionMsg_run b))
  | CreateURI =>
      outOfRange (snd (world_model.solver.decodeCreateURI_run b))
  | ExpireURI =>
      outOfRange (snd (world_model.solver.decodeExpireURI_run b))
  | DeleteURI =>
      outOfRange (snd (world_model.solver.decodeDeleteURI_run b))
  | ExpireAttribute =>
      outOfRange (snd (world_model.solver.decodeExpireAttribute_run b))
  | DeleteAttribute =>
      outOfRange (snd (world_model.solver.decodeDeleteAttribute_run b))
  end.

(** The decoder returns its empty value.  For [decodeSnapshotRequest] that
    is a request without URI and attributes; its ticket is zero when the
    buffer is not a [snapshot_request] frame, and the request is the
    value-initialised [client::Request()] when the flag is latched.  For
    [decodeTypeAnnounceMsg] it is the empty list of aliases, with the
    empty origin when the flag is latched. *)
Definition rejected (uninit : Z * Z) (d : decoder) (b : Buffer) : Prop :=
  match d with
  | SnapshotRequest =>
      let '(request, ticket) :=
        world_model.client.decodeSnapshotRequest uninit b in
      world_model.client.object_uri request = []
      /\ world_model.client.attributes request = []
      /\ (~ is_frame world_model.client.snapshot_request b -> ticket = 0)
      /\ (flag_after uninit SnapshotRequest b = true ->
          request = world_model.client.Request_empty)
  | AttrAliasMsg => world_model.client.decodeAttrAliasMsg b = []
  | RequestComplete => world_model.client.decodeRequestComplete b = 0
  | CancelRequest => world_model.client.decodeCancelRequest b = 0
  | DataMessage =>
      world_model.client.decodeDataMessage b
      = (world_model.client.AliasedWorldData_empty, 0)
  | URISearch => world_model.client.decodeURISearch b = []
  | URISearchResponse => world_model.client.decodeURISearchResponse b = []
  | TypeAnnounceMsg =>
      fst (world_model.solver.decodeTypeAnnounceMsg b) = []
      /\ (flag_after uninit TypeAnnounceMsg b = true ->
          world_model.solver.decodeTypeAnnounceMsg b = ([], []))
  | StartOnDemand => world_model.solver.decodeStartOnDemand b = []
  | SolutionMsg => world_model.solver.decodeSolutionMsg b = (false, [])
  | CreateURI => world_model.solver.decodeCreateURI b = ([], 0, [])
  | ExpireURI => world_model.solver.decodeExpireURI b = ([], 0, [])
  | DeleteURI => world_model.solver.decodeDeleteURI b = ([], [])
  | ExpireAttribute =>
      world_model.solver.decodeExpireAttribute b = ([], [], 0, [])
  | DeleteAttribute =>
      world_model.solver.decodeDeleteAttribute b = ([], [], [])
  end.

(** The decoders that test the kind at offset 4, overwrite it with the
    kind of one of the decoders above and hand the buffer to that
    decoder. *)
Inductive patching_decoder :=
| RangeRequest | StreamRequest | OriginAliasMsg | StopOnDemand.

(** The kind each of them expects at offset 4. *)
Definition patched_kind (p : patching_decoder) : Z :=
  match p with
  | RangeRequest => world_model.client.range_request
  | StreamRequest => world_model.client.stream_request
  | OriginAliasMsg => world_model.client.origin_alias
  | StopOnDemand => world_model.solver.stop_on_demand
  end.

(** The decoder each of them calls. *)
Definition delegate (p : patching_decoder) : decoder :=
  match p with
  | RangeRequest | StreamRequest => SnapshotRequest
  | OriginAliasMsg => AttrAliasMsg
  | StopOnDemand => StartOnDemand
  end.

(** The buffer as the delegate is given it. *)
Definition patched (p : patching_decoder) (b : Buffer) : Buffer :=
  <[4%nat := byte_of_Z (kind_of (delegate p))]> b.

(** The patching decoder returns its empty value: a request without URI
    and attributes, with ticket zero when the buffer is not a frame of the
    kind, or the empty list. *)
Definition rejected_patching (uninit_empty uninit : Z * Z)
           (p : patching_decoder) (b : Buffer) : Prop :=
  match p with
  | RangeRequest =>
      let '(request, ticket) :=
        fst (world_model.client.decodeRangeRequest uninit_empty uninit b) in
      world_model.client.object_uri request = []
      /\ world_model.client.attributes request = []
      /\ (~ is_frame world_model.client.range_request b -> ticket = 0)
  | StreamRequest =>
      let '(request, ticket) :=
        fst (world_model.client.decodeStreamRequest uninit_empty uninit b) in
      world_model.client.object_uri request = []
      /\ world_model.client.attributes request = []
      /\ (~ is_frame world_model.client.stream_request b -> ticket = 0)
  | OriginAliasMsg =>
      fst (world_model.client.decodeOriginAliasMsg b) = []
  | StopOnDemand =>
      fst (world_model.solver.decodeStopOnDemand b) = []
  end.

(** ** Frames as the encoders lay them out *)

(** The frame of kind [kind] around the payload fields [body]: the size of
    kind and body in four bytes, the kind byte, the body. *)
Definition frame (kind : Z) (body : list byte) : Buffer :=
  be_bytes 4 (Z.of_nat (length (be_bytes 1 kind ++ body)))
  ++ be_bytes 1 kind ++ body.

(** A [std::u16string]: every unit is a [char16_t]. *)
Definition wf_string (str : list Z) : Prop :=
  Forall (fun c => 0 <= c < 2 ^ 16) str.

(** A [uint128_t]: both halves are [uint64_t]. *)
Definition wf_uint128 (v : uint128_t) : Prop :=
  0 <= upper v < 2 ^ 64 /\ 0 <= lower v < 2 ^ 64.

(** A [client::Request]: strings of code units and two [grail_time]s. *)
Definition wf_request (rq : world_model.client.Request) : Prop :=
  wf_string (world_model.client.object_uri rq)
  /\ Forall wf_string (world_model.client.attributes rq)
  /\ - 2 ^ 63 <= world_model.client.start rq < 2 ^ 63
  /\ - 2 ^ 63 <= world_model.client.stop_period rq < 2 ^ 63.

(** The payload fields of a request, after the kind byte. *)
Definition wire_request (rq : world_model.client.Request) (ticket : Z)
  : list byte :=
  be_bytes 4 ticket
  ++ wire_sized_utf16 (world_model.client.object_uri rq)
  ++ be_bytes 4 (Z.of_nat (length (world_model.client.attributes rq)))
  ++ concat (map wire_sized_utf16 (world_model.client.attributes rq))
  ++ be_bytes 8 (world_model.client.start rq)
  ++ be_bytes 8 (world_model.client.stop_period rq).

(** The number a [uint128_t] stands for. *)
Definition uint128_value (v : uint128_t) : Z := upper v * 2 ^ 64 + lower v.

(** The read [rd] takes the bytes [enc] off the front of what is left in
    the buffer and returns [v], leaving the flag alone. *)
Definition decodes {A : Type} (rd : BuffReader -> A * BuffReader)
           (enc : list byte) (v : A) : Prop :=
  forall (r : BuffReader) (suf : list byte),
    remaining r = enc ++ suf ->
    rd r = (v, advance (length enc) r)
    /\ remaining (advance (length enc) r) = suf.

(** The bytes of a [uint128_t] on the wire. *)
Definition wire_uint128 (v : uint128_t) : list byte :=
  be_bytes 8 (upper v) ++ be_bytes 8 (lower v).

(** A [grail_time] ([int64_t]). *)
Definition wf_time (t : Z) : Prop := - 2 ^ 63 <= t < 2 ^ 63.

(** A [client::AliasType] and its bytes on the wire. *)
Definition wf_alias (a : world_model.client.AliasType) : Prop :=
  0 <= world_model.client.alias a < 2 ^ 32
  /\ wf_string (world_model.client.type a).

Definition wire_alias (a : world_model.client.AliasType) : list byte :=
  be_bytes 4 (world_model.client.alias a)
  ++ wire_sized_utf16 (world_model.client.type a).

Definition wire_aliases (aliases : list world_model.client.AliasType)
  : list byte :=
  be_bytes 4 (Z.of_nat (length aliases)) ++ concat (map wire_alias aliases).

(** An [AliasedAttribute] and its bytes on the wire. *)
Definition wf_attribute (attr : world_model.AliasedAttribute) : Prop :=
  0 <= world_model.name_alias attr < 2 ^ 32
  /\ wf_time (world_model.creation_date attr)
  /\ wf_time (world_model.expiration_date attr)
  /\ 0 <= world_model.origin_alias attr < 2 ^ 32.

Definition wire_attribute (attr : world_model.AliasedAttribute) : list byte :=
  be_bytes 4 (world_model.name_alias attr)
  ++ be_bytes 8 (world_model.creation_date attr)
  ++ be_bytes 8 (world_model.expiration_date attr)
  ++ be_bytes 4 (world_model.origin_alias attr)
  ++ wire_sized_bytes (world_model.data attr).

(** The bytes of an attribute whose data is announced as [declared] bytes,
    whatever their number. *)
Definition wire_attribute_declaring (attr : world_model.AliasedAttribute)
           (declared : Z) : list byte :=
  be_bytes 4 (world_model.name_alias attr)
  ++ be_bytes 8 (world_model.creation_date attr)
  ++ be_bytes 8 (world_model.expiration_date attr)
  ++ be_bytes 4 (world_model.origin_alias attr)
  ++ be_bytes 4 declared ++ world_model.data attr.

Definition wf_world_data (wd : world_model.AliasedWorldData) : Prop :=
  wf_string (world_model.object_uri wd)
  /\ Forall wf_attribute (world_model.attributes wd).

Definition wire_world_data (wd : world_model.AliasedWorldData) (ticket : Z)
  : list byte :=
  wire_sized_utf16 (world_model.object_uri wd)
  ++ be_bytes 4 ticket
  ++ be_bytes 4 (Z.of_nat (length (world_model.attributes wd)))
  ++ concat (map wire_attribute (world_model.attributes wd)).

(** A [solver::AliasType] and its bytes on the wire. *)
Definition wf_type_alias (a : world_model.solver.AliasType) : Prop :=
  0 <= world_model.solver.alias a < 2 ^ 32
  /\ wf_string (world_model.solver.type a).

Definition wire_type_alias (a : world_model.solver.AliasType) : list byte :=
  be_bytes 4 (world_model.solver.alias a)
  ++ wire_sized_utf16 (world_model.solver.type a)
  ++ be_bytes 1 (if world_model.solver.on_demand a then 1 else 0).

Definition wire_type_announce (aliases : list world_model.solver.AliasType)
           (origin : list Z) : list byte :=
  be_bytes 4 (Z.of_nat (length aliases))
  ++ concat (map wire_type_alias aliases)
  ++ wire_utf16 origin.

(** An on-demand request (a type alias and the names asked for) and its
    bytes on the wire. *)
Definition wf_on_demand (a : Z * list world_model.URI) : Prop :=
  0 <= fst a < 2 ^ 32 /\ Forall wf_string (snd a).

Definition wire_on_demand (a : Z * list world_model.URI) : list byte :=
  be_bytes 4 (fst a)
  ++ be_bytes 4 (Z.of_nat (length (snd a)))
  ++ concat (map wire_sized_utf16 (snd a)).

Definition wire_on_demands (aliases : list (Z * list world_model.URI))
  : list byte :=
  be_bytes 4 (Z.of_nat (length aliases))
  ++ concat (map wire_on_demand aliases).

(** A [SampleData] whose members hold values of their C++ types, and the
    bytes of its members on the wire. *)
Definition wf_sample (sample : SampleData) : Prop :=
  0 <= physical_layer sample < 2 ^ 8
  /\ wf_uint128 (tx_id sample) /\ wf_uint128 (rx_id sample)
  /\ wf_time (rx_timestamp sample)
  /\ 0 <= rss sample < 2 ^ 32.

Definition wire_sample (sample : SampleData) : list byte :=
  be_bytes 1 (physical_layer sample)
  ++ wire_uint128 (tx_id sample) ++ wire_uint128 (rx_id sample)
  ++ be_bytes 8 (rx_timestamp sample)
  ++ be_bytes 4 (rss sample)
  ++ sense_data sample.

(** The sample with [valid] set. *)
Definition valid_sample (sample : SampleData) : SampleData :=
  mkSampleData (physical_layer sample) (tx_id sample) (rx_id sample)
               (rx_timestamp sample) (rss sample) (sense_data sample) true.

(** A subscription rule and its bytes on the wire. *)
Definition wf_txer (t : aggregator_solver.Transmitter) : Prop :=
  wf_uint128 (aggregator_solver.base_id t)
  /\ wf_uint128 (aggregator_solver.mask t).

Definition wire_txer (t : aggregator_solver.Transmitter) : list byte :=
  wire_uint128 (aggregator_solver.base_id t)
  ++ wire_uint128 (aggregator_solver.mask t).

Definition wf_rule (rule : aggregator_solver.Rule) : Prop :=
  0 <= aggregator_solver.physical_layer rule < 2 ^ 8
  /\ Forall wf_txer (aggregator_solver.txers rule)
  /\ 0 <= aggregator_solver.update_interval rule < 2 ^ 64.

Definition wire_rule (rule : aggregator_solver.Rule) : list byte :=
  be_bytes 1 (aggregator_solver.physical_layer rule)
  ++ be_bytes 4 (Z.of_nat (length (aggregator_solver.txers rule)))
  ++ concat (map wire_txer (aggregator_solver.txers rule))
  ++ be_bytes 8 (aggregator_solver.update_interval rule).

Definition wire_subscription (rules : aggregator_solver.Subscription)
  : list byte :=
  be_bytes 4 (Z.of_nat (length rules)) ++ concat (map wire_rule rules).

(** ** The byte stream behind the receiver *)

(** The bytes the socket will deliver, in order. *)
Definition stream_of (answers : list MessageReceiver.recv_result)
  : list byte :=
  concat (map (fun a => match a with
                        | MessageReceiver.RecvBytes bs => bs
                        | _ => []
                        end) answers).

(** A socket that stays open: every read either would block or delivers
    some bytes, not more than [raw_messages] holds. *)
Definition delivers (answers : list MessageReceiver.recv_result) : Prop :=
  Forall (fun a => match a with
                   | MessageReceiver.RecvBytes bs =>
                       (0 < length bs <= MessageReceiver.raw_messages_size)%nat
                   | MessageReceiver.RecvWouldBlock => True
                   | MessageReceiver.RecvError => False
                   end) answers.

(** A piece as the receiver cuts it: four bytes that declare the size of
    the rest, the whole below 4 GiB. *)
Definition whole_piece (fr : Buffer) : Prop :=
  Z.of_nat (length fr) = be_val (take 4 fr) + 4
  /\ Z.of_nat (length fr) < 2 ^ 32.

(** The frames the encoders of the three protocols build, with the kind
    each is given. *)
Inductive encoded : Z -> Buffer -> Prop :=
| enc_snapshot rq t :
    encoded world_model.client.snapshot_request
            (world_model.client.makeSnapshotRequest rq t)
| enc_range rq t :
    encoded world_model.client.range_request
            (world_model.client.makeRangeRequest rq t)
| enc_stream rq t :
    encoded world_model.client.stream_request
            (world_model.client.makeStreamRequest rq t)
| enc_attr_alias l :
    encoded world_model.client.attribute_alias
            (world_model.client.makeAttrAliasMsg l)
| enc_origin_alias l :
    encoded world_model.client.origin_alias
            (world_model.client.makeOriginAliasMsg l)
| enc_request_complete t :
    encoded world_model.client.request_complete
            (world_model.client.makeRequestComplete t)
| enc_cancel_request t :
    encoded world_model.client.cancel_request
            (world_model.client.makeCancelRequest t)
| enc_data wd t :
    encoded world_model.client.data_response
            (world_model.client.makeDataMessage wd t)
| enc_uri_search uri :
    encoded world_model.client.uri_search
            (world_model.client.makeURISearch uri)
| enc_uri_response uris :
    encoded world_model.client.uri_response
            (world_model.client.makeURISearchResponse uris)
| enc_type_announce l origin :
    encoded world_model.solver.type_announce
            (world_model.solver.makeTypeAnnounceMsg l origin)
| enc_start_on_demand l :
    encoded world_model.solver.start_on_demand
            (world_model.solver.makeStartOnDemand l)
| enc_stop_on_demand l :
    encoded world_model.solver.stop_on_demand
            (world_model.solver.makeStopOnDemand l)
| enc_solution c l :
    encoded world_model.solver.solver_data
            (world_model.solver.makeSolutionMsg c l)
| enc_create_uri uri t origin :
    encoded world_model.solver.create_uri
            (world_model.solver.makeCreateURI uri t origin)
| enc_expire_uri uri t origin :
    encoded world_model.solver.expire_uri
            (world_model.solver.makeExpireURI uri t origin)
| enc_delete_uri uri origin :
    encoded world_model.solver.delete_uri
            (world_model.solver.makeDeleteURI uri origin)
| enc_expire_attribute uri a origin t :
    encoded world_model.solver.expire_attribute
            (world_model.solver.makeExpireAttribute uri a origin t)
| enc_delete_attribute uri a origin :
    encoded world_model.solver.delete_attribute
            (world_model.solver.makeDeleteAttribute uri a origin)
| enc_subscribe rules :
    encoded aggregator_solver.subscription_request
            (aggregator_solver.makeSubscribeReqMsg rules)
| enc_sample sample :
    encoded aggregator_solver.server_sample
            (aggregator_solver.makeSampleMsg sample).

(** * Properties *)

(** ** Bytes and big-endian images *)

Lemma byte_to_Z_range (b : byte) : 0 <= byte_to_Z b < 256.
Proof.
  unfold byte_to_Z. pose proof (Byte.to_N_bounded b). lia.
Qed.

Lemma byte_of_to_Z (b : byte) : byte_of_Z (byte_to_Z b) = b.
Proof.
  unfold byte_of_Z. pose proof (byte_to_Z_range b) as Hr.
  rewrite Z.mod_small by lia. unfold byte_to_Z.
  rewrite N2Z.id, Byte.of_to_N. reflexivity.
Qed.

Lemma byte_to_of_Z (z : Z) : byte_to_Z (byte_of_Z z) = z mod 256.
Proof.
  unfold byte_of_Z, byte_to_Z.
  pose proof (Z.mod_pos_bound z 256 ltac:(lia)) as Hr.
  destruct (Byte.of_N (Z.to_N (z mod 256))) as [b|] eqn:E.
  - apply Byte.to_of_N in E. simpl. rewrite E. lia.
  - apply Byte.of_N_None_iff in E. lia.
Qed.

Lemma be_val_snoc (bs : list byte) (b : byte) :
  be_val (bs ++ [b]) = be_val bs * 256 + byte_to_Z b.
Proof.
  unfold be_val. rewrite fold_left_app. reflexivity.
Qed.

Lemma be_val_range (bs : list byte) : 0 <= be_val bs < 256 ^ Z.of_nat (length bs).
Proof.
  induction bs as [|b bs IH] using rev_ind.
  - cbn. lia.
  - rewrite be_val_snoc, length_app. cbn [length].
    replace (Z.of_nat (length bs + 1)) with (Z.of_nat (length bs) + 1) by lia.
    rewrite Z.pow_add_r by lia.
    pose proof (byte_to_Z_range b). lia.
Qed.

Lemma length_be_bytes (n : nat) (v : Z) : length (be_bytes n v) = n.
Proof.
  revert v. induction n as [|n IH]; intros v; cbn [be_bytes].
  - reflexivity.
  - rewrite length_app, IH. cbn. lia.
Qed.

Lemma be_val_be_bytes (n : nat) (v : Z) :
  be_val (be_bytes n v) = v mod 256 ^ Z.of_nat n.
Proof.
  revert v. induction n as [|n IH]; intros v.
  - cbn. rewrite Z.mod_1_r. reflexivity.
  - cbn [be_bytes]. rewrite be_val_snoc, IH, byte_to_of_Z.
    replace (Z.of_nat (S n)) with (1 + Z.of_nat n) by lia.
    rewrite Z.pow_add_r by lia.
    rewrite (Z.rem_mul_r v (256 ^ 1) (256 ^ Z.of_nat n)) by lia.
    change (256 ^ 1) with 256. lia.
Qed.

Lemma be_val_single (b : byte) : be_val [b] = byte_to_Z b.
Proof. reflexivity. Qed.

Lemma u32_range (x : Z) : 0 <= u32 x < 2 ^ 32.
Proof. unfold u32. apply Z.mod_pos_bound. lia. Qed.

Lemma u32_small (x : Z) : 0 <= x < 2 ^ 32 -> u32 x = x.
Proof. unfold u32. intros. apply Z.mod_small. lia. Qed.

Lemma u32_add_l (a b : Z) : u32 (u32 a + b) = u32 (a + b).
Proof. unfold u32. apply Z.add_mod_idemp_l. lia. Qed.

Lemma byte_of_Z_mod (z : Z) : byte_of_Z (z mod 256) = byte_of_Z z.
Proof. unfold byte_of_Z. rewrite Z.mod_mod by lia. reflexivity. Qed.

Lemma be_bytes_mod (n : nat) (v : Z) :
  be_bytes n (v mod 256 ^ Z.of_nat n) = be_bytes n v.
Proof.
  revert v. induction n as [|n IH]; intros v; [reflexivity|].
  cbn [be_bytes].
  replace (Z.of_nat (S n)) with (1 + Z.of_nat n) by lia.
  rewrite Z.pow_add_r by lia. change (256 ^ 1) with 256.
  assert (Hp : 0 < 256 ^ Z.of_nat n) by (apply Z.pow_pos_nonneg; lia).
  rewrite Z.rem_mul_r by lia.
  pose proof (Z.mod_pos_bound v 256 ltac:(lia)) as Hr.
  set (q := (v / 256) mod 256 ^ Z.of_nat n).
  set (r := v mod 256) in *.
  replace ((r + 256 * q) / 256) with q
    by (apply Z.div_unique with r; lia).
  rewrite <- (byte_of_Z_mod (r + 256 * q)).
  replace ((r + 256 * q) mod 256) with r
    by (apply Z.mod_unique with q; lia).
  subst q r. rewrite IH, byte_of_Z_mod. reflexivity.
Qed.

Lemma be_bytes_u32 (v : Z) : be_bytes 4 (u32 v) = be_bytes 4 v.
Proof. apply (be_bytes_mod 4). Qed.

(** ** The reader: [readPrimitive] *)

Lemma readPrimitive_ok (n : nat) (r : BuffReader) :
  (cur_index r + n <= length (buff r))%nat ->
  readPrimitive n r =
  (be_val (take n (drop (cur_index r) (buff r))),
   mkBuffReader (buff r) (cur_index r + n) (out_of_range r)).
Proof.
  intros H. unfold readPrimitive.
  destruct (Nat.leb_spec (cur_index r + n) (length (buff r))); [reflexivity|lia].
Qed.

Lemma readPrimitive_fail (n : nat) (r : BuffReader) :
  (length (buff r) < cur_index r + n)%nat ->
  readPrimitive n r = (0, mkBuffReader (buff r) (cur_index r) true).
Proof.
  intros H. unfold readPrimitive.
  destruct (Nat.leb_spec (cur_index r + n) (length (buff r))); [lia|reflexivity].
Qed.

(** C5, as the code has it: a read for which the bytes are missing returns
    zero and latches the flag, but leaves the cursor where it was; a later
    read that also asks for more than is left does the same, while a later
    read of a narrower type that still fits succeeds and moves the cursor. *)
Theorem readPrimitive_exhausted (sizeofT : nat) (r : BuffReader) :
  (length (buff r) < cur_index r + sizeofT)%nat ->
  let r' := snd (readPrimitive sizeofT r) in
  fst (readPrimitive sizeofT r) = 0
  /\ out_of_range r' = true
  /\ cur_index r' = cur_index r
  /\ buff r' = buff r
  /\ (forall m, (length (buff r) < cur_index r + m)%nat ->
        readPrimitive m r' = (0, r'))
  /\ (forall m, (cur_index r + m <= length (buff r))%nat ->
        readPrimitive m r' =
        (be_val (take m (drop (cur_index r) (buff r))),
         mkBuffReader (buff r) (cur_index r + m) true)).
Proof.
  intros H r'. subst r'. rewrite (readPrimitive_fail _ _ H). cbn [fst snd].
  repeat split.
  - intros m Hm.
    exact (readPrimitive_fail m (mkBuffReader (buff r) (cur_index r) true) Hm).
  - intros m Hm.
    exact (readPrimitive_ok m (mkBuffReader (buff r) (cur_index r) true) Hm).
Qed.

Lemma readPrimitive_exhausted_witness :
  (length (buff (BuffReader_new [x01; x02])) <
   cur_index (BuffReader_new [x01; x02]) + 4)%nat
  /\ fst (readPrimitive 4 (BuffReader_new [x01; x02])) = 0.
Proof.
  split.
  - cbn. lia.
  - apply (readPrimitive_exhausted 4 (BuffReader_new [x01; x02])). cbn. lia.
Defined.

(** C5 as stated fails: with one byte left a [uint32_t] read fails, the
    cursor is still at 0 and not at the end, and the [uint8_t] read that
    follows returns the byte and not zero. *)
Lemma readPrimitive_not_pinned :
  let r0 := BuffReader_new [x01] in
  let r1 := snd (readPrimitive 4 r0) in
  (length (buff r0) - cur_index r0 < 4)%nat
  /\ cur_index r1 <> length (buff r1)
  /\ fst (readPrimitive 1 r1) = 1
  /\ fst (readPrimitive 1 r1) <> 0.
Proof. cbn. repeat split; [lia | discriminate | discriminate]. Qed.

(** ** The reader: sized UTF-16 strings *)

Lemma readUTF16_flag (k : nat) (r : BuffReader) :
  (cur_index r <= length (buff r))%nat ->
  out_of_range (snd (readUTF16 k r)) =
  out_of_range r || (length (buff r) <? cur_index r + 2 * k)%nat.
Proof.
  revert r. induction k as [|k IH]; intros r Hc.
  - cbn [readUTF16 snd]. destruct (Nat.ltb_spec (length (buff r)) (cur_index r + 2 * 0)).
    + lia.
    + rewrite orb_false_r. reflexivity.
  - cbn [readUTF16].
    destruct (Nat.le_gt_cases (cur_index r + 2) (length (buff r))) as [Hok|Hno].
    + rewrite (readPrimitive_ok 2 r Hok).
      specialize (IH (mkBuffReader (buff r) (cur_index r + 2) (out_of_range r)) Hok).
      destruct (readUTF16 k _) as [str r2]. cbn [snd] in *. rewrite IH. cbn [buff cur_index out_of_range].
      f_equal. destruct (Nat.ltb_spec (length (buff r)) (cur_index r + 2 + 2 * k)),
        (Nat.ltb_spec (length (buff r)) (cur_index r + 2 * S k)); try reflexivity; lia.
    + rewrite (readPrimitive_fail 2 r Hno).
      specialize (IH (mkBuffReader (buff r) (cur_index r) true) Hc).
      destruct (readUTF16 k _) as [str r2]. cbn [snd] in *. rewrite IH. cbn [buff cur_index out_of_range].
      destruct (Nat.ltb_spec (length (buff r)) (cur_index r + 2 * S k)); [|lia].
      rewrite orb_true_r. reflexivity.
Qed.

(** C6, as the code has it: once the four bytes of the length [L] have been
    read, [L / 2] code units are read, so the call latches the flag exactly
    when fewer than [2 * (L / 2)] bytes follow the prefix.  For an even [L]
    that is exactly when the buffer does not hold [L] further bytes; the
    parity of [L] is never looked at. *)
Theorem readSizedUTF16_latches (r : BuffReader) :
  out_of_range r = false ->
  (cur_index r + 4 <= length (buff r))%nat ->
  let L := be_val (take 4 (drop (cur_index r) (buff r))) in
  let left := Z.of_nat (length (buff r) - (cur_index r + 4)) in
  (out_of_range (snd (readSizedUTF16 r)) = true <-> left < 2 * (L / 2))
  /\ (Z.even L = true ->
      (out_of_range (snd (readSizedUTF16 r)) = true <-> left < L)).
Proof.
  intros Hflag Hfit L left.
  assert (HL : 0 <= L) by apply be_val_range.
  assert (Hlatch : out_of_range (snd (readSizedUTF16 r)) = true
                   <-> left < 2 * (L / 2)).
  { unfold readSizedUTF16. rewrite (readPrimitive_ok 4 r Hfit).
    rewrite readUTF16_flag by exact Hfit.
    cbn [buff cur_index out_of_range]. rewrite Hflag, orb_false_l.
    fold L. subst left.
    assert (0 <= L / 2) by (apply Z.div_pos; lia).
    destruct (Nat.ltb_spec (length (buff r))
                (cur_index r + 4 + 2 * Z.to_nat (L / 2))); split; intros; try discriminate; try reflexivity; lia. }
  split; [exact Hlatch|].
  intros Heven. rewrite Hlatch.
  apply Zeven_bool_iff in Heven. apply Zeven_div2 in Heven.
  rewrite Z.div2_div in Heven. rewrite <- Heven. reflexivity.
Qed.

Lemma readSizedUTF16_latches_witness :
  out_of_range (BuffReader_new [x00; x00; x00; x04; x00; x41]) = false
  /\ (cur_index (BuffReader_new [x00; x00; x00; x04; x00; x41]) + 4
      <= length (buff (BuffReader_new [x00; x00; x00; x04; x00; x41])))%nat
  /\ out_of_range
       (snd (readSizedUTF16 (BuffReader_new [x00; x00; x00; x04; x00; x41])))
     = true.
Proof.
  split; [reflexivity|]. split; [cbn; lia|].
  refine (proj2 (proj1 (readSizedUTF16_latches
                          (BuffReader_new [x00; x00; x00; x04; x00; x41])
                          eq_refl _)) _).
  - cbn; lia.
  - vm_compute. reflexivity.
Defined.

(** C6 as stated fails for odd lengths: with the prefix 1 and one byte
    after it, and with the prefix 3 and only two bytes after it, the call
    returns with the flag clear. *)
Lemma readSizedUTF16_odd_not_latched :
  let r1 := BuffReader_new [x00; x00; x00; x01; x41] in
  let r3 := BuffReader_new [x00; x00; x00; x03; x00; x41] in
  (fst (readPrimitive 4 r1) = 1
   /\ out_of_range (snd (readSizedUTF16 r1)) = false)
  /\ (fst (readPrimitive 4 r3) = 3
      /\ (length (buff r3) - (cur_index r3 + 4) < 3)%nat
      /\ out_of_range (snd (readSizedUTF16 r3)) = false).
Proof. vm_compute. repeat split; lia. Qed.

(** ** Frame headers *)

Lemma take1_drop_lookup (b : Buffer) (i : nat) (c : byte) :
  b !! i = Some c -> take 1 (drop i b) = [c].
Proof.
  intros H. rewrite (drop_S _ _ _ H). reflexivity.
Qed.

(** What the two header reads of every world-model decoder return on a
    buffer of five bytes or more. *)
Lemma header_reads (b : Buffer) (c : byte) :
  b !! 4%nat = Some c ->
  readPrimitive 4 (BuffReader_new b) = (be_val (take 4 b), mkBuffReader b 4 false)
  /\ readPrimitive 1 (mkBuffReader b 4 false) = (byte_to_Z c, mkBuffReader b 5 false).
Proof.
  intros H. pose proof (lookup_lt_Some _ _ _ H) as Hlen. split.
  - rewrite readPrimitive_ok by (cbn; lia). reflexivity.
  - rewrite readPrimitive_ok by (cbn; lia). cbn [buff cur_index out_of_range].
    rewrite (take1_drop_lookup _ _ _ H). reflexivity.
Qed.

(** A frame passes the header test of the decoder for its kind. *)
Lemma is_frame_reads (id : Z) (b : Buffer) :
  0 <= id < 256 -> is_frame id b ->
  readPrimitive 4 (BuffReader_new b) = (be_val (take 4 b), mkBuffReader b 4 false)
  /\ readPrimitive 1 (mkBuffReader b 4 false) = (id, mkBuffReader b 5 false)
  /\ world_model.length_matches b (be_val (take 4 b)) = true.
Proof.
  intros Hid (Hlen & Hsmall & Hb).
  destruct (header_reads b _ Hb) as [H1 H2].
  rewrite byte_to_of_Z, Z.mod_small in H2 by lia.
  repeat split; try assumption.
  unfold world_model.length_matches.
  pose proof (be_val_range (take 4 b)).
  rewrite u32_small by lia. apply Z.eqb_eq. lia.
Qed.

(** Conversely the header test only passes on a frame of the kind: a
    buffer whose declared length is not its size minus four, or whose byte
    at offset 4 is another kind, fails it. *)
Lemma header_test_frame (id : Z) (b : Buffer) tl r1 mt r2 :
  0 < id < 256 ->
  readPrimitive 4 (BuffReader_new b) = (tl, r1) ->
  readPrimitive 1 r1 = (mt, r2) ->
  world_model.length_matches b tl && (mt =? id) = true ->
  is_frame id b /\ tl = be_val (take 4 b) /\ r2 = mkBuffReader b 5 false.
Proof.
  intros Hid E1 E2 Hc. apply andb_true_iff in Hc as [Hl Hm].
  apply Z.eqb_eq in Hm. unfold world_model.length_matches in Hl.
  apply Z.eqb_eq in Hl. pose proof (u32_range (tl + 4)) as Hu.
  destruct (b !! 4%nat) as [c|] eqn:Hb.
  - destruct (header_reads b c Hb) as [H1 H2].
    rewrite H1 in E1. injection E1 as <- <-.
    rewrite H2 in E2. injection E2 as <- <-.
    pose proof (lookup_lt_Some _ _ _ Hb) as Hlen5.
    pose proof (be_val_range (take 4 b)) as Hr.
    rewrite length_take in Hr.
    replace (4 `min` length b)%nat with 4%nat in Hr by lia.
    change (256 ^ Z.of_nat 4) with (2 ^ 32) in Hr.
    assert (Hsum : be_val (take 4 b) + 4 < 2 ^ 32).
    { destruct (Z_lt_le_dec (be_val (take 4 b) + 4) (2 ^ 32)) as [|Hge]; [assumption|].
      unfold u32 in Hl.
      rewrite <- (Z.mod_unique (be_val (take 4 b) + 4) (2 ^ 32) 1
                               (be_val (take 4 b) + 4 - 2 ^ 32)) in Hl by lia.
      lia. }
    rewrite u32_small in Hl by lia.
    repeat split; try lia.
    rewrite <- Hm, byte_of_to_Z. exact Hb.
  - exfalso. apply lookup_ge_None in Hb.
    destruct (Nat.le_gt_cases 4 (length b)) as [H4|H4].
    + rewrite readPrimitive_ok in E1 by (cbn; lia). injection E1 as <- <-.
      rewrite readPrimitive_fail in E2 by (cbn; lia). injection E2 as <- <-. lia.
    + rewrite readPrimitive_fail in E1 by (cbn; lia). injection E1 as <- <-.
      change (u32 (0 + 4)) with 4 in Hl. lia.
Qed.

(** ** The snapshot request of the scenario (C9) *)

(** C9, as the code has it: the frame for ticket 7 and the ["lamp.*"]
    request is 73 bytes long, 4 + 1 + 4 + (4+12) + 4 + (4+16) + (4+4) + 8 + 8,
    it declares 69 bytes after the length field, and its byte at offset 4 is
    [0x01]. *)
Theorem makeSnapshotRequest_lamp_frame :
  let frame := world_model.client.makeSnapshotRequest lamp_request 7 in
  length frame = 73%nat
  /\ be_val (take 4 frame) = 69
  /\ frame !! 4%nat = Some x01.
Proof. vm_compute. repeat split. Qed.

(** C9 as stated fails: the frame is not 79 bytes long. *)
Lemma makeSnapshotRequest_lamp_not_79 :
  length (world_model.client.makeSnapshotRequest lamp_request 7) <> 79%nat.
Proof. vm_compute. discriminate. Qed.

(** ** Kinds patched in place (C10) *)

(** C10: on a buffer of five bytes or more whose byte at offset 4 is
    [range_request], [decodeRangeRequest] leaves the caller's buffer with
    that byte replaced by [snapshot_request] and every other byte as it was,
    and what it returns is what [decodeSnapshotRequest] makes of the patched
    buffer; [decodeStopOnDemand] does the same to a [stop_on_demand] frame,
    which it leaves as a [start_on_demand] frame. *)
Theorem decode_patches_kind_in_place (uninit_empty uninit : Z * Z)
        (b b' : Buffer) :
  (5 <= length b)%nat ->
  b !! 4%nat = Some (byte_of_Z world_model.client.range_request) ->
  is_frame world_model.solver.stop_on_demand b' ->
  let after :=
    snd (world_model.client.decodeRangeRequest uninit_empty uninit b) in
  let after' := snd (world_model.solver.decodeStopOnDemand b') in
  (after = <[4%nat := byte_of_Z world_model.client.snapshot_request]> b
   /\ after !! 4%nat = Some x01
   /\ (forall i, i <> 4%nat -> after !! i = b !! i)
   /\ length after = length b
   /\ fst (world_model.client.decodeRangeRequest uninit_empty uninit b)
      = world_model.client.decodeSnapshotRequest uninit after)
  /\ (after' = <[4%nat := byte_of_Z world_model.solver.start_on_demand]> b'
      /\ after' !! 4%nat = Some x02
      /\ (forall i, i <> 4%nat -> after' !! i = b' !! i)
      /\ length after' = length b'
      /\ fst (world_model.solver.decodeStopOnDemand b')
         = world_model.solver.decodeStartOnDemand after').
Proof.
  intros Hlen Hkind Hframe after after'. split.
  - assert (E : world_model.client.decodeRangeRequest uninit_empty uninit b
                = (world_model.client.decodeSnapshotRequest uninit
                     (<[4%nat := byte_of_Z world_model.client.snapshot_request]> b),
                   <[4%nat := byte_of_Z world_model.client.snapshot_request]> b)).
    { unfold world_model.client.decodeRangeRequest.
      rewrite bool_decide_eq_true_2 by exact Hlen. rewrite Hkind. cbn [from_option].
      rewrite byte_to_of_Z. reflexivity. }
    subst after. rewrite E. cbn [fst snd]. repeat split.
    + apply list_lookup_insert_eq. lia.
    + intros i Hi. apply list_lookup_insert_ne. congruence.
    + apply length_insert.
  - assert (E : world_model.solver.decodeStopOnDemand b'
                = (world_model.solver.decodeStartOnDemand
                     (<[4%nat := byte_of_Z world_model.solver.start_on_demand]> b'),
                   <[4%nat := byte_of_Z world_model.solver.start_on_demand]> b')).
    { unfold world_model.solver.decodeStopOnDemand.
      destruct (is_frame_reads world_model.solver.stop_on_demand b')
        as (E1 & E2 & E3); [unfold world_model.solver.stop_on_demand; lia
                           |exact Hframe|].
      rewrite E1, E2, E3. reflexivity. }
    destruct Hframe as (Hl & _ & Hb). pose proof (lookup_lt_Some _ _ _ Hb).
    subst after'. rewrite E. cbn [fst snd]. repeat split.
    + apply list_lookup_insert_eq. lia.
    + intros i Hi. apply list_lookup_insert_ne. congruence.
    + apply length_insert.
Qed.

Lemma decode_patches_kind_in_place_witness :
  let b := [x00; x00; x00; x01; x02] in
  let b' := [x00; x00; x00; x01; x03] in
  ((5 <= length b)%nat
   /\ b !! 4%nat = Some (byte_of_Z world_model.client.range_request)
   /\ is_frame world_model.solver.stop_on_demand b')
  /\ snd (world_model.client.decodeRangeRequest (0, 0) (0, 0) b)
     = [x00; x00; x00; x01; x01]
  /\ snd (world_model.solver.decodeStopOnDemand b')
     = [x00; x00; x00; x01; x02].
Proof.
  intros b b'.
  assert (H1 : (5 <= length b)%nat) by (cbn; lia).
  assert (H2 : b !! 4%nat = Some (byte_of_Z world_model.client.range_request))
    by reflexivity.
  assert (H3 : is_frame world_model.solver.stop_on_demand b')
    by (repeat split; vm_compute; reflexivity).
  split; [auto|].
  destruct (decode_patches_kind_in_place (0, 0) (0, 0) b b' H1 H2 H3)
    as [[E _] [E' _]].
  split; [rewrite E | rewrite E']; reflexivity.
Defined.

(** ** The availability probe under interruption (C8) *)

(** C8, as the code has it: with [interrupted] set on entry
    [messageAvailable] makes no call on the socket and leaves the pending
    bytes alone, and it answers whether they already hold a whole frame:
    true exactly when there are four bytes or more and at least as many as
    the 32-bit sum of the declared length and four. *)
Theorem messageAvailable_interrupted (st : MessageReceiver.state) :
  let pending := MessageReceiver.previous_unfinished st in
  MessageReceiver.messageAvailable true st
  = MessageReceiver.Returned
      (bool_decide ((4 <= length pending)%nat
                    /\ u32 (be_val (take 4 pending) + 4)
                       <= Z.of_nat (length pending)),
       st).
Proof.
  intros pending. unfold MessageReceiver.messageAvailable.
  cbn [MessageReceiver.needs_more negb andb]. fold pending. do 2 f_equal.
  unfold MessageReceiver.piece_length_of, readPrimitiveAt. rewrite drop_0.
  destruct (Nat.ltb_spec (0 + (4 - 1)) (length pending)) as [H|H].
  - destruct (Z.leb_spec (u32 (be_val (take 4 pending) + 4))
                         (Z.of_nat (length pending))).
    + rewrite bool_decide_eq_true_2; [reflexivity | lia].
    + rewrite bool_decide_eq_false_2; [reflexivity | lia].
  - rewrite bool_decide_eq_false_2 by lia.
    change (u32 (0 + 4)) with 4. apply Z.leb_gt. lia.
Qed.

(** C8 as stated fails: with a whole frame pending and [interrupted] set,
    the probe answers true. *)
Lemma messageAvailable_interrupted_true :
  let st := MessageReceiver.mkState
              [x00; x00; x00; x01; x00]
              (MessageReceiver.mkSocket [] [] 0) in
  MessageReceiver.messageAvailable true st = MessageReceiver.Returned (true, st)
  /\ MessageReceiver.messageAvailable true st
     <> MessageReceiver.Returned (false, st).
Proof. vm_compute. split; [reflexivity | discriminate]. Qed.

(** ** The URI search response (C3) *)

(** C3: the frame made for the one URI ["a"] starts its payload with the
    length prefix of the string, which the decoder takes for a count of two
    URIs; the reads run out of the buffer and the decoder returns no URI at
    all. *)
Theorem uri_response_round_trip_fails :
  world_model.client.makeURISearchResponse [u16 "a"]
  = [x00; x00; x00; x07; x0a; x00; x00; x00; x02; x00; x61]
  /\ world_model.client.decodeURISearchResponse
       (world_model.client.makeURISearchResponse [u16 "a"]) = []
  /\ world_model.client.decodeURISearchResponse
       (world_model.client.makeURISearchResponse [u16 "a"]) <> [u16 "a"].
Proof. vm_compute. repeat split. discriminate. Qed.

(** ** The framer (C7) *)

Lemma piece_length_of_ge4 (pending : Buffer) :
  (4 <= length pending)%nat ->
  MessageReceiver.piece_length_of pending = u32 (be_val (take 4 pending) + 4).
Proof.
  intros H. unfold MessageReceiver.piece_length_of, readPrimitiveAt.
  rewrite drop_0.
  destruct (Nat.ltb_spec (0 + (4 - 1)) (length pending)); [reflexivity|lia].
Qed.

Lemma piece_length_of_lt4 (pending : Buffer) :
  (length pending < 4)%nat -> MessageReceiver.piece_length_of pending = 4.
Proof.
  intros H. unfold MessageReceiver.piece_length_of, readPrimitiveAt.
  destruct (Nat.ltb_spec (0 + (4 - 1)) (length pending)); [lia|reflexivity].
Qed.

Lemma length_received (bs : list byte) :
  Z.of_nat (length (take MessageReceiver.raw_messages_size bs)) <= 10000.
Proof.
  rewrite length_take. unfold MessageReceiver.raw_messages_size.
  assert (Z.of_nat (Z.to_nat 10000) = 10000) by (apply Z2Nat.id; lia).
  lia.
Qed.

Lemma pending_bounded_app (interrupted : bool) (pending received : Buffer) :
  MessageReceiver.needs_more interrupted pending (MessageReceiver.known_piece_length pending) = true ->
  Z.of_nat (length received) <= 10000 ->
  pending_bounded (pending ++ received).
Proof.
  unfold MessageReceiver.needs_more, pending_bounded,
    MessageReceiver.known_piece_length. intros Hn Hr.
  apply andb_true_iff in Hn as [_ Hn]. rewrite length_app.
  destruct (Nat.leb_spec 4 (length pending)) as [H4|H4].
  - apply orb_true_iff in Hn as [Hn|Hn].
    + apply Nat.ltb_lt in Hn. lia.
    + apply Z.ltb_lt in Hn.
      rewrite (piece_length_of_ge4 (pending ++ received))
        by (rewrite length_app; lia).
      rewrite take_app_le by lia.
      rewrite <- (piece_length_of_ge4 pending) by lia. lia.
  - lia.
Qed.

Lemma receive_loop_bounded (interrupted : bool) (answers : list MessageReceiver.recv_result) :
  forall pending calls pending' answers' calls',
    MessageReceiver.receive_loop interrupted answers pending
                                 (MessageReceiver.known_piece_length pending) calls
    = MessageReceiver.Returned (pending', answers', calls') ->
    pending_bounded pending ->
    pending_bounded pending'
    /\ MessageReceiver.needs_more interrupted pending' (MessageReceiver.known_piece_length pending')
       = false.
Proof.
  induction answers as [|a answers IH]; intros pending calls p' a' c' E Hb.
  - cbn [MessageReceiver.receive_loop] in E.
    destruct (MessageReceiver.needs_more _ _ _) eqn:Hn; [discriminate|].
    injection E as <- <- <-. auto.
  - cbn [MessageReceiver.receive_loop] in E.
    destruct (MessageReceiver.needs_more interrupted pending _) eqn:Hn.
    + destruct a as [bs| |].
      * destruct (length (take MessageReceiver.raw_messages_size bs) =? 0)%nat;
          [discriminate|].
        set (p2 := pending ++ take MessageReceiver.raw_messages_size bs) in *.
        assert (Ht : (if (4 <=? length p2)%nat
                      then MessageReceiver.piece_length_of p2
                      else MessageReceiver.known_piece_length pending)
                     = MessageReceiver.known_piece_length p2).
        { unfold MessageReceiver.known_piece_length.
          destruct (Nat.leb_spec 4 (length p2)) as [|Hlt]; [reflexivity|].
          subst p2. rewrite length_app in Hlt.
          destruct (Nat.leb_spec 4 (length pending)); [lia|reflexivity]. }
        rewrite Ht in E. apply IH in E; [exact E|].
        subst p2. eapply pending_bounded_app; [exact Hn|apply length_received].
      * apply IH in E; assumption.
      * discriminate.
    + injection E as <- <- <-. auto.
Qed.

Lemma pending_bounded_drop (pending : Buffer) :
  pending_bounded pending ->
  MessageReceiver.needs_more false pending (MessageReceiver.known_piece_length pending) = false ->
  pending_bounded
    (drop (Z.to_nat (MessageReceiver.piece_length_of pending)) pending).
Proof.
  unfold MessageReceiver.needs_more, pending_bounded,
    MessageReceiver.known_piece_length. cbn [negb andb].
  intros Hb Hn. apply orb_false_iff in Hn as [H4 Hp].
  apply Nat.ltb_ge in H4.
  destruct (Nat.leb_spec 4 (length pending)); [|lia].
  apply Z.ltb_ge in Hp. rewrite length_drop.
  pose proof (u32_range (readPrimitiveAt 4 pending 0 + 4)) as Hu.
  fold (MessageReceiver.piece_length_of pending) in Hu.
  set (pl := MessageReceiver.piece_length_of pending) in *.
  set (rest := drop (Z.to_nat pl) pending).
  assert (0 <= MessageReceiver.piece_length_of rest)
    by apply u32_range.
  lia.
Qed.

Lemma pending_bounded_nil : pending_bounded [].
Proof. unfold pending_bounded. cbn. lia. Qed.

(** Every state the receiver reaches keeps the bound. *)
Lemma reachable_bounded (st : MessageReceiver.state) :
  MessageReceiver.reachable st ->
  pending_bounded (MessageReceiver.previous_unfinished st).
Proof.
  induction 1 as [s | st s _ IH | st i ready st' _ IH E | st i packet st' _ IH E].
  - apply pending_bounded_nil.
  - exact IH.
  - unfold MessageReceiver.messageAvailable in E.
    destruct (MessageReceiver.needs_more i _ _) eqn:Hn.
    + destruct (MessageReceiver.inputReady _) as [[| |] s].
      * destruct (MessageReceiver.reads s) as [|[bs| |] rest].
        -- injection E as _ <-. exact IH.
        -- destruct (length (take MessageReceiver.raw_messages_size bs) =? 0)%nat;
             [discriminate|].
           injection E as _ <-. cbn [MessageReceiver.previous_unfinished].
           eapply pending_bounded_app; [exact Hn|apply length_received].
        -- injection E as _ <-. exact IH.
        -- discriminate.
      * injection E as _ <-. exact IH.
      * discriminate.
    + injection E as _ <-. exact IH.
  - unfold MessageReceiver.getNextMessage in E.
    destruct (MessageReceiver.receive_loop _ _ _ _ _) as [[[p' a'] c']| |] eqn:El;
      try discriminate.
    apply receive_loop_bounded in El as [Hb Hn]; [|exact IH].
    destruct i.
    + injection E as _ <-. exact Hb.
    + destruct (MessageReceiver.piece_length_of p' <? Z.of_nat (length p')).
      * injection E as _ <-. cbn [MessageReceiver.previous_unfinished].
        apply pending_bounded_drop; assumption.
      * injection E as _ <-. apply pending_bounded_nil.
Qed.

(** C7: in every state the receiver can reach, if the pending bytes hold a
    whole frame (four bytes or more, and at least four plus the length those
    four declare) and [interrupted] is false, [getNextMessage] returns
    without touching the socket, the message is exactly the first declared
    length plus four bytes, and exactly the bytes after them stay pending:
    the message is whole and nothing is dropped. *)
Theorem getNextMessage_whole_frame (st : MessageReceiver.state) :
  MessageReceiver.reachable st ->
  let pending := MessageReceiver.previous_unfinished st in
  let N := be_val (take 4 pending) in
  (4 <= length pending)%nat ->
  4 + N <= Z.of_nat (length pending) ->
  let frame := take (Z.to_nat (N + 4)) pending in
  let rest := drop (Z.to_nat (N + 4)) pending in
  MessageReceiver.getNextMessage false st
  = MessageReceiver.Returned
      (frame, MessageReceiver.mkState rest (MessageReceiver.sock st))
  /\ Z.of_nat (length frame) = N + 4
  /\ frame ++ rest = pending.
Proof.
  intros Hreach pending N H4 Hwhole frame rest.
  pose proof (reachable_bounded st Hreach) as Hb. fold pending in Hb.
  unfold pending_bounded in Hb.
  pose proof (be_val_range (take 4 pending)) as HN. fold N in HN.
  rewrite length_take in HN.
  replace (4 `min` length pending)%nat with 4%nat in HN by lia.
  change (256 ^ Z.of_nat 4) with (2 ^ 32) in HN.
  assert (Hpl : MessageReceiver.piece_length_of pending = N + 4).
  { rewrite piece_length_of_ge4 in * by exact H4. fold N in Hb |- *.
    destruct (Z_lt_le_dec (N + 4) (2 ^ 32)) as [|Hge].
    - apply u32_small. lia.
    - exfalso. unfold u32 in Hb.
      rewrite <- (Z.mod_unique (N + 4) (2 ^ 32) 1 (N + 4 - 2 ^ 32)) in Hb by lia.
      lia. }
  assert (Hn : MessageReceiver.needs_more false pending (MessageReceiver.known_piece_length pending)
               = false).
  { unfold MessageReceiver.needs_more, MessageReceiver.known_piece_length.
    cbn [negb andb].
    destruct (Nat.leb_spec 4 (length pending)); [|lia].
    rewrite Hpl. apply orb_false_iff. split.
    - apply Nat.ltb_ge. lia.
    - apply Z.ltb_ge. lia. }
  split; [|split].
  - unfold MessageReceiver.getNextMessage. fold pending.
    assert (El : MessageReceiver.receive_loop
                   false (MessageReceiver.reads (MessageReceiver.sock st))
                   pending (MessageReceiver.known_piece_length pending)
                   (MessageReceiver.io_calls (MessageReceiver.sock st))
                 = MessageReceiver.Returned
                     (pending, MessageReceiver.reads (MessageReceiver.sock st),
                      MessageReceiver.io_calls (MessageReceiver.sock st))).
    { destruct (MessageReceiver.reads (MessageReceiver.sock st));
        cbn [MessageReceiver.receive_loop]; rewrite Hn; reflexivity. }
    rewrite El, Hpl. fold frame rest.
    assert (Es : MessageReceiver.mkSocket
                   (MessageReceiver.polls (MessageReceiver.sock st))
                   (MessageReceiver.reads (MessageReceiver.sock st))
                   (MessageReceiver.io_calls (MessageReceiver.sock st))
                 = MessageReceiver.sock st)
      by (destruct (MessageReceiver.sock st); reflexivity).
    rewrite Es.
    destruct (Z.ltb_spec (N + 4) (Z.of_nat (length pending))); [reflexivity|].
    subst rest. rewrite drop_ge by lia. reflexivity.
  - subst frame. rewrite length_take. lia.
  - apply take_drop.
Qed.

(** Outside the precondition of the theorem above: a declared length of
    [2^32 - 4] or more makes the 32-bit [piece_length] wrap.  With the four bytes
    [ff ff ff ff] pending the piece is taken to be three bytes long, and
    they are returned without a receive. *)
Lemma getNextMessage_length_wraps :
  let st := MessageReceiver.mkState
              [xff; xff; xff; xff] (MessageReceiver.mkSocket [] [] 0) in
  MessageReceiver.piece_length_of [xff; xff; xff; xff] = 3
  /\ MessageReceiver.getNextMessage false st
     = MessageReceiver.Returned
         ([xff; xff; xff],
          MessageReceiver.mkState [xff] (MessageReceiver.sock st)).
Proof. vm_compute. split; reflexivity. Qed.

Lemma getNextMessage_whole_frame_witness :
  let st0 := MessageReceiver.mkState
               []
               (MessageReceiver.mkSocket
                  [MessageReceiver.Ready]
                  [MessageReceiver.RecvBytes
                     [x00; x00; x00; x01; x06; x00; x00]] 0) in
  let st := MessageReceiver.mkState
              [x00; x00; x00; x01; x06; x00; x00]
              (MessageReceiver.mkSocket [] [] 2) in
  MessageReceiver.reachable st
  /\ MessageReceiver.getNextMessage false st
     = MessageReceiver.Returned
         ([x00; x00; x00; x01; x06],
          MessageReceiver.mkState [x00; x00] (MessageReceiver.sock st)).
Proof.
  intros st0 st.
  assert (Hr : MessageReceiver.reachable st).
  { apply (MessageReceiver.reach_available st0 false true st).
    - apply MessageReceiver.reach_init.
    - vm_compute. reflexivity. }
  split; [exact Hr|].
  refine (proj1 (getNextMessage_whole_frame st Hr _ _)).
  - cbn. lia.
  - vm_compute. discriminate.
Defined.

(** ** Reading back what the encoders wrote *)

Lemma remaining_advance (r : BuffReader) (enc suf : list byte) :
  remaining r = enc ++ suf -> remaining (advance (length enc) r) = suf.
Proof.
  unfold remaining, advance. cbn [buff cur_index]. intros H.
  rewrite <- drop_drop, H. apply drop_app_length.
Qed.

Lemma remaining_fits (r : BuffReader) (enc suf : list byte) :
  remaining r = enc ++ suf -> (0 < length enc)%nat ->
  (cur_index r + length enc <= length (buff r))%nat.
Proof.
  unfold remaining. intros H Hpos.
  assert (Hl : length (drop (cur_index r) (buff r)) = length (enc ++ suf))
    by (rewrite H; reflexivity).
  rewrite length_drop, length_app in Hl. lia.
Qed.

Lemma readPrimitive_wire (n : nat) (v : Z) (r : BuffReader) (suf : list byte) :
  (0 < n)%nat ->
  remaining r = be_bytes n v ++ suf ->
  readPrimitive n r = (v mod 256 ^ Z.of_nat n, advance n r)
  /\ remaining (advance n r) = suf.
Proof.
  intros Hn H. split.
  - rewrite readPrimitive_ok.
    + fold (remaining r). rewrite H.
      rewrite take_app_length' by (rewrite length_be_bytes; reflexivity).
      rewrite be_val_be_bytes. reflexivity.
    + pose proof (remaining_fits r _ _ H) as Hf.
      rewrite length_be_bytes in Hf. apply Hf. exact Hn.
  - pose proof (remaining_advance r _ _ H) as Ha.
    rewrite length_be_bytes in Ha. exact Ha.
Qed.

Lemma advance_advance (n m : nat) (r : BuffReader) :
  advance m (advance n r) = advance (n + m) r.
Proof.
  unfold advance. cbn [buff cur_index out_of_range]. f_equal. lia.
Qed.

Lemma length_wire_utf16 (str : list Z) :
  length (wire_utf16 str) = (2 * length str)%nat.
Proof.
  unfold wire_utf16. induction str as [|c str IH]; [reflexivity|].
  cbn [map concat length]. rewrite length_app, length_be_bytes, IH. lia.
Qed.

Lemma readUTF16_wire (str : list Z) :
  Forall (fun c => 0 <= c < 2 ^ 16) str ->
  forall (r : BuffReader) (suf : list byte),
    remaining r = wire_utf16 str ++ suf ->
    readUTF16 (length str) r = (str, advance (2 * length str) r)
    /\ remaining (advance (2 * length str) r) = suf.
Proof.
  induction 1 as [|c str Hc Hstr IH]; intros r suf H.
  - cbn [readUTF16 length]. unfold advance. cbn.
    rewrite Nat.add_0_r. destruct r; cbn in *. split; [reflexivity|exact H].
  - unfold wire_utf16 in H. cbn [map concat] in H. rewrite <- app_assoc in H.
    fold (wire_utf16 str) in H.
    destruct (readPrimitive_wire 2 c r _ ltac:(lia) H) as [E1 R1].
    destruct (IH _ _ R1) as [E2 R2].
    cbn [readUTF16 length]. rewrite E1, E2.
    change (256 ^ Z.of_nat 2) with (2 ^ 16). rewrite Z.mod_small by exact Hc.
    rewrite advance_advance in *.
    replace (2 * S (length str))%nat with (2 + 2 * length str)%nat by lia.
    split; [reflexivity|exact R2].
Qed.

Lemma readSizedUTF16_wire (str : list Z) (r : BuffReader) (suf : list byte) :
  Forall (fun c => 0 <= c < 2 ^ 16) str ->
  Z.of_nat (length str) * 2 < 2 ^ 32 ->
  remaining r = wire_sized_utf16 str ++ suf ->
  readSizedUTF16 r = (str, advance (length (wire_sized_utf16 str)) r)
  /\ remaining (advance (length (wire_sized_utf16 str)) r) = suf.
Proof.
  intros Hstr Hlen H. unfold wire_sized_utf16 in *. rewrite <- app_assoc in H.
  destruct (readPrimitive_wire 4 _ r _ ltac:(lia) H) as [E1 R1].
  destruct (readUTF16_wire str Hstr _ _ R1) as [E2 R2].
  unfold readSizedUTF16. rewrite E1.
  change (256 ^ Z.of_nat 4) with (2 ^ 32). rewrite Z.mod_small by lia.
  rewrite Z.div_mul by lia. rewrite Nat2Z.id, E2.
  rewrite advance_advance in *.
  rewrite length_app, length_be_bytes, length_wire_utf16.
  split; [reflexivity|exact R2].
Qed.

Lemma readSizedVector_loop_wire (d : list byte) :
  forall (r : BuffReader) (suf : list byte),
    remaining r = d ++ suf ->
    readSizedVector_loop (length d) r = (d, advance (length d) r)
    /\ remaining (advance (length d) r) = suf.
Proof.
  induction d as [|c d IH]; intros r suf H.
  - cbn [readSizedVector_loop length]. unfold advance.
    rewrite Nat.add_0_r. destruct r; cbn in *. split; [reflexivity|exact H].
  - change (c :: d) with ([c] ++ d) in H. rewrite <- app_assoc in H.
    pose proof (remaining_fits r [c] _ H ltac:(cbn; lia)) as Hfit.
    cbn [length] in Hfit.
    pose proof (remaining_advance r [c] _ H) as R1. cbn [length] in R1.
    destruct (IH _ _ R1) as [E2 R2].
    cbn [readSizedVector_loop length].
    destruct (Nat.leb_spec (cur_index r + 1) (length (buff r))); [|lia].
    rewrite readPrimitive_ok by lia. fold (remaining r). rewrite H.
    cbn [app take]. rewrite take_0. rewrite be_val_single, byte_of_to_Z.
    change (mkBuffReader (buff r) (cur_index r + 1) (out_of_range r))
      with (advance 1 r).
    rewrite E2. rewrite advance_advance in *.
    split; [reflexivity|exact R2].
Qed.

Lemma readSizedVector_wire (d : list byte) (r : BuffReader) (suf : list byte) :
  Z.of_nat (length d) < 2 ^ 32 ->
  remaining r = wire_sized_bytes d ++ suf ->
  readSizedVector r = (d, advance (length (wire_sized_bytes d)) r)
  /\ remaining (advance (length (wire_sized_bytes d)) r) = suf.
Proof.
  intros Hlen H. unfold wire_sized_bytes in *. rewrite <- app_assoc in H.
  destruct (readPrimitive_wire 4 _ r _ ltac:(lia) H) as [E1 R1].
  destruct (readSizedVector_loop_wire d _ _ R1) as [E2 R2].
  unfold readSizedVector. rewrite E1.
  change (256 ^ Z.of_nat 4) with (2 ^ 32). rewrite Z.mod_small by lia.
  rewrite Z.div_1_r, Nat2Z.id, E2.
  rewrite advance_advance in *. rewrite length_app, length_be_bytes.
  split; [reflexivity|exact R2].
Qed.

(** ** What the encoders write *)

Lemma u32_add_r (a b : Z) : u32 (a + u32 b) = u32 (a + b).
Proof. unfold u32. apply Z.add_mod_idemp_r. lia. Qed.

Lemma u32_add_l2 (a b c : Z) : u32 (u32 a + b + c) = u32 (a + b + c).
Proof. rewrite <- Z.add_assoc, u32_add_l, Z.add_assoc. reflexivity. Qed.

Lemma u32_add_l3 (a b c d : Z) :
  u32 (u32 a + b + c + d) = u32 (a + b + c + d).
Proof. rewrite <- Z.add_assoc, u32_add_l2, Z.add_assoc. reflexivity. Qed.

Lemma u32_add_m2 (a b c : Z) : u32 (a + u32 b + c) = u32 (a + b + c).
Proof.
  rewrite (Z.add_comm a (u32 b)), u32_add_l2, (Z.add_comm b a). reflexivity.
Qed.

Lemma u32_add_m3 (a b c d : Z) :
  u32 (a + u32 b + c + d) = u32 (a + b + c + d).
Proof.
  rewrite (Z.add_comm a (u32 b)), u32_add_l3, (Z.add_comm b a). reflexivity.
Qed.

Lemma u32_add_l4 (a b c d e : Z) :
  u32 (u32 a + b + c + d + e) = u32 (a + b + c + d + e).
Proof. rewrite <- Z.add_assoc, u32_add_l3, Z.add_assoc. reflexivity. Qed.

Ltac u32_norm :=
  repeat first [ rewrite u32_add_l | rewrite u32_add_r
               | rewrite u32_add_l2 | rewrite u32_add_l3
               | rewrite u32_add_m2 | rewrite u32_add_m3
               | rewrite u32_add_l4 ].

Lemma push_code_units (str : list Z) :
  forall (x : Z) (b : Buffer),
    fold_left (fun '(size, b) c =>
                 let '(n, b) := pushBackVal 2 c b in (u32 (size + n), b))
              str (u32 x, b)
    = (u32 (x + Z.of_nat (length (wire_utf16 str))), b ++ wire_utf16 str).
Proof.
  induction str as [|c str IH]; intros x b.
  - cbn. rewrite Z.add_0_r, app_nil_r. reflexivity.
  - cbn [fold_left pushBackVal]. rewrite u32_add_l, IH.
    unfold wire_utf16. cbn [map concat]. fold (wire_utf16 str).
    rewrite !length_app, length_be_bytes, <- app_assoc.
    f_equal. f_equal. lia.
Qed.

Lemma pushBackSizedUTF16_wire (b : Buffer) (str : list Z) :
  pushBackSizedUTF16 b str
  = (u32 (Z.of_nat (length (wire_sized_utf16 str))), b ++ wire_sized_utf16 str).
Proof.
  unfold pushBackSizedUTF16. cbn [pushBackVal]. rewrite push_code_units.
  rewrite be_bytes_u32. unfold wire_sized_utf16.
  rewrite length_app, length_be_bytes, <- app_assoc.
  f_equal. f_equal. lia.
Qed.

Lemma push_bytes (d : list byte) :
  forall (x : Z) (b : Buffer),
    fold_left (fun '(size, b) c =>
                 let '(n, b) := pushBackVal 1 (byte_to_Z c) b in
                 (u32 (size + n), b))
              d (u32 x, b)
    = (u32 (x + Z.of_nat (length d)), b ++ d).
Proof.
  induction d as [|c d IH]; intros x b.
  - cbn. rewrite Z.add_0_r, app_nil_r. reflexivity.
  - cbn [fold_left pushBackVal]. rewrite u32_add_l, IH.
    cbn [be_bytes app]. rewrite byte_of_to_Z, <- app_assoc. cbn [app length].
    f_equal. f_equal. lia.
Qed.

Lemma pushSizedContainer_wire (d : list byte) (b : Buffer) :
  pushSizedContainer d b
  = (u32 (Z.of_nat (length (wire_sized_bytes d))), b ++ wire_sized_bytes d).
Proof.
  unfold pushSizedContainer. cbn [pushBackVal]. rewrite push_bytes.
  rewrite be_bytes_u32, Z.mul_1_r. unfold wire_sized_bytes.
  rewrite length_app, length_be_bytes, <- app_assoc.
  f_equal. f_equal. lia.
Qed.

Lemma length_wire_solution (s : world_model.solver.SolutionData) :
  Z.of_nat (length (wire_solution s))
  = 4 + 8 + Z.of_nat (length (wire_sized_utf16 (world_model.solver.target s)))
    + Z.of_nat (length (wire_sized_bytes (world_model.solver.data s))).
Proof.
  unfold wire_solution. rewrite !length_app, !length_be_bytes. lia.
Qed.

Lemma push_solutions_wire (solutions : list world_model.solver.SolutionData) :
  forall (x : Z) (b : Buffer),
    world_model.solver.push_solutions solutions (u32 x) b
    = (u32 (x + Z.of_nat (length (concat (map wire_solution solutions)))),
       b ++ concat (map wire_solution solutions)).
Proof.
  unfold world_model.solver.push_solutions.
  match goal with |- context [fold_left ?f _ _] => set (body := f) end.
  assert (Hbody : forall x b s,
             body (u32 x, b) s
             = (u32 (x + Z.of_nat (length (wire_solution s))),
                b ++ wire_solution s)).
  { intros x b s. subst body. cbn [pushBackVal].
    rewrite pushBackSizedUTF16_wire. cbv beta iota.
    rewrite pushSizedContainer_wire. cbv beta iota.
    u32_norm. rewrite length_wire_solution.
    unfold wire_solution. rewrite <- !app_assoc.
    f_equal. f_equal. cbn. lia. }
  induction solutions as [|s solutions IH]; intros x b.
  - cbn. rewrite Z.add_0_r, app_nil_r. reflexivity.
  - cbn [fold_left]. rewrite Hbody, IH.
    cbn [map concat]. rewrite length_app, <- app_assoc.
    f_equal. f_equal. lia.
Qed.

(** [makeSolutionMsg] writes the payload behind its own length. *)
Lemma makeSolutionMsg_wire (create_uris : bool)
      (solutions : list world_model.solver.SolutionData) :
  world_model.solver.makeSolutionMsg create_uris solutions
  = be_bytes 4 (Z.of_nat (length (wire_solutions create_uris solutions)))
    ++ wire_solutions create_uris solutions.
Proof.
  unfold world_model.solver.makeSolutionMsg. cbn [pushBackVal].
  u32_norm. rewrite push_solutions_wire. unfold pushBackValAt.
  rewrite !be_bytes_u32, take_0. cbn [app].
  rewrite <- !app_assoc.
  rewrite (drop_app_length' (be_bytes 4 0))
    by (rewrite length_be_bytes; reflexivity).
  unfold wire_solutions. rewrite !length_app, !length_be_bytes.
  f_equal. f_equal. lia.
Qed.

(** ** The round trip of [solver_data] (C2) *)

Lemma to_int64_wrap (t : Z) :
  - 2 ^ 63 <= t < 2 ^ 63 -> to_int64 (t mod 256 ^ Z.of_nat 8) = t.
Proof.
  intros H. change (256 ^ Z.of_nat 8) with (2 ^ 64). unfold to_int64.
  destruct (Z_lt_le_dec t 0) as [Hneg|Hpos].
  - rewrite <- (Z.mod_unique t (2 ^ 64) (-1) (t + 2 ^ 64)) by lia.
    destruct (Z.ltb_spec (t + 2 ^ 64) (2 ^ 63)); lia.
  - rewrite Z.mod_small by lia.
    destruct (Z.ltb_spec t (2 ^ 63)); lia.
Qed.

Lemma read_solutions_wire (solutions : list world_model.solver.SolutionData) :
  Forall wf_solution solutions ->
  forall (r : BuffReader) (suf : list byte),
    Z.of_nat (length (concat (map wire_solution solutions))) < 2 ^ 32 ->
    remaining r = concat (map wire_solution solutions) ++ suf ->
    world_model.solver.read_solutions (length solutions) r
    = (solutions,
       advance (length (concat (map wire_solution solutions))) r)
    /\ remaining (advance (length (concat (map wire_solution solutions))) r)
       = suf.
Proof.
  induction 1 as [|s solutions Hs Hrest IH]; intros r suf Hlen H.
  - cbn [world_model.solver.read_solutions length map concat].
    unfold advance. rewrite Nat.add_0_r. destruct r; cbn in *.
    split; [reflexivity|exact H].
  - cbn [map concat] in *. rewrite length_app in Hlen.
    pose proof (length_wire_solution s) as Hws.
    destruct s as [ta t tg d]. destruct Hs as (Hta & Ht & Htg).
    cbn [world_model.solver.type_alias world_model.solver.time
         world_model.solver.target world_model.solver.data] in *.
    assert (Hlt : Z.of_nat (length tg) * 2 < 2 ^ 32).
    { unfold wire_sized_utf16 in Hws.
      rewrite length_app, length_be_bytes, length_wire_utf16 in Hws. lia. }
    assert (Hld : Z.of_nat (length d) < 2 ^ 32).
    { unfold wire_sized_bytes in Hws.
      rewrite length_app, length_be_bytes in Hws. lia. }
    assert (Hlr : Z.of_nat (length (concat (map wire_solution solutions)))
                  < 2 ^ 32) by lia.
    unfold wire_solution at 1 in H.
    cbn [world_model.solver.type_alias world_model.solver.time
         world_model.solver.target world_model.solver.data] in H.
    rewrite <- !app_assoc in H.
    destruct (readPrimitive_wire 4 _ r _ ltac:(lia) H) as [E1 R1].
    destruct (readPrimitive_wire 8 _ _ _ ltac:(lia) R1) as [E2 R2].
    destruct (readSizedUTF16_wire tg _ _ Htg Hlt R2) as [E3 R3].
    destruct (readSizedVector_wire d _ _ Hld R3) as [E4 R4].
    destruct (IH _ _ Hlr R4) as [E5 R5].
    cbn [world_model.solver.read_solutions length].
    unfold readPrimitive_int64. rewrite E1, E2, E3, E4, E5.
    change (256 ^ Z.of_nat 4) with (2 ^ 32). rewrite Z.mod_small by lia.
    rewrite to_int64_wrap by lia.
    rewrite !advance_advance in *. rewrite !Nat.add_assoc in *.
    assert (Hn : length (wire_solution (world_model.solver.mkSolutionData ta t tg d)
                         ++ concat (map wire_solution solutions))
                 = (4 + 8 + length (wire_sized_utf16 tg)
                    + length (wire_sized_bytes d)
                    + length (concat (map wire_solution solutions)))%nat).
    { rewrite length_app. unfold wire_solution.
      rewrite !length_app, !length_be_bytes.
      cbn [world_model.solver.target world_model.solver.data]. lia. }
    rewrite Hn. split; [reflexivity|exact R5].
Qed.

(** C2: for every flag and every list of well-formed solutions whose frame
    fits the 32-bit length field, decoding the frame that [makeSolutionMsg]
    builds gives back the flag and the solutions, in order and byte for
    byte. *)
Theorem solution_round_trip (create_uris : bool)
        (solutions : list world_model.solver.SolutionData) :
  Forall wf_solution solutions ->
  Z.of_nat (length (world_model.solver.makeSolutionMsg create_uris solutions))
  < 2 ^ 32 ->
  world_model.solver.decodeSolutionMsg
    (world_model.solver.makeSolutionMsg create_uris solutions)
  = (create_uris, solutions).
Proof.
  intros Hwf Hfit. rewrite makeSolutionMsg_wire in *.
  set (payload := wire_solutions create_uris solutions) in *.
  set (b := be_bytes 4 (Z.of_nat (length payload)) ++ payload) in *.
  assert (Hb : length b = (4 + length payload)%nat)
    by (subst b; rewrite length_app, length_be_bytes; reflexivity).
  assert (Hsols : length payload
                  = (1 + 1 + 4 + length (concat (map wire_solution solutions)))%nat).
  { subst payload. unfold wire_solutions.
    rewrite !length_app, !length_be_bytes. lia. }
  assert (Hcount : Z.of_nat (length solutions)
                   <= Z.of_nat (length (concat (map wire_solution solutions)))).
  { clear. induction solutions as [|s l IH]; [cbn; lia|].
    cbn [map concat length]. rewrite length_app.
    pose proof (length_wire_solution s). lia. }
  assert (R0 : remaining (BuffReader_new b)
               = be_bytes 4 (Z.of_nat (length payload)) ++ payload)
    by reflexivity.
  destruct (readPrimitive_wire 4 _ _ _ ltac:(lia) R0) as [E1 R1].
  unfold payload, wire_solutions in R1. fold payload in R1.
  destruct (readPrimitive_wire 1 _ _ _ ltac:(lia) R1) as [E2 R2].
  destruct (readPrimitive_wire 1 _ _ _ ltac:(lia) R2) as [E3 R3].
  destruct (readPrimitive_wire 4 _ _ _ ltac:(lia) R3) as [E4 R4].
  rewrite <- (app_nil_r (concat _)) in R4.
  destruct (read_solutions_wire solutions Hwf _ _ ltac:(lia) R4) as [E5 R5].
  unfold world_model.solver.decodeSolutionMsg,
    world_model.solver.decodeSolutionMsg_run.
  rewrite E1, E2.
  change (256 ^ Z.of_nat 4) with (2 ^ 32).
  rewrite (Z.mod_small (Z.of_nat (length payload))) by lia.
  assert (Hm : world_model.length_matches b (Z.of_nat (length payload)) = true).
  { unfold world_model.length_matches. rewrite u32_small by lia.
    apply Z.eqb_eq. lia. }
  rewrite Hm. change (world_model.solver.solver_data mod 256 ^ Z.of_nat 1
                      =? world_model.solver.solver_data) with true.
  cbn [andb]. rewrite E3, E4.
  rewrite (Z.mod_small (Z.of_nat (length solutions))) by lia.
  rewrite Nat2Z.id, E5. cbn [outOfRange advance out_of_range BuffReader_new].
  destruct create_uris; reflexivity.
Qed.

Lemma solution_round_trip_witness :
  let solutions :=
    [world_model.solver.mkSolutionData 3 1000 (u16 "lamp") [x01; x02; x03];
     world_model.solver.mkSolutionData 9 (-5) (u16 "door.1") [xff]] in
  Forall wf_solution solutions
  /\ Z.of_nat (length (world_model.solver.makeSolutionMsg true solutions))
     < 2 ^ 32
  /\ world_model.solver.decodeSolutionMsg
       (world_model.solver.makeSolutionMsg true solutions)
     = (true, solutions).
Proof.
  intros solutions.
  assert (Hwf : Forall wf_solution solutions).
  { repeat constructor; cbn; lia. }
  assert (Hfit : Z.of_nat (length (world_model.solver.makeSolutionMsg true solutions))
                 < 2 ^ 32) by (vm_compute; reflexivity).
  split; [exact Hwf|]. split; [exact Hfit|].
  exact (solution_round_trip true solutions Hwf Hfit).
Defined.

(** ** How far the reading functions move, and what they do to the flag *)

Lemma consumes_refl (r : BuffReader) : consumes 0 r r.
Proof. unfold consumes. repeat split; auto; lia. Qed.

Lemma consumes_trans (n m : nat) (r r' r'' : BuffReader) :
  consumes n r r' -> consumes m r' r'' -> consumes (n + m) r r''.
Proof.
  unfold consumes. intros (B1 & M1 & I1 & F1) (B2 & M2 & I2 & F2).
  rewrite B1 in *. repeat split.
  - congruence.
  - lia.
  - auto.
  - apply F2 in H. destruct H as [H _]. apply F1 in H. tauto.
  - pose proof (F2 H) as [H' ?]. apply F1 in H'. lia.
Qed.

Lemma consumes_le (n m : nat) (r r' : BuffReader) :
  consumes n r r' -> (m <= n)%nat -> consumes m r r'.
Proof.
  unfold consumes. intros (B & C & I & F) Hle. repeat split; auto.
  - apply F in H. tauto.
  - apply F in H. lia.
Qed.

Lemma readPrimitive_consumes (n : nat) (r : BuffReader) :
  consumes n r (snd (readPrimitive n r)).
Proof.
  unfold readPrimitive, consumes.
  destruct (Nat.leb_spec (cur_index r + n) (length (buff r)));
    cbn [snd buff cur_index out_of_range]; repeat split; auto; try lia;
    discriminate.
Qed.

Lemma readPrimitive_int64_consumes (r : BuffReader) :
  consumes 8 r (snd (readPrimitive_int64 r)).
Proof.
  unfold readPrimitive_int64. pose proof (readPrimitive_consumes 8 r) as H.
  destruct (readPrimitive 8 r). exact H.
Qed.

Lemma readUTF16_consumes (k : nat) (r : BuffReader) :
  consumes 0 r (snd (readUTF16 k r)).
Proof.
  revert r. induction k as [|k IH]; intros r; cbn [readUTF16].
  - apply consumes_refl.
  - pose proof (readPrimitive_consumes 2 r) as H1.
    destruct (readPrimitive 2 r) as [c r1]. cbn [snd] in H1.
    specialize (IH r1). destruct (readUTF16 k r1) as [str r2]. cbn [snd] in *.
    apply (consumes_le (2 + 0)); [|lia].
    eapply consumes_trans; eassumption.
Qed.

Lemma readSizedUTF16_consumes (r : BuffReader) :
  consumes 4 r (snd (readSizedUTF16 r)).
Proof.
  unfold readSizedUTF16. pose proof (readPrimitive_consumes 4 r) as H1.
  destruct (readPrimitive 4 r) as [len r1]. cbn [snd] in H1.
  apply (consumes_le (4 + 0)); [|lia].
  eapply consumes_trans; [exact H1|apply readUTF16_consumes].
Qed.

Lemma advance_0 (r : BuffReader) : advance 0 r = r.
Proof. unfold advance. rewrite Nat.add_0_r. destruct r; reflexivity. Qed.

(** The loop of [readSizedVector] returns the bytes that are there, at most
    [size] of them, and leaves the flag as it found it. *)
Lemma readSizedVector_loop_take (size : nat) :
  forall r : BuffReader,
    (cur_index r <= length (buff r))%nat ->
    readSizedVector_loop size r
    = (take size (remaining r),
       advance (size `min` length (remaining r)) r).
Proof.
  induction size as [|size IH]; intros r Hc.
  - cbn [readSizedVector_loop]. rewrite take_0, Nat.min_0_l, advance_0.
    reflexivity.
  - cbn [readSizedVector_loop].
    destruct (Nat.leb_spec (cur_index r + 1) (length (buff r))) as [Hok|Hno].
    + destruct (lookup_lt_is_Some_2 (buff r) (cur_index r) ltac:(lia))
        as [c Hcur].
      assert (Hrem : remaining r = c :: remaining (advance 1 r)).
      { unfold remaining, advance. cbn [buff cur_index].
        rewrite (drop_S _ _ _ Hcur). f_equal. f_equal. lia. }
      rewrite readPrimitive_ok by lia. fold (remaining r). rewrite Hrem.
      cbn [take]. rewrite take_0, be_val_single, byte_of_to_Z.
      change (mkBuffReader (buff r) (cur_index r + 1) (out_of_range r))
        with (advance 1 r).
      rewrite IH by (cbn; lia). rewrite advance_advance. cbn [length].
      reflexivity.
    + assert (Hrem : remaining r = []).
      { unfold remaining. apply drop_ge. lia. }
      rewrite Hrem, take_nil. cbn [length]. rewrite Nat.min_0_r, advance_0.
      reflexivity.
Qed.

Lemma readSizedVector_consumes (r : BuffReader) :
  consumes 4 r (snd (readSizedVector r)).
Proof.
  unfold readSizedVector. pose proof (readPrimitive_consumes 4 r) as H1.
  destruct (readPrimitive 4 r) as [size r1]. cbn [snd] in H1.
  apply (consumes_le (4 + 0)); [|lia].
  eapply consumes_trans; [exact H1|].
  generalize (Z.to_nat (size / 1)). clear. revert r1.
  intros r n. revert r. induction n as [|n IH]; intros r;
    cbn [readSizedVector_loop].
  - apply consumes_refl.
  - destruct (cur_index r + 1 <=? length (buff r))%nat; [|apply consumes_refl].
    pose proof (readPrimitive_consumes 1 r) as H1.
    destruct (readPrimitive 1 r) as [v r1]. cbn [snd] in H1.
    specialize (IH r1). destruct (readSizedVector_loop n r1) as [vs r2].
    cbn [snd] in *. apply (consumes_le (1 + 0)); [|lia].
    eapply consumes_trans; eassumption.
Qed.

(** Every attribute of a [data_response] needs 28 bytes before its data:
    if the flag is clear after [k] attributes, 28 [k] bytes were there. *)
Lemma read_attributes_consumes (k : nat) (r : BuffReader) :
  consumes (28 * k) r (snd (world_model.client.read_attributes k r)).
Proof.
  revert r. induction k as [|k IH]; intros r;
    cbn [world_model.client.read_attributes].
  - apply consumes_refl.
  - pose proof (readPrimitive_consumes 4 r) as H1.
    destruct (readPrimitive 4 r) as [na r1]. cbn [snd] in H1.
    pose proof (readPrimitive_int64_consumes r1) as H2.
    destruct (readPrimitive_int64 r1) as [cd r2]. cbn [snd] in H2.
    pose proof (readPrimitive_int64_consumes r2) as H3.
    destruct (readPrimitive_int64 r2) as [ed r3]. cbn [snd] in H3.
    pose proof (readPrimitive_consumes 4 r3) as H4.
    destruct (readPrimitive 4 r3) as [oa r4]. cbn [snd] in H4.
    pose proof (readSizedVector_consumes r4) as H5.
    destruct (readSizedVector r4) as [d r5]. cbn [snd] in H5.
    specialize (IH r5).
    destruct (world_model.client.read_attributes k r5) as [rest r6].
    cbn [snd] in *.
    apply (consumes_le (4 + 8 + 8 + 4 + 4 + 28 * k)); [|lia].
    repeat (eapply consumes_trans; [|eassumption]). exact H1.
Qed.

Lemma read_rules_length (k : nat) (r : BuffReader) :
  length (fst (aggregator_solver.read_rules k r)) = k.
Proof.
  revert r. induction k as [|k IH]; intros r;
    cbn [aggregator_solver.read_rules]; [reflexivity|].
  destruct (readPrimitive 1 r) as [phy r1].
  destruct (readPrimitive 4 r1) as [nt r2].
  destruct (aggregator_solver.read_txers _ r2) as [ts r3].
  destruct (readPrimitive 8 r3) as [iv r4].
  specialize (IH r4). destruct (aggregator_solver.read_rules k r4).
  cbn [fst length] in *. lia.
Qed.

(** ** Ill-formed frames (C1) *)

(** Splits on the header test of a decoder for the kind [ID]: in the first
    case the buffer is a frame of the kind and the reader stands at offset
    5 with the flag clear, in the second the test has failed. *)
Ltac header_split ID :=
  cbv zeta;
  match goal with
  | |- context [readPrimitive 4 (BuffReader_new ?b)] =>
      let tl := fresh "tl" in
      let r1 := fresh "r1" in
      let E1 := fresh "E1" in
      let mt := fresh "mt" in
      let r2 := fresh "r2" in
      let E2 := fresh "E2" in
      let Ec := fresh "Ec" in
      destruct (readPrimitive 4 (BuffReader_new b)) as [tl r1] eqn:E1;
      destruct (readPrimitive 1 r1) as [mt r2] eqn:E2;
      rewrite ?(Z.eqb_sym ID mt);
      destruct (world_model.length_matches b tl && (mt =? ID)) eqn:Ec;
      [ let Hf := fresh "Hframe" in
        let Ht := fresh "Htl" in
        let Hr := fresh "Hr2" in
        destruct (header_test_frame
                    ID b tl r1 mt r2
                    ltac:(vm_compute; split; reflexivity) E1 E2 Ec)
          as (Hf & Ht & Hr)
      | ]
  end.

Lemma decodeSnapshotRequest_run_not_frame (uninit : Z * Z) (b : Buffer) :
  ~ is_frame world_model.client.snapshot_request b ->
  fst (world_model.client.decodeSnapshotRequest_run uninit b)
  = (world_model.client.Request_uninit uninit, 0).
Proof.
  unfold world_model.client.decodeSnapshotRequest_run.
  header_split world_model.client.snapshot_request; [contradiction|reflexivity].
Qed.

Lemma decodeAttrAliasMsg_run_not_frame (b : Buffer) :
  ~ is_frame world_model.client.attribute_alias b ->
  fst (world_model.client.decodeAttrAliasMsg_run b) = [].
Proof.
  unfold world_model.client.decodeAttrAliasMsg_run.
  header_split world_model.client.attribute_alias; [contradiction|reflexivity].
Qed.

Lemma decodeDataMessage_run_not_frame (b : Buffer) :
  ~ is_frame world_model.client.data_response b ->
  fst (world_model.client.decodeDataMessage_run b)
  = (world_model.client.AliasedWorldData_empty, 0).
Proof.
  unfold world_model.client.decodeDataMessage_run.
  header_split world_model.client.data_response; [contradiction|reflexivity].
Qed.

Lemma decodeURISearchResponse_run_not_frame (b : Buffer) :
  ~ is_frame world_model.client.uri_response b ->
  fst (world_model.client.decodeURISearchResponse_run b) = [].
Proof.
  unfold world_model.client.decodeURISearchResponse_run.
  header_split world_model.client.uri_response; [contradiction|reflexivity].
Qed.

Lemma decodeStartOnDemand_run_not_frame (b : Buffer) :
  ~ is_frame world_model.solver.start_on_demand b ->
  fst (world_model.solver.decodeStartOnDemand_run b) = [].
Proof.
  unfold world_model.solver.decodeStartOnDemand_run.
  header_split world_model.solver.start_on_demand; [contradiction|reflexivity].
Qed.

Lemma decodeSolutionMsg_run_not_frame (b : Buffer) :
  ~ is_frame world_model.solver.solver_data b ->
  fst (world_model.solver.decodeSolutionMsg_run b) = (false, []).
Proof.
  unfold world_model.solver.decodeSolutionMsg_run.
  header_split world_model.solver.solver_data; [contradiction|reflexivity].
Qed.

(** A ticket that cannot be read is read as zero. *)
Lemma readPrimitive_latched_zero (n : nat) (r : BuffReader) :
  out_of_range r = false ->
  out_of_range (snd (readPrimitive n r)) = true ->
  fst (readPrimitive n r) = 0.
Proof.
  unfold readPrimitive. intros Hr.
  destruct (cur_index r + n <=? length (buff r))%nat; cbn [fst snd out_of_range].
  - congruence.
  - reflexivity.
Qed.

Lemma decodeRequestComplete_rejects (b : Buffer) :
  ~ is_frame world_model.client.request_complete b
  \/ outOfRange (snd (world_model.client.decodeRequestComplete_run b)) = true ->
  world_model.client.decodeRequestComplete b = 0.
Proof.
  unfold world_model.client.decodeRequestComplete,
    world_model.client.decodeRequestComplete_run, outOfRange.
  header_split world_model.client.request_complete.
  - intros [Hn|Hflag]; [contradiction|].
    apply readPrimitive_latched_zero; [subst r2; reflexivity|exact Hflag].
  - reflexivity.
Qed.

Lemma decodeCancelRequest_rejects (b : Buffer) :
  ~ is_frame world_model.client.cancel_request b
  \/ outOfRange (snd (world_model.client.decodeCancelRequest_run b)) = true ->
  world_model.client.decodeCancelRequest b = 0.
Proof.
  unfold world_model.client.decodeCancelRequest,
    world_model.client.decodeCancelRequest_run, outOfRange.
  header_split world_model.client.cancel_request.
  - intros [Hn|Hflag]; [contradiction|].
    apply readPrimitive_latched_zero; [subst r2; reflexivity|exact Hflag].
  - reflexivity.
Qed.

(** The tail string of [decodeURISearch] is sized from what is left, so
    its reads never run out. *)
Lemma decodeURISearch_rejects (b : Buffer) :
  ~ is_frame world_model.client.uri_search b
  \/ outOfRange (snd (world_model.client.decodeURISearch_run b)) = true ->
  world_model.client.decodeURISearch b = [].
Proof.
  unfold world_model.client.decodeURISearch,
    world_model.client.decodeURISearch_run, outOfRange.
  header_split world_model.client.uri_search.
  - intros [Hn|Hflag]; [contradiction|]. exfalso.
    destruct Hframe as (_ & _ & Hb). apply lookup_lt_Some in Hb.
    subst r2. rewrite readUTF16_flag in Hflag by (cbn; lia).
    cbn [buff cur_index out_of_range orb] in Hflag.
    apply Nat.ltb_lt in Hflag.
    pose proof (Nat.Div0.mul_div_le (length b - 5) 2). lia.
  - reflexivity.
Qed.

Lemma decodeCreateURI_rejects (b : Buffer) :
  ~ is_frame world_model.solver.create_uri b
  \/ outOfRange (snd (world_model.solver.decodeCreateURI_run b)) = true ->
  world_model.solver.decodeCreateURI b = ([], 0, []).
Proof.
  unfold world_model.solver.decodeCreateURI,
    world_model.solver.decodeCreateURI_run.
  header_split world_model.solver.create_uri.
  - intros [Hn|Hflag]; [contradiction|]. revert Hflag.
    destruct (readSizedUTF16 r2) as [u r3].
    destruct (readPrimitive_int64 r3) as [t r4].
    destruct (readUTF16 _ r4) as [o r5].
    destruct (outOfRange r5) eqn:F; cbn [fst snd]; [reflexivity|congruence].
  - reflexivity.
Qed.

Lemma decodeExpireURI_rejects (b : Buffer) :
  ~ is_frame world_model.solver.expire_uri b
  \/ outOfRange (snd (world_model.solver.decodeExpireURI_run b)) = true ->
  world_model.solver.decodeExpireURI b = ([], 0, []).
Proof.
  unfold world_model.solver.decodeExpireURI,
    world_model.solver.decodeExpireURI_run.
  header_split world_model.solver.expire_uri.
  - intros [Hn|Hflag]; [contradiction|]. revert Hflag.
    destruct (readSizedUTF16 r2) as [u r3].
    destruct (readPrimitive_int64 r3) as [t r4].
    destruct (readUTF16 _ r4) as [o r5].
    destruct (outOfRange r5) eqn:F; cbn [fst snd]; [reflexivity|congruence].
  - reflexivity.
Qed.

Lemma decodeDeleteURI_rejects (b : Buffer) :
  ~ is_frame world_model.solver.delete_uri b
  \/ outOfRange (snd (world_model.solver.decodeDeleteURI_run b)) = true ->
  world_model.solver.decodeDeleteURI b = ([], []).
Proof.
  unfold world_model.solver.decodeDeleteURI,
    world_model.solver.decodeDeleteURI_run.
  header_split world_model.solver.delete_uri.
  - intros [Hn|Hflag]; [contradiction|]. revert Hflag.
    destruct (readSizedUTF16 r2) as [u r3].
    destruct (readUTF16 _ r3) as [o r4].
    destruct (outOfRange r4) eqn:F; cbn [fst snd]; [reflexivity|congruence].
  - reflexivity.
Qed.

Lemma decodeExpireAttribute_rejects (b : Buffer) :
  ~ is_frame world_model.solver.expire_attribute b
  \/ outOfRange (snd (world_model.solver.decodeExpireAttribute_run b)) = true ->
  world_model.solver.decodeExpireAttribute b = ([], [], 0, []).
Proof.
  unfold world_model.solver.decodeExpireAttribute,
    world_model.solver.decodeExpireAttribute_run.
  header_split world_model.solver.expire_attribute.
  - intros [Hn|Hflag]; [contradiction|]. revert Hflag.
    destruct (readSizedUTF16 r2) as [u r3].
    destruct (readSizedUTF16 r3) as [a r4].
    destruct (readPrimitive_int64 r4) as [t r5].
    destruct (readUTF16 _ r5) as [o r6].
    destruct (outOfRange r6) eqn:F; cbn [fst snd]; [reflexivity|congruence].
  - reflexivity.
Qed.

Lemma decodeDeleteAttribute_rejects (b : Buffer) :
  ~ is_frame world_model.solver.delete_attribute b
  \/ outOfRange (snd (world_model.solver.decodeDeleteAttribute_run b)) = true ->
  world_model.solver.decodeDeleteAttribute b = ([], [], []).
Proof.
  unfold world_model.solver.decodeDeleteAttribute,
    world_model.solver.decodeDeleteAttribute_run.
  header_split world_model.solver.delete_attribute.
  - intros [Hn|Hflag]; [contradiction|]. revert Hflag.
    destruct (readSizedUTF16 r2) as [u r3].
    destruct (readSizedUTF16 r3) as [a r4].
    destruct (readUTF16 _ r4) as [o r5].
    destruct (outOfRange r5) eqn:F; cbn [fst snd]; [reflexivity|congruence].
  - reflexivity.
Qed.

(** What [decodeSnapshotRequest] returns on a buffer that is not a
    [snapshot_request] frame, or when its reader ends with the flag
    latched. *)
Lemma decodeSnapshotRequest_rejects (uninit : Z * Z) (b : Buffer) :
  ~ is_frame world_model.client.snapshot_request b
  \/ flag_after uninit SnapshotRequest b = true ->
  rejected uninit SnapshotRequest b.
Proof.
  cbn [flag_after rejected].
  unfold world_model.client.decodeSnapshotRequest.
  pose proof (decodeSnapshotRequest_run_not_frame uninit b) as Hn.
  destruct (world_model.client.decodeSnapshotRequest_run uninit b)
    as [[rq t] rd].
  cbn [fst snd] in *. intros [H|H].
  - specialize (Hn H). injection Hn as -> ->.
    destruct (outOfRange rd); cbn;
      (split; [reflexivity|split; [reflexivity|split; [reflexivity|]]]);
      [reflexivity|discriminate].
  - rewrite H. cbn. split; [reflexivity|]. split; [reflexivity|].
    split; [|reflexivity]. intros Hf. specialize (Hn Hf). congruence.
Qed.

Lemma decodeAttrAliasMsg_rejects (b : Buffer) :
  ~ is_frame world_model.client.attribute_alias b
  \/ flag_after (0, 0) AttrAliasMsg b = true ->
  world_model.client.decodeAttrAliasMsg b = [].
Proof.
  cbn [flag_after]. unfold world_model.client.decodeAttrAliasMsg.
  pose proof (decodeAttrAliasMsg_run_not_frame b) as Hn.
  destruct (world_model.client.decodeAttrAliasMsg_run b) as [res rd].
  cbn [fst snd] in *. intros [H|H].
  - rewrite (Hn H). destruct (outOfRange rd); reflexivity.
  - rewrite H. reflexivity.
Qed.

Lemma decodeStartOnDemand_rejects (b : Buffer) :
  ~ is_frame world_model.solver.start_on_demand b
  \/ flag_after (0, 0) StartOnDemand b = true ->
  world_model.solver.decodeStartOnDemand b = [].
Proof.
  cbn [flag_after]. unfold world_model.solver.decodeStartOnDemand.
  pose proof (decodeStartOnDemand_run_not_frame b) as Hn.
  destruct (world_model.solver.decodeStartOnDemand_run b) as [res rd].
  cbn [fst snd] in *. intros [H|H].
  - rewrite (Hn H). destruct (outOfRange rd); reflexivity.
  - rewrite H. reflexivity.
Qed.

Lemma decodeTypeAnnounceMsg_rejects (b : Buffer) :
  ~ is_frame world_model.solver.type_announce b
  \/ flag_after (0, 0) TypeAnnounceMsg b = true ->
  rejected (0, 0) TypeAnnounceMsg b.
Proof.
  cbn [flag_after rejected].
  unfold world_model.solver.decodeTypeAnnounceMsg,
    world_model.solver.decodeTypeAnnounceMsg_run.
  header_split world_model.solver.type_announce.
  - intros [Hn|Hflag]; [contradiction|]. revert Hflag.
    destruct (readPrimitive 4 r2) as [n r3].
    destruct (world_model.solver.read_aliases (Z.to_nat n) r3) as [al r4].
    destruct (readUTF16 _ r4) as [o r5]. cbn [snd].
    intros ->. split; [reflexivity|]. intros _. reflexivity.
  - intros _. destruct (readUTF16 _ r2) as [o r3]. cbn [snd].
    destruct (outOfRange r3); cbn [fst]; (split; [reflexivity|]);
      [reflexivity|discriminate].
Qed.

(** [decodeSubscribeMsg], called with the size of the buffer, returns no
    rule when the buffer is not a frame of a subscription kind. *)
Lemma decodeSubscribeMsg_not_frame (b : Buffer) :
  ~ (is_frame aggregator_solver.subscription_request b
     \/ is_frame aggregator_solver.subscription_response b) ->
  aggregator_solver.decodeSubscribeMsg b (Z.of_nat (length b)) = [].
Proof.
  intros Hn. unfold aggregator_solver.decodeSubscribeMsg.
  destruct (4 <? Z.of_nat (length b)); [|reflexivity].
  cbv zeta.
  destruct (readPrimitive 4 (BuffReader_new b)) as [tl r1] eqn:E1.
  destruct (readPrimitive 1 r1) as [mt r2] eqn:E2.
  destruct ((u32 (tl + 4) =? Z.of_nat (length b))
            && ((aggregator_solver.subscription_request =? mt)
                || (aggregator_solver.subscription_response =? mt))) eqn:Ec;
    [|reflexivity].
  exfalso. apply Hn.
  apply andb_true_iff in Ec as [Hl Hk]. rewrite Z.eqb_sym in Hl.
  apply orb_true_iff in Hk as [Hk|Hk]; rewrite Z.eqb_sym in Hk.
  - left.
    apply (header_test_frame aggregator_solver.subscription_request
             b tl r1 mt r2 ltac:(vm_compute; split; reflexivity) E1 E2).
    apply andb_true_iff; split; assumption.
  - right.
    apply (header_test_frame aggregator_solver.subscription_response
             b tl r1 mt r2 ltac:(vm_compute; split; reflexivity) E1 E2).
    apply andb_true_iff; split; assumption.
Qed.

(** The sample decoder of the sensors has no kind to test: called with the
    size of the buffer, it marks the sample valid exactly when the buffer
    has five bytes or more and its length field is consistent. *)
Lemma sensor_decodeSampleMsg_valid (b : Buffer) :
  valid (sensor_aggregator.decodeSampleMsg b (Z.of_nat (length b))) = true
  <-> whole_piece b /\ (5 <= length b)%nat.
Proof.
  unfold sensor_aggregator.decodeSampleMsg, whole_piece.
  destruct (Z.ltb_spec 4 (Z.of_nat (length b))) as [H4|H4].
  - rewrite readPrimitive_ok by (cbn; lia).
    cbn [BuffReader_new buff cur_index out_of_range].
    change (drop 0 b) with b.
    pose proof (be_val_range (take 4 b)) as Hr.
    rewrite length_take in Hr.
    replace (4 `min` length b)%nat with 4%nat in Hr by lia.
    change (256 ^ Z.of_nat 4) with (2 ^ 32) in Hr.
    destruct (Z.eqb_spec (u32 (be_val (take 4 b) + 4)) (Z.of_nat (length b)))
      as [He|Hne].
    + destruct (readPrimitive 1 _) as [phy r3].
      destruct (readPrimitive_uint128 r3) as [tx r4].
      destruct (readPrimitive_uint128 r4) as [rx r5].
      destruct (readPrimitive_int64 r5) as [st r6].
      destruct (readPrimitive 4 r6) as [ss r7].
      destruct (readPrimitiveContainer _ r7) as [sd r8].
      cbn [valid]. split; [intros _|reflexivity].
      assert (Hsum : be_val (take 4 b) + 4 < 2 ^ 32).
      { destruct (Z_lt_le_dec (be_val (take 4 b) + 4) (2 ^ 32)) as [|Hge];
          [assumption|].
        unfold u32 in He.
        rewrite <- (Z.mod_unique (be_val (take 4 b) + 4) (2 ^ 32) 1
                                 (be_val (take 4 b) + 4 - 2 ^ 32)) in He by lia.
        lia. }
      rewrite u32_small in He by lia. lia.
    + cbn [valid aggregator_solver.invalid_sample]. split; [discriminate|].
      intros ((Hl & Hs) & _). exfalso. apply Hne.
      rewrite u32_small by lia. lia.
  - cbn [valid aggregator_solver.invalid_sample]. split; [discriminate|].
    intros (_ & H5). lia.
Qed.

(** Overwriting the kind of a buffer that is not a frame does not make it
    one. *)
Lemma is_frame_patched (k k' : Z) (b : Buffer) :
  b !! 4%nat = Some (byte_of_Z k) ->
  is_frame k' (<[4%nat := byte_of_Z k']> b) ->
  is_frame k b.
Proof.
  intros Hb (Hl & Hs & _). unfold Buffer in *.
  rewrite length_insert in Hl, Hs.
  rewrite take_insert_ge in Hl by lia.
  repeat split; assumption.
Qed.

(** The test of [decodeRangeRequest], [decodeStreamRequest] and
    [decodeOriginAliasMsg] on the byte at offset 4. *)
Lemma kind_test_true (k : Z) (b : Buffer) :
  0 <= k < 256 ->
  from_option (fun c => k =? byte_to_Z c) false (b !! 4%nat) = true ->
  b !! 4%nat = Some (byte_of_Z k).
Proof.
  intros Hk. destruct (b !! 4%nat) as [c|]; cbn [from_option]; [|discriminate].
  intros E. apply Z.eqb_eq in E. subst k. rewrite byte_of_to_Z. reflexivity.
Qed.

Lemma decodeRangeRequest_rejects (uninit_empty uninit : Z * Z) (b : Buffer) :
  ~ is_frame world_model.client.range_request b
  \/ flag_after uninit SnapshotRequest (patched RangeRequest b) = true ->
  rejected_patching uninit_empty uninit RangeRequest b.
Proof.
  intros H. cbn [rejected_patching].
  unfold world_model.client.decodeRangeRequest.
  destruct (bool_decide (5 <= length b)%nat
            && from_option
                 (fun c => world_model.client.range_request =? byte_to_Z c)
                 false (b !! 4%nat)) eqn:Et.
  - apply andb_true_iff in Et as [_ Ek].
    apply kind_test_true in Ek; [|vm_compute; split; [discriminate|reflexivity]].
    cbn [fst].
    assert (Hd : ~ is_frame world_model.client.snapshot_request
                   (patched RangeRequest b)
                 \/ flag_after uninit SnapshotRequest (patched RangeRequest b)
                    = true).
    { destruct H as [H|H]; [left|right; exact H].
      intros Hp. apply H. exact (is_frame_patched _ _ b Ek Hp). }
    apply decodeSnapshotRequest_rejects in Hd. cbn [rejected] in Hd.
    unfold patched, delegate, kind_of in *.
    destruct (world_model.client.decodeSnapshotRequest uninit _) as [rq t].
    destruct Hd as (Hu & Ha & Ht & _).
    split; [exact Hu|]. split; [exact Ha|].
    intros Hn. apply Ht. intros Hp. apply Hn.
    exact (is_frame_patched _ _ b Ek Hp).
  - cbn. auto.
Qed.

Lemma decodeStreamRequest_rejects (uninit_empty uninit : Z * Z) (b : Buffer) :
  ~ is_frame world_model.client.stream_request b
  \/ flag_after uninit SnapshotRequest (patched StreamRequest b) = true ->
  rejected_patching uninit_empty uninit StreamRequest b.
Proof.
  intros H. cbn [rejected_patching].
  unfold world_model.client.decodeStreamRequest.
  destruct (bool_decide (5 <= length b)%nat
            && from_option
                 (fun c => world_model.client.stream_request =? byte_to_Z c)
                 false (b !! 4%nat)) eqn:Et.
  - apply andb_true_iff in Et as [_ Ek].
    apply kind_test_true in Ek; [|vm_compute; split; [discriminate|reflexivity]].
    cbn [fst].
    assert (Hd : ~ is_frame world_model.client.snapshot_request
                   (patched StreamRequest b)
                 \/ flag_after uninit SnapshotRequest (patched StreamRequest b)
                    = true).
    { destruct H as [H|H]; [left|right; exact H].
      intros Hp. apply H. exact (is_frame_patched _ _ b Ek Hp). }
    apply decodeSnapshotRequest_rejects in Hd. cbn [rejected] in Hd.
    unfold patched, delegate, kind_of in *.
    destruct (world_model.client.decodeSnapshotRequest uninit _) as [rq t].
    destruct Hd as (Hu & Ha & Ht & _).
    split; [exact Hu|]. split; [exact Ha|].
    intros Hn. apply Ht. intros Hp. apply Hn.
    exact (is_frame_patched _ _ b Ek Hp).
  - cbn. auto.
Qed.

Lemma decodeOriginAliasMsg_rejects (b : Buffer) :
  ~ is_frame world_model.client.origin_alias b
  \/ flag_after (0, 0) AttrAliasMsg (patched OriginAliasMsg b) = true ->
  fst (world_model.client.decodeOriginAliasMsg b) = [].
Proof.
  intros H. unfold world_model.client.decodeOriginAliasMsg.
  destruct (bool_decide (5 < length b)%nat
            && from_option
                 (fun c => world_model.client.origin_alias =? byte_to_Z c)
                 false (b !! 4%nat)) eqn:Et.
  - apply andb_true_iff in Et as [_ Ek].
    apply kind_test_true in Ek; [|vm_compute; split; [discriminate|reflexivity]].
    cbn [fst]. apply decodeAttrAliasMsg_rejects.
    destruct H as [H|H]; [left|right; exact H].
    intros Hp. apply H. exact (is_frame_patched _ _ b Ek Hp).
  - reflexivity.
Qed.

Lemma decodeStopOnDemand_rejects (b : Buffer) :
  ~ is_frame world_model.solver.stop_on_demand b
  \/ flag_after (0, 0) StartOnDemand (patched StopOnDemand b) = true ->
  fst (world_model.solver.decodeStopOnDemand b) = [].
Proof.
  intros H. unfold world_model.solver.decodeStopOnDemand.
  header_split world_model.solver.stop_on_demand.
  - cbn [fst]. apply decodeStartOnDemand_rejects.
    destruct H as [H|H]; [contradiction|right; exact H].
  - reflexivity.
Qed.

(** The sample decoder of the aggregator marks the sample valid on the
    header alone. *)
Lemma decodeSampleMsg_valid (b : Buffer) :
  valid (aggregator_solver.decodeSampleMsg b (Z.of_nat (length b))) = true
  <-> is_frame aggregator_solver.server_sample b.
Proof.
  unfold aggregator_solver.decodeSampleMsg, aggregator_solver.decodeSampleMsg_run.
  destruct (Z.ltb_spec 4 (Z.of_nat (length b))) as [H4|H4].
  - fold (world_model.length_matches b).
    cbv zeta.
    destruct (readPrimitive 4 (BuffReader_new b)) as [tl r1] eqn:E1.
    destruct (readPrimitive 1 r1) as [mt r2] eqn:E2.
    rewrite (Z.eqb_sym (u32 (tl + 4))).
    fold (world_model.length_matches b tl).
    rewrite (Z.eqb_sym aggregator_solver.server_sample mt).
    destruct (world_model.length_matches b tl
              && (mt =? aggregator_solver.server_sample)) eqn:Ec.
    + destruct (header_test_frame
                  aggregator_solver.server_sample b tl r1 mt r2
                  ltac:(vm_compute; split; reflexivity) E1 E2 Ec) as (Hf & _).
      destruct (readPrimitive 1 r2) as [phy r3].
      destruct (readPrimitive_uint128 r3) as [tx r4].
      destruct (readPrimitive_uint128 r4) as [rx r5].
      destruct (readPrimitive_int64 r5) as [st r6].
      destruct (readPrimitive 4 r6) as [ss r7].
      destruct (readPrimitiveContainer _ r7) as [sd r8].
      cbn [fst valid]. tauto.
    + cbn [fst valid aggregator_solver.invalid_sample]. split; [discriminate|].
      intros Hf.
      destruct (is_frame_reads aggregator_solver.server_sample b
                  ltac:(vm_compute; split; [discriminate|reflexivity]) Hf)
        as (F1 & F2 & F3).
      rewrite F1 in E1. injection E1 as <- <-.
      rewrite F2 in E2. injection E2 as <- <-.
      rewrite F3 in Ec. discriminate.
  - cbn [fst valid aggregator_solver.invalid_sample]. split; [discriminate|].
    intros (_ & _ & Hb). apply lookup_lt_Some in Hb. lia.
Qed.

(** C1, as the code has it.  A buffer is rejected when it is not a frame
    of the expected kind (the declared length is not the size minus four,
    or the byte at offset 4 is another kind), or when the reader's flag is
    latched once the decoder is done with it.  Each of the fifteen
    world-model decoders that parse a frame themselves then returns its
    empty value.  For [decodeSnapshotRequest] that is a request without URI
    and attributes, with ticket zero when the buffer is not a frame of the
    kind and with both times zero when the flag is latched; for
    [decodeTypeAnnounceMsg] it is the empty list of aliases, with the empty
    origin when the flag is latched.  The four decoders that patch the
    kind and delegate ([decodeRangeRequest], [decodeStreamRequest],
    [decodeOriginAliasMsg], [decodeStopOnDemand]) return their empty value
    when the buffer is not a frame of their kind or the delegate ends with
    the flag latched.  The decoders of the aggregator and of the sensors
    do not look at the flag: called with the size of the buffer, the
    sample decoder of the aggregator returns a valid sample exactly on a
    [server_sample] frame, the one of the sensors exactly on a buffer of
    five bytes or more with a consistent length field, and
    [decodeSubscribeMsg] returns no rule on a buffer that is not a frame of
    a subscription kind. *)
Theorem decoders_reject (uninit_empty uninit : Z * Z)
        (d : decoder) (p : patching_decoder) (b : Buffer) :
  (~ is_frame (kind_of d) b \/ flag_after uninit d b = true ->
   rejected uninit d b)
  /\ (~ is_frame (patched_kind p) b
      \/ flag_after uninit (delegate p) (patched p b) = true ->
      rejected_patching uninit_empty uninit p b)
  /\ (valid (aggregator_solver.decodeSampleMsg b (Z.of_nat (length b))) = true
      <-> is_frame aggregator_solver.server_sample b)
  /\ (valid (sensor_aggregator.decodeSampleMsg b (Z.of_nat (length b))) = true
      <-> whole_piece b /\ (5 <= length b)%nat)
  /\ (~ (is_frame aggregator_solver.subscription_request b
         \/ is_frame aggregator_solver.subscription_response b) ->
      aggregator_solver.decodeSubscribeMsg b (Z.of_nat (length b)) = []).
Proof.
  split; [|split; [|split; [apply decodeSampleMsg_valid|split;
    [apply sensor_decodeSampleMsg_valid|apply decodeSubscribeMsg_not_frame]]]].
  - destruct d; cbn [kind_of].
    + apply decodeSnapshotRequest_rejects.
    + apply decodeAttrAliasMsg_rejects.
    + apply decodeRequestComplete_rejects.
    + apply decodeCancelRequest_rejects.
    + cbn [flag_after rejected].
      unfold world_model.client.decodeDataMessage.
      pose proof (decodeDataMessage_run_not_frame b) as Hn.
      destruct (world_model.client.decodeDataMessage_run b) as [[wd t] rd].
      cbn [fst snd] in *. intros [H|H].
      * specialize (Hn H). injection Hn as -> ->.
        destruct (outOfRange rd); reflexivity.
      * rewrite H. reflexivity.
    + apply decodeURISearch_rejects.
    + cbn [flag_after rejected].
      unfold world_model.client.decodeURISearchResponse.
      pose proof (decodeURISearchResponse_run_not_frame b) as Hn.
      destruct (world_model.client.decodeURISearchResponse_run b) as [res rd].
      cbn [fst snd] in *. intros [H|H].
      * rewrite (Hn H). destruct (outOfRange rd); reflexivity.
      * rewrite H. reflexivity.
    + apply decodeTypeAnnounceMsg_rejects.
    + apply decodeStartOnDemand_rejects.
    + cbn [flag_after rejected].
      unfold world_model.solver.decodeSolutionMsg.
      pose proof (decodeSolutionMsg_run_not_frame b) as Hn.
      destruct (world_model.solver.decodeSolutionMsg_run b) as [[c sols] rd].
      cbn [fst snd] in *. intros [H|H].
      * specialize (Hn H). injection Hn as -> ->.
        destruct (outOfRange rd); reflexivity.
      * rewrite H. reflexivity.
    + apply decodeCreateURI_rejects.
    + apply decodeExpireURI_rejects.
    + apply decodeDeleteURI_rejects.
    + apply decodeExpireAttribute_rejects.
    + apply decodeDeleteAttribute_rejects.
  - destruct p; cbn [patched_kind delegate rejected_patching].
    + apply decodeRangeRequest_rejects.
    + apply decodeStreamRequest_rejects.
    + apply decodeOriginAliasMsg_rejects.
    + apply decodeStopOnDemand_rejects.
Qed.

Lemma decoders_reject_witness :
  let b := [x00; x00; x00; x00] in
  let b' := [x00; x00; x00; x09; x02] in
  ((~ is_frame (kind_of SnapshotRequest) b
    \/ flag_after (5, 9) SnapshotRequest b = true)
   /\ (~ is_frame (patched_kind RangeRequest) b'
       \/ flag_after (5, 9) (delegate RangeRequest) (patched RangeRequest b')
          = true))
  /\ rejected (5, 9) SnapshotRequest b
  /\ rejected_patching (3, 4) (5, 9) RangeRequest b'.
Proof.
  intros b b'.
  assert (H : ~ is_frame (kind_of SnapshotRequest) b
              \/ flag_after (5, 9) SnapshotRequest b = true).
  { left. intros (_ & _ & Hb). vm_compute in Hb. discriminate. }
  assert (H' : ~ is_frame (patched_kind RangeRequest) b'
               \/ flag_after (5, 9) (delegate RangeRequest)
                             (patched RangeRequest b') = true).
  { left. intros (Hl & _). vm_compute in Hl. discriminate. }
  split; [split; [exact H|exact H']|].
  split.
  - exact (proj1 (decoders_reject (3, 4) (5, 9) SnapshotRequest RangeRequest b)
                 H).
  - exact (proj1 (proj2 (decoders_reject (3, 4) (5, 9) SnapshotRequest
                                         RangeRequest b')) H').
Defined.

(** C1 as stated fails.  A [server_sample] frame that ends after the kind
    byte latches the flag on every field and is still returned with
    [valid] set, by the decoder of the aggregator and by the one of the
    sensors; a [snapshot_request] frame that ends after the ticket latches
    the flag and is returned with ticket 7; and [decodeTypeAnnounceMsg],
    given a frame of another kind, returns the bytes after the header as
    the origin. *)
Lemma decoders_do_not_all_reject :
  let sample := [x00; x00; x00; x01; x06] in
  let snap := [x00; x00; x00; x05; x01; x00; x00; x00; x07] in
  let other := [x00; x00; x00; x03; x09; x00; x61] in
  (snd (aggregator_solver.decodeSampleMsg_run sample 5) = true
   /\ valid (aggregator_solver.decodeSampleMsg sample 5) = true
   /\ valid (sensor_aggregator.decodeSampleMsg sample 5) = true)
  /\ (outOfRange (snd (world_model.client.decodeSnapshotRequest_run (0, 0) snap))
      = true
      /\ snd (world_model.client.decodeSnapshotRequest (0, 0) snap) = 7)
  /\ (other !! 4%nat <> Some (byte_of_Z world_model.solver.type_announce)
      /\ world_model.solver.decodeTypeAnnounceMsg other = ([], u16 "a")).
Proof.
  vm_compute. repeat split; discriminate.
Qed.

(** ** The URI search response in general *)

Lemma push_strings_wire (strs : list world_model.URI) :
  forall (x : Z) (b : Buffer),
    world_model.push_strings strs (u32 x) b
    = (u32 (x + Z.of_nat (length (concat (map wire_sized_utf16 strs)))),
       b ++ concat (map wire_sized_utf16 strs)).
Proof.
  unfold world_model.push_strings.
  induction strs as [|s strs IH]; intros x b.
  - cbn. rewrite Z.add_0_r, app_nil_r. reflexivity.
  - cbn [fold_left]. rewrite pushBackSizedUTF16_wire. cbv beta iota.
    rewrite u32_add_l, u32_add_r, IH.
    cbn [map concat]. rewrite length_app, <- app_assoc.
    f_equal. f_equal. lia.
Qed.

(** [makeURISearchResponse] writes the kind and then the strings: the
    first field of the payload is the length prefix of the first string. *)
Lemma makeURISearchResponse_wire (uris : list world_model.URI) :
  let payload := be_bytes 1 world_model.client.uri_response
                 ++ concat (map wire_sized_utf16 uris) in
  world_model.client.makeURISearchResponse uris
  = be_bytes 4 (Z.of_nat (length payload)) ++ payload.
Proof.
  intros payload. subst payload.
  unfold world_model.client.makeURISearchResponse. cbn [pushBackVal].
  rewrite push_strings_wire. unfold pushBackValAt.
  rewrite be_bytes_u32, take_0. cbn [app].
  rewrite <- !app_assoc.
  rewrite (drop_app_length' (be_bytes 4 0))
    by (rewrite length_be_bytes; reflexivity).
  rewrite !length_app, !length_be_bytes.
  f_equal. f_equal. lia.
Qed.

Lemma readUTF16_length (k : nat) (r : BuffReader) :
  length (fst (readUTF16 k r)) = k.
Proof.
  revert r. induction k as [|k IH]; intros r; cbn [readUTF16]; [reflexivity|].
  destruct (readPrimitive 2 r) as [c r1]. specialize (IH r1).
  destruct (readUTF16 k r1). cbn [fst length] in *. lia.
Qed.

Lemma readUTF16_consumes_all (k : nat) (r : BuffReader) :
  consumes (2 * k) r (snd (readUTF16 k r)).
Proof.
  revert r. induction k as [|k IH]; intros r; cbn [readUTF16].
  - apply consumes_refl.
  - pose proof (readPrimitive_consumes 2 r) as H1.
    destruct (readPrimitive 2 r) as [c r1]. cbn [snd] in H1.
    specialize (IH r1). destruct (readUTF16 k r1) as [str r2]. cbn [snd] in *.
    apply (consumes_le (2 + 2 * k)); [|lia].
    eapply consumes_trans; eassumption.
Qed.

(** With the flag clear afterwards, a sized string took the room of its
    wire image. *)
Lemma readSizedUTF16_consumes_image (r : BuffReader) :
  consumes (length (wire_sized_utf16 (fst (readSizedUTF16 r))))
           r (snd (readSizedUTF16 r)).
Proof.
  unfold readSizedUTF16. pose proof (readPrimitive_consumes 4 r) as H1.
  destruct (readPrimitive 4 r) as [len r1]. cbn [snd] in H1.
  pose proof (readUTF16_consumes_all (Z.to_nat (len / 2)) r1) as H2.
  pose proof (readUTF16_length (Z.to_nat (len / 2)) r1) as H3.
  destruct (readUTF16 _ r1) as [str r2]. cbn [fst snd] in *.
  unfold wire_sized_utf16.
  rewrite length_app, length_be_bytes, length_wire_utf16, H3.
  eapply consumes_trans; eassumption.
Qed.

Lemma read_strings_consumes_image (k : nat) (r : BuffReader) :
  consumes
    (length (concat (map wire_sized_utf16 (fst (world_model.read_strings k r)))))
    r (snd (world_model.read_strings k r)).
Proof.
  revert r. induction k as [|k IH]; intros r; cbn [world_model.read_strings].
  - apply consumes_refl.
  - pose proof (readSizedUTF16_consumes_image r) as H1.
    destruct (readSizedUTF16 r) as [s r1]. cbn [fst snd] in H1.
    specialize (IH r1).
    destruct (world_model.read_strings k r1) as [ss r2]. cbn [fst snd] in *.
    cbn [map concat]. rewrite length_app.
    eapply consumes_trans; eassumption.
Qed.

(** The round trip of [uri_response] holds for the empty list only: the
    decoder spends four bytes on a count that the encoder has not written,
    so it cannot find the strings of a non-empty list in what is left. *)
Lemma uri_response_round_trip_iff (uris : list world_model.URI) :
  world_model.client.decodeURISearchResponse
    (world_model.client.makeURISearchResponse uris) = uris
  <-> uris = [].
Proof.
  split; [|intros ->; vm_compute; reflexivity].
  intros Hrt. destruct uris as [|u uris]; [reflexivity|exfalso].
  revert Hrt. rewrite makeURISearchResponse_wire.
  set (strs := concat (map wire_sized_utf16 (u :: uris))).
  set (b := be_bytes 4 _ ++ _).
  assert (Hb : length b = (5 + length strs)%nat).
  { subst b. rewrite !length_app, !length_be_bytes. lia. }
  unfold world_model.client.decodeURISearchResponse,
    world_model.client.decodeURISearchResponse_run.
  header_split world_model.client.uri_response.
  - subst r2.
    pose proof (readPrimitive_consumes 4 (mkBuffReader b 5 false)) as H1.
    destruct (readPrimitive 4 (mkBuffReader b 5 false)) as [total r3].
    cbn [snd] in H1.
    pose proof (read_strings_consumes_image (Z.to_nat total) r3) as H2.
    destruct (world_model.read_strings (Z.to_nat total) r3) as [res r4].
    cbn [fst snd] in H2. unfold outOfRange.
    destruct (out_of_range r4) eqn:F; [discriminate|].
    intros ->. fold strs in H2.
    pose proof (consumes_trans _ _ _ _ _ H1 H2) as (_ & _ & Hin & Hadv).
    cbn [buff cur_index] in Hin, Hadv.
    specialize (Hin ltac:(lia)). destruct (Hadv F) as [_ Hge]. lia.
  - destruct (outOfRange r2); discriminate.
Qed.

(** * Further properties of the codec, the protocols and the framer *)

(** ** Frames *)

Ltac u32_sum := rewrite_strat (bottomup (choice u32_add_l u32_add_r)).

Lemma length_frame (kind : Z) (body : list byte) :
  length (frame kind body) = (5 + length body)%nat.
Proof.
  unfold frame. rewrite !length_app, !length_be_bytes. reflexivity.
Qed.

Lemma frame_is_frame (kind : Z) (body : list byte) :
  Z.of_nat (length (frame kind body)) < 2 ^ 32 ->
  is_frame kind (frame kind body).
Proof.
  intros Hfit. pose proof (length_frame kind body) as Hl.
  unfold is_frame. split; [|split; [exact Hfit|]].
  - unfold frame at 2.
    rewrite take_app_length' by (rewrite length_be_bytes; reflexivity).
    rewrite be_val_be_bytes, length_app, length_be_bytes.
    change (256 ^ Z.of_nat 4) with (2 ^ 32). rewrite Z.mod_small by lia. lia.
  - unfold frame, Buffer.
    rewrite lookup_app_r by (rewrite length_be_bytes; lia).
    rewrite length_be_bytes. reflexivity.
Qed.

(** What the header reads of a decoder find on a frame that fits the
    length field. *)
Lemma frame_header (kind : Z) (body : list byte) :
  0 <= kind < 256 ->
  Z.of_nat (length (frame kind body)) < 2 ^ 32 ->
  readPrimitive 4 (BuffReader_new (frame kind body))
  = (Z.of_nat (length body) + 1, mkBuffReader (frame kind body) 4 false)
  /\ readPrimitive 1 (mkBuffReader (frame kind body) 4 false)
     = (kind, mkBuffReader (frame kind body) 5 false)
  /\ world_model.length_matches (frame kind body) (Z.of_nat (length body) + 1)
     = true
  /\ remaining (mkBuffReader (frame kind body) 5 false) = body.
Proof.
  intros Hk Hfit. pose proof (length_frame kind body) as Hl.
  destruct (is_frame_reads kind _ Hk (frame_is_frame kind body Hfit))
    as (E1 & E2 & E3).
  assert (Ht : be_val (take 4 (frame kind body)) = Z.of_nat (length body) + 1).
  { unfold frame.
    rewrite take_app_length' by (rewrite length_be_bytes; reflexivity).
    rewrite be_val_be_bytes, length_app, length_be_bytes.
    change (256 ^ Z.of_nat 4) with (2 ^ 32). rewrite Z.mod_small by lia. lia. }
  rewrite Ht in *. split; [exact E1|]. split; [exact E2|]. split; [exact E3|].
  reflexivity.
Qed.

(** Patching the kind byte of a frame gives the frame of the other kind. *)
Lemma frame_patch (kind kind' : Z) (body : list byte) :
  <[4%nat := byte_of_Z kind']> (frame kind body) = frame kind' body.
Proof.
  unfold frame, Buffer. rewrite !length_app, !length_be_bytes.
  rewrite insert_app_r_alt by (rewrite length_be_bytes; lia).
  rewrite length_be_bytes. reflexivity.
Qed.

(** The last step of every encoder that keeps a running total: the total
    is written over the four bytes that were pushed first. *)
Lemma frame_close (kind total : Z) (body : list byte) :
  total = u32 (Z.of_nat (1 + length body)) ->
  snd (pushBackValAt 4 total (be_bytes 4 0 ++ be_bytes 1 kind ++ body) 0)
  = frame kind body.
Proof.
  intros Ht. unfold pushBackValAt. cbn [snd]. rewrite take_0. cbn [app].
  rewrite (drop_app_length' (be_bytes 4 0))
    by (rewrite length_be_bytes; reflexivity).
  unfold frame. rewrite length_app, length_be_bytes.
  rewrite Ht, be_bytes_u32. reflexivity.
Qed.

(** A loop of pushes writes the images of the elements one after the
    other and adds their sizes to the running total. *)
Lemma push_loop_wire {A : Type} (body : Z * Buffer -> A -> Z * Buffer)
      (w : A -> list byte) :
  (forall x b a,
      body (u32 x, b) a = (u32 (x + Z.of_nat (length (w a))), b ++ w a)) ->
  forall (l : list A) (x : Z) (b : Buffer),
    fold_left body l (u32 x, b)
    = (u32 (x + Z.of_nat (length (concat (map w l)))),
       b ++ concat (map w l)).
Proof.
  intros Hbody. induction l as [|a l IH]; intros x b.
  - cbn. rewrite Z.add_0_r, app_nil_r. reflexivity.
  - cbn [fold_left]. rewrite Hbody, IH.
    cbn [map concat]. rewrite length_app, <- app_assoc.
    f_equal. f_equal. lia.
Qed.

Lemma pushBackUTF16_wire (b : Buffer) (str : list Z) :
  pushBackUTF16 b str
  = (u32 (Z.of_nat (length (wire_utf16 str))), b ++ wire_utf16 str).
Proof.
  unfold pushBackUTF16. change 0 with (u32 0) at 1.
  rewrite push_code_units. reflexivity.
Qed.

(** ** The codec of netbuffer: what is pushed is what is read *)

Lemma remaining_at (b enc : list byte) (flag : bool) :
  remaining (mkBuffReader (b ++ enc) (length b) flag) = enc.
Proof. unfold remaining. cbn [buff cur_index]. apply drop_app_length. Qed.

Lemma pushContainer_wire (d : list byte) (b : Buffer) :
  pushContainer d b = (u32 (Z.of_nat (length d)), b ++ d).
Proof.
  unfold pushContainer. change 0 with (u32 0) at 1.
  rewrite push_bytes. reflexivity.
Qed.

(** X1: a value of [n] bytes pushed at the end of a buffer is read back by
    a reader placed where the buffer ended, whatever is pushed after it;
    the reader moves [n] bytes on and its flag is left as it was. *)
Theorem pushBackVal_readPrimitive (n : nat) (v : Z) (b suf : Buffer)
        (flag : bool) :
  (0 < n)%nat -> 0 <= v < 256 ^ Z.of_nat n ->
  readPrimitive n (mkBuffReader (snd (pushBackVal n v b) ++ suf)
                                (length b) flag)
  = (v, mkBuffReader (snd (pushBackVal n v b) ++ suf) (length b + n) flag).
Proof.
  intros Hn Hv. cbn [pushBackVal snd]. rewrite <- app_assoc.
  destruct (readPrimitive_wire n v _ suf Hn (remaining_at b _ flag)) as [E _].
  rewrite E, Z.mod_small by exact Hv. reflexivity.
Qed.

Lemma pushBackVal_readPrimitive_witness :
  ((0 < 4)%nat /\ 0 <= 70000 < 256 ^ Z.of_nat 4)
  /\ readPrimitive 4 (mkBuffReader (snd (pushBackVal 4 70000 [x07]) ++ [xff])
                                   (length [x07]) false)
     = (70000, mkBuffReader (snd (pushBackVal 4 70000 [x07]) ++ [xff])
                            (length [x07] + 4) false).
Proof.
  assert (H1 : (0 < 4)%nat) by lia.
  assert (H2 : 0 <= 70000 < 256 ^ Z.of_nat 4) by (vm_compute; split; congruence).
  split; [split; assumption|].
  exact (pushBackVal_readPrimitive 4 70000 [x07] [xff] false H1 H2).
Defined.

(** X2: a string of 16-bit code units pushed with its byte length is read
    back by [readSizedUTF16] from where the buffer ended, and the reader
    stops right behind it with its flag unchanged. *)
Theorem pushBackSizedUTF16_readSizedUTF16 (str : list Z) (b suf : Buffer)
        (flag : bool) :
  wf_string str -> Z.of_nat (length str) * 2 < 2 ^ 32 ->
  readSizedUTF16 (mkBuffReader (snd (pushBackSizedUTF16 b str) ++ suf)
                               (length b) flag)
  = (str, mkBuffReader (snd (pushBackSizedUTF16 b str) ++ suf)
                       (length b + (4 + 2 * length str)) flag).
Proof.
  intros Hwf Hlen. rewrite pushBackSizedUTF16_wire. cbn [snd].
  rewrite <- app_assoc.
  destruct (readSizedUTF16_wire str _ suf Hwf Hlen (remaining_at b _ flag))
    as [E _].
  rewrite E. unfold advance, wire_sized_utf16. cbn [buff cur_index out_of_range].
  rewrite length_app, length_be_bytes, length_wire_utf16. reflexivity.
Qed.

Lemma pushBackSizedUTF16_readSizedUTF16_witness :
  (wf_string (u16 "on") /\ Z.of_nat (length (u16 "on")) * 2 < 2 ^ 32)
  /\ readSizedUTF16
       (mkBuffReader (snd (pushBackSizedUTF16 [x01] (u16 "on")) ++ [x02])
                     (length [x01]) false)
     = (u16 "on",
        mkBuffReader (snd (pushBackSizedUTF16 [x01] (u16 "on")) ++ [x02])
                     (length [x01] + (4 + 2 * length (u16 "on"))) false).
Proof.
  assert (H1 : wf_string (u16 "on"))
    by (repeat constructor; vm_compute; congruence).
  assert (H2 : Z.of_nat (length (u16 "on")) * 2 < 2 ^ 32) by reflexivity.
  split; [split; assumption|].
  exact (pushBackSizedUTF16_readSizedUTF16 (u16 "on") [x01] [x02] false H1 H2).
Defined.

(** X3: a byte vector pushed with its size is read back by
    [readSizedVector] from where the buffer ended. *)
Theorem pushSizedContainer_readSizedVector (d : list byte) (b suf : Buffer)
        (flag : bool) :
  Z.of_nat (length d) < 2 ^ 32 ->
  readSizedVector (mkBuffReader (snd (pushSizedContainer d b) ++ suf)
                                (length b) flag)
  = (d, mkBuffReader (snd (pushSizedContainer d b) ++ suf)
                     (length b + (4 + length d)) flag).
Proof.
  intros Hlen. rewrite pushSizedContainer_wire. cbn [snd].
  rewrite <- app_assoc.
  destruct (readSizedVector_wire d _ suf Hlen (remaining_at b _ flag))
    as [E _].
  rewrite E. unfold advance, wire_sized_bytes. cbn [buff cur_index out_of_range].
  rewrite length_app, length_be_bytes. reflexivity.
Qed.

Lemma pushSizedContainer_readSizedVector_witness :
  Z.of_nat (length [x0a; x0b; x0c]) < 2 ^ 32
  /\ readSizedVector
       (mkBuffReader (snd (pushSizedContainer [x0a; x0b; x0c] [x01]) ++ [x02])
                     (length [x01]) true)
     = ([x0a; x0b; x0c],
        mkBuffReader (snd (pushSizedContainer [x0a; x0b; x0c] [x01]) ++ [x02])
                     (length [x01] + (4 + length [x0a; x0b; x0c])) true).
Proof.
  assert (H1 : Z.of_nat (length [x0a; x0b; x0c]) < 2 ^ 32) by reflexivity.
  split; [assumption|].
  exact (pushSizedContainer_readSizedVector [x0a; x0b; x0c] [x01] [x02] true H1).
Defined.

(** X4: every push appends to the buffer, leaving what was there in place,
    and returns the number of bytes it appended: exactly for a single
    value, as a [uint32_t] (modulo [2^32]) for strings and containers. *)
Theorem push_returns_bytes_appended (b : Buffer) :
  (forall n v, exists enc,
      pushBackVal n v b = (Z.of_nat (length enc), b ++ enc))
  /\ (forall str, exists enc,
         pushBackUTF16 b str = (u32 (Z.of_nat (length enc)), b ++ enc)
         /\ length enc = (2 * length str)%nat)
  /\ (forall str, exists enc,
         pushBackSizedUTF16 b str = (u32 (Z.of_nat (length enc)), b ++ enc)
         /\ length enc = (4 + 2 * length str)%nat)
  /\ (forall d, exists enc,
         pushSizedContainer d b = (u32 (Z.of_nat (length enc)), b ++ enc)
         /\ length enc = (4 + length d)%nat)
  /\ (forall d,
         pushContainer d b = (u32 (Z.of_nat (length d)), b ++ d)).
Proof.
  split; [|split; [|split; [|split]]].
  - intros n v. exists (be_bytes n v). unfold pushBackVal.
    rewrite length_be_bytes. reflexivity.
  - intros str. exists (wire_utf16 str).
    split; [apply pushBackUTF16_wire | apply length_wire_utf16].
  - intros str. exists (wire_sized_utf16 str).
    split; [apply pushBackSizedUTF16_wire|].
    unfold wire_sized_utf16.
    rewrite length_app, length_be_bytes, length_wire_utf16. reflexivity.
  - intros d. exists (wire_sized_bytes d).
    split; [apply pushSizedContainer_wire|].
    unfold wire_sized_bytes. rewrite length_app, length_be_bytes. reflexivity.
  - intros d. apply pushContainer_wire.
Qed.

(** ** Readers never leave the buffer *)

Lemma readPrimitiveContainer_consumes (c : list byte) :
  forall r : BuffReader, consumes 0 r (snd (readPrimitiveContainer c r)).
Proof.
  induction c as [|x c IH]; intros r; cbn [readPrimitiveContainer].
  - apply consumes_refl.
  - destruct (cur_index r + 1 <=? length (buff r))%nat;
      [|apply consumes_refl].
    pose proof (readPrimitive_consumes 1 r) as H1.
    destruct (readPrimitive 1 r) as [v r1]. cbn [snd] in H1.
    pose proof (IH r1) as H2.
    destruct (readPrimitiveContainer c r1) as [rest r2]. cbn [snd] in *.
    exact (consumes_le _ 0 _ _ (consumes_trans _ _ _ _ _ H1 H2) ltac:(lia)).
Qed.

Lemma consumes_safe (n : nat) (r r' : BuffReader) :
  consumes n r r' ->
  (cur_index r <= length (buff r))%nat ->
  buff r' = buff r
  /\ (cur_index r <= cur_index r' <= length (buff r))%nat
  /\ (out_of_range r = true -> out_of_range r' = true).
Proof.
  intros (Hb & Hle & Hin & Hflag) Hr. split; [exact Hb|]. split; [lia|].
  intros Ht. destruct (out_of_range r') eqn:E; [reflexivity|].
  destruct (Hflag eq_refl) as [Hf _]. congruence.
Qed.

(** X5: a reader whose cursor lies inside its buffer stays inside it
    through every read, on any input: the buffer is not changed, the cursor
    never moves back nor beyond the end, and a flag that is set stays
    set. *)
Theorem readers_stay_in_buffer (r r' : BuffReader) :
  (cur_index r <= length (buff r))%nat ->
  (exists n, r' = snd (readPrimitive n r))
  \/ (exists k, r' = snd (readUTF16 k r))
  \/ r' = snd (readSizedUTF16 r)
  \/ r' = snd (readSizedVector r)
  \/ (exists c, r' = snd (readPrimitiveContainer c r)) ->
  buff r' = buff r
  /\ (cur_index r <= cur_index r' <= length (buff r))%nat
  /\ (out_of_range r = true -> out_of_range r' = true).
Proof.
  intros Hr [[n ->]|[[k ->]|[->|[->|[c ->]]]]].
  - exact (consumes_safe _ _ _ (readPrimitive_consumes n r) Hr).
  - exact (consumes_safe _ _ _ (readUTF16_consumes k r) Hr).
  - exact (consumes_safe _ _ _ (readSizedUTF16_consumes r) Hr).
  - exact (consumes_safe _ _ _ (readSizedVector_consumes r) Hr).
  - exact (consumes_safe _ _ _ (readPrimitiveContainer_consumes c r) Hr).
Qed.

Lemma readers_stay_in_buffer_witness :
  let r := mkBuffReader [x00; x00; x00; x09; x01] 2 false in
  (cur_index r <= length (buff r))%nat
  /\ (buff (snd (readSizedUTF16 r)) = buff r
      /\ (cur_index r <= cur_index (snd (readSizedUTF16 r))
          <= length (buff r))%nat
      /\ (out_of_range r = true
          -> out_of_range (snd (readSizedUTF16 r)) = true)).
Proof.
  intros r.
  assert (H1 : (cur_index r <= length (buff r))%nat) by (cbn; lia).
  split; [exact H1|].
  exact (readers_stay_in_buffer r (snd (readSizedUTF16 r)) H1
           (or_intror (or_intror (or_introl eq_refl)))).
Defined.

(** X6: [readSizedVector] does not notice a vector that is cut short: when
    the four bytes of the size are there, it returns the bytes that are
    left, at most as many as the size says, and leaves the flag alone. *)
Theorem readSizedVector_truncates_silently (r : BuffReader) :
  (cur_index r + 4 <= length (buff r))%nat ->
  fst (readSizedVector r)
  = take (Z.to_nat (be_val (take 4 (remaining r)))) (drop 4 (remaining r))
  /\ out_of_range (snd (readSizedVector r)) = out_of_range r.
Proof.
  intros Hr. unfold readSizedVector. rewrite readPrimitive_ok by exact Hr.
  rewrite Z.div_1_r.
  rewrite readSizedVector_loop_take by (cbn [cur_index buff]; lia).
  unfold remaining. cbn [fst snd advance buff cur_index out_of_range].
  rewrite drop_drop. split; reflexivity.
Qed.

Lemma readSizedVector_truncates_silently_witness :
  let r := BuffReader_new [x00; x00; x00; x05; x0a; x0b] in
  (cur_index r + 4 <= length (buff r))%nat
  /\ (fst (readSizedVector r)
      = take (Z.to_nat (be_val (take 4 (remaining r)))) (drop 4 (remaining r))
      /\ out_of_range (snd (readSizedVector r)) = out_of_range r).
Proof.
  intros r.
  assert (H1 : (cur_index r + 4 <= length (buff r))%nat) by (cbn; lia).
  split; [exact H1|].
  exact (readSizedVector_truncates_silently r H1).
Defined.

(** ** The free functions [readUTF16] and [readSizedUTF16] *)

Lemma readUTF16At_loop_units (b : Buffer) (start size : nat) :
  (start + 2 * size <= length b)%nat ->
  forall (fuel index : nat),
    ((size + 1) / 2 <= fuel + index)%nat ->
    readUTF16At_loop fuel b start size index
    = map (fun i => be_val (take 2 (drop (start + i * 2) b)))
          (seq index ((size + 1) / 2 - index)).
Proof.
  intros Hb. induction fuel as [|fuel IH]; intros index Hfuel.
  - cbn [readUTF16At_loop].
    replace ((size + 1) / 2 - index)%nat with 0%nat by lia. reflexivity.
  - cbn [readUTF16At_loop].
    destruct (Nat.ltb_spec (index * 2) size) as [Hlt|Hge].
    + assert (Hin : (start + index * 2 <=? length b)%nat = true)
        by (apply Nat.leb_le; lia).
      rewrite Hin. cbn [andb].
      assert (Hidx : (index < (size + 1) / 2)%nat).
      { apply Nat.div_le_lower_bound; lia. }
      replace ((size + 1) / 2 - index)%nat
        with (S ((size + 1) / 2 - S index)) by lia.
      cbn [seq map]. rewrite IH by lia. f_equal.
      unfold readPrimitiveAt.
      assert (Ht : (start + index * 2 + (2 - 1) <? length b)%nat = true)
        by (apply Nat.ltb_lt; lia).
      rewrite Ht. reflexivity.
    + cbn [andb].
      assert (Hidx : ((size + 1) / 2 <= index)%nat).
      { apply Nat.lt_succ_r. apply Nat.Div0.div_lt_upper_bound; lia. }
      replace ((size + 1) / 2 - index)%nat with 0%nat by lia. reflexivity.
Qed.

Lemma wire_utf16_unit (str : list Z) :
  wf_string str ->
  forall (b suf : list byte) (i : nat),
    (i < length str)%nat ->
    Some (be_val (take 2 (drop (length b + i * 2) (b ++ wire_utf16 str ++ suf))))
    = str !! i.
Proof.
  induction 1 as [|c str Hc Hstr IH]; intros b suf i Hi; [cbn in Hi; lia|].
  unfold wire_utf16. cbn [map concat]. fold (wire_utf16 str).
  destruct i as [|i].
  - rewrite Nat.add_0_r, drop_app_length, <- app_assoc.
    rewrite take_app_length' by (rewrite length_be_bytes; reflexivity).
    rewrite be_val_be_bytes. change ((c :: str) !! 0%nat) with (Some c).
    f_equal. apply Z.mod_small. exact Hc.
  - change ((c :: str) !! S i) with (str !! i). cbn [length] in Hi.
    rewrite <- (IH (b ++ be_bytes 2 c) suf i) by lia.
    rewrite length_app, length_be_bytes, <- !app_assoc.
    replace (length b + S i * 2)%nat with (length b + 2 + i * 2)%nat by lia.
    reflexivity.
Qed.

(** X7: the free function [readSizedUTF16(buff, start)] gives back only
    the first half (rounded up) of a string that [pushBackSizedUTF16] put
    at [start]: the loop of the free [readUTF16] compares a byte offset
    with the number of code units. *)
Theorem readSizedUTF16At_reads_half (str : list Z) (b suf : Buffer) :
  wf_string str -> Z.of_nat (length str) * 2 < 2 ^ 32 ->
  readSizedUTF16At (snd (pushBackSizedUTF16 b str) ++ suf) (length b)
  = take ((length str + 1) / 2) str.
Proof.
  intros Hwf Hlen. rewrite pushBackSizedUTF16_wire. cbn [snd].
  unfold wire_sized_utf16. rewrite <- !app_assoc.
  set (whole := b ++ be_bytes 4 (Z.of_nat (length str) * 2)
                  ++ wire_utf16 str ++ suf).
  assert (Hwhole : length whole
                   = (length b + 4 + 2 * length str + length suf)%nat).
  { subst whole. rewrite !length_app, length_be_bytes, length_wire_utf16. lia. }
  unfold readSizedUTF16At.
  assert (Hsize : readPrimitiveAt 4 whole (length b)
                  = Z.of_nat (length str) * 2).
  { unfold readPrimitiveAt.
    assert (Ht : (length b + (4 - 1) <? length whole)%nat = true)
      by (apply Nat.ltb_lt; lia).
    rewrite Ht. subst whole. rewrite drop_app_length.
    rewrite take_app_length' by (rewrite length_be_bytes; reflexivity).
    rewrite be_val_be_bytes. apply Z.mod_small.
    change (256 ^ Z.of_nat 4) with (2 ^ 32). lia. }
  rewrite Hsize, Z.div_mul by lia. rewrite Nat2Z.id.
  unfold readUTF16At.
  assert (Ht : (length whole - (length b + 4) <? length str * 2)%nat = false)
    by (apply Nat.ltb_ge; lia).
  rewrite Ht.
  assert (Hhalf : ((length str + 1) / 2 <= length str)%nat).
  { destruct str as [|c str']; [cbn; lia|].
    apply Nat.Div0.div_le_upper_bound. cbn [length]. lia. }
  rewrite readUTF16At_loop_units by lia.
  rewrite Nat.sub_0_r.
  apply list_eq. intros i.
  rewrite list_lookup_fmap, lookup_take.
  destruct (decide (i < (length str + 1) / 2)%nat) as [Hi|Hi].
  - rewrite lookup_seq_lt by exact Hi. cbn [fmap option_fmap option_map].
    assert (Hil : (i < length str)%nat) by lia.
    rewrite <- (wire_utf16_unit str Hwf (b ++ be_bytes 4 (Z.of_nat (length str) * 2))
                  suf i Hil).
    rewrite length_app, length_be_bytes, <- !app_assoc. reflexivity.
  - rewrite lookup_seq_ge by lia. reflexivity.
Qed.

Lemma readSizedUTF16At_reads_half_witness :
  (wf_string (u16 "lamp") /\ Z.of_nat (length (u16 "lamp")) * 2 < 2 ^ 32)
  /\ readSizedUTF16At (snd (pushBackSizedUTF16 [x01] (u16 "lamp")) ++ [x02])
                      (length [x01])
     = take ((length (u16 "lamp") + 1) / 2) (u16 "lamp").
Proof.
  assert (H1 : wf_string (u16 "lamp"))
    by (repeat constructor; vm_compute; congruence).
  assert (H2 : Z.of_nat (length (u16 "lamp")) * 2 < 2 ^ 32) by reflexivity.
  split; [split; assumption|].
  exact (readSizedUTF16At_reads_half (u16 "lamp") [x01] [x02] H1 H2).
Defined.

(** ** [uint128_t] and [grail_types::transmitter] *)

Lemma uint128_value_testbit (v : uint128_t) (n : Z) :
  0 <= lower v < 2 ^ 64 -> 0 <= n ->
  Z.testbit (uint128_value v) n
  = if n <? 64 then Z.testbit (lower v) n else Z.testbit (upper v) (n - 64).
Proof.
  intros Hl Hn. unfold uint128_value.
  destruct (Z.ltb_spec n 64) as [Hlt|Hge].
  - rewrite <- (Z.mod_pow2_bits_low _ 64 n) by lia.
    rewrite Z.add_comm, Z.mod_add by lia.
    rewrite Z.mod_small by exact Hl. reflexivity.
  - replace n with ((n - 64) + 64) at 1 by lia.
    rewrite <- Z.div_pow2_bits by lia.
    rewrite Z.add_comm, Z.div_add by lia.
    rewrite Z.div_small by exact Hl. reflexivity.
Qed.

(** X8: on values whose halves are 64-bit, [operator<], [operator==] and
    [operator&] of [uint128_t] are the order, the equality and the bitwise
    and of the 128-bit numbers the values stand for, and the constructor
    from [uint64_t] keeps the number. *)
Theorem uint128_operators_are_arithmetic (a b : uint128_t) :
  wf_uint128 a -> wf_uint128 b ->
  uint128_lt a b = (uint128_value a <? uint128_value b)
  /\ uint128_eq a b = (uint128_value a =? uint128_value b)
  /\ (uint128_eq a b = true <-> a = b)
  /\ uint128_value (uint128_and a b)
     = Z.land (uint128_value a) (uint128_value b)
  /\ wf_uint128 (uint128_and a b)
  /\ uint128_value (uint128_of_uint64 (lower a)) = lower a.
Proof.
  intros Ha Hb. pose proof Ha as [Hua Hla]. pose proof Hb as [Hub Hlb].
  assert (Hand : forall x y, 0 <= x < 2 ^ 64 -> 0 <= y < 2 ^ 64 ->
                             0 <= Z.land x y < 2 ^ 64).
  { intros x y Hx Hy. split; [apply Z.land_nonneg; lia|].
    destruct (Z.eq_dec (Z.land x y) 0) as [->|Hnz]; [lia|].
    assert (0 < Z.land x y) by (pose proof (Z.land_nonneg x y); lia).
    apply Z.log2_lt_pow2; [assumption|].
    destruct (Z.eq_dec x 0) as [->|Hx0]; [rewrite Z.land_0_l in Hnz; lia|].
    pose proof (Z.log2_land x y ltac:(lia) ltac:(lia)).
    assert (Z.log2 x < 64) by (apply Z.log2_lt_pow2; lia).
    lia. }
  split; [|split; [|split; [|split; [|split]]]].
  - unfold uint128_lt, uint128_value.
    destruct (Z.ltb_spec (upper a) (upper b)),
             (Z.eqb_spec (upper a) (upper b)),
             (Z.ltb_spec (lower a) (lower b)),
             (Z.ltb_spec (upper a * 2 ^ 64 + lower a)
                         (upper b * 2 ^ 64 + lower b));
      cbn; try reflexivity; nia.
  - unfold uint128_eq, uint128_value.
    destruct (Z.eqb_spec (upper a) (upper b)),
             (Z.eqb_spec (lower a) (lower b)),
             (Z.eqb_spec (upper a * 2 ^ 64 + lower a)
                         (upper b * 2 ^ 64 + lower b));
      cbn; try reflexivity; nia.
  - unfold uint128_eq. rewrite andb_true_iff, !Z.eqb_eq.
    destruct a, b; cbn [upper lower]. split.
    + intros [-> ->]. reflexivity.
    + intros H. injection H as -> ->. split; reflexivity.
  - apply Z.bits_inj'. intros n Hn.
    rewrite Z.land_spec, !uint128_value_testbit by
      (try assumption; cbn [uint128_and lower]; apply Hand; assumption).
    cbn [uint128_and upper lower].
    destruct (n <? 64); rewrite Z.land_spec; reflexivity.
  - split; cbn [uint128_and upper lower]; apply Hand; assumption.
  - unfold uint128_value, uint128_of_uint64. cbn [upper lower]. lia.
Qed.

Lemma uint128_operators_are_arithmetic_witness :
  let a := mk_uint128 1 6 in
  let b := mk_uint128 1 3 in
  (wf_uint128 a /\ wf_uint128 b)
  /\ (uint128_lt a b = (uint128_value a <? uint128_value b)
      /\ uint128_eq a b = (uint128_value a =? uint128_value b)
      /\ (uint128_eq a b = true <-> a = b)
      /\ uint128_value (uint128_and a b)
         = Z.land (uint128_value a) (uint128_value b)
      /\ wf_uint128 (uint128_and a b)
      /\ uint128_value (uint128_of_uint64 (lower a)) = lower a).
Proof.
  intros a b.
  assert (H1 : wf_uint128 a) by (vm_compute; repeat split; congruence).
  assert (H2 : wf_uint128 b) by (vm_compute; repeat split; congruence).
  split; [split; assumption|].
  exact (uint128_operators_are_arithmetic a b H1 H2).
Defined.

(** X9: [operator<] on transmitters is a strict total order and
    [operator==] is equality of the fields, so that transmitters can key an
    ordered map: nothing is below itself, the order is transitive, and two
    transmitters neither of which is below the other are the same. *)
Theorem transmitter_order (a b c : grail_types.transmitter) :
  grail_types.transmitter_lt a a = false
  /\ (grail_types.transmitter_lt a b = true ->
      grail_types.transmitter_lt b c = true ->
      grail_types.transmitter_lt a c = true)
  /\ (grail_types.transmitter_lt a b = true ->
      grail_types.transmitter_lt b a = false)
  /\ (grail_types.transmitter_eq a b = true <-> a = b)
  /\ (grail_types.transmitter_lt a b = false ->
      grail_types.transmitter_lt b a = false -> a = b).
Proof.
  destruct a as [pa [ua la]], b as [pb [ub lb]], c as [pc [uc lc]].
  unfold grail_types.transmitter_lt, grail_types.transmitter_eq,
    uint128_lt, uint128_eq.
  cbn [grail_types.phy grail_types.id upper lower].
  split; [|split; [|split; [|split]]].
  - rewrite !Z.ltb_irrefl, !andb_false_r. reflexivity.
  - rewrite !orb_true_iff, !andb_true_iff, !orb_true_iff, !andb_true_iff,
      !Z.ltb_lt, !Z.eqb_eq. lia.
  - intros H. apply not_true_iff_false. revert H.
    rewrite !orb_true_iff, !andb_true_iff, !orb_true_iff, !andb_true_iff,
      !Z.ltb_lt, !Z.eqb_eq. lia.
  - rewrite !andb_true_iff, !Z.eqb_eq. split.
    + intros (-> & -> & ->). reflexivity.
    + intros H. injection H as -> -> ->. repeat split.
  - intros H1 H2. apply not_true_iff_false in H1, H2. revert H1 H2.
    rewrite !orb_true_iff, !andb_true_iff, !orb_true_iff, !andb_true_iff,
      !Z.ltb_lt, !Z.eqb_eq.
    intros H1 H2. assert (pa = pb) by lia. subst.
    assert (ua = ub) by lia. subst. assert (la = lb) by lia. subst.
    reflexivity.
Qed.

(** X10: the two ways of reading a transmitter agree on every buffer,
    short ones included: [readTransmitterFromBuffer] on a fresh reader
    gives what [readTransmitter] gives, a field whose bytes are missing
    being zero, and the reader's flag tells whether the 17 bytes were
    there. *)
Theorem readTransmitter_agree (b : Buffer) :
  fst (grail_types.readTransmitterFromBuffer (BuffReader_new b))
  = grail_types.readTransmitter b
  /\ outOfRange (snd (grail_types.readTransmitterFromBuffer (BuffReader_new b)))
     = (length b <? 17)%nat.
Proof.
  unfold grail_types.readTransmitterFromBuffer, grail_types.readTransmitter,
    readPrimitive, readPrimitiveAt, BuffReader_new, outOfRange.
  cbn [cur_index buff out_of_range].
  destruct (Nat.leb_spec (0 + 1) (length b)) as [H1|H1];
    cbn [cur_index buff out_of_range].
  - destruct (Nat.leb_spec (0 + 1 + 8) (length b)) as [H2|H2];
      cbn [cur_index buff out_of_range].
    + destruct (Nat.leb_spec (0 + 1 + 8 + 8) (length b)) as [H3|H3];
        cbn [fst snd out_of_range];
        destruct (Nat.ltb_spec (0 + (1 - 1)) (length b));
        destruct (Nat.ltb_spec (1 + (8 - 1)) (length b));
        destruct (Nat.ltb_spec (1 + 8 + (8 - 1)) (length b));
        destruct (Nat.ltb_spec (length b) 17);
        try lia; split; reflexivity.
    + destruct (Nat.leb_spec (0 + 1 + 8) (length b)) as [H3|H3]; [lia|].
      cbn [fst snd out_of_range].
      destruct (Nat.ltb_spec (0 + (1 - 1)) (length b));
        destruct (Nat.ltb_spec (1 + (8 - 1)) (length b));
        destruct (Nat.ltb_spec (1 + 8 + (8 - 1)) (length b));
        destruct (Nat.ltb_spec (length b) 17);
        try lia; split; reflexivity.
  - destruct (Nat.leb_spec (0 + 8) (length b)) as [H2|H2]; [lia|].
    cbn [fst snd out_of_range cur_index buff].
    destruct (Nat.leb_spec (0 + 8) (length b)) as [H3|H3]; [lia|].
    cbn [fst snd out_of_range].
    destruct (Nat.ltb_spec (0 + (1 - 1)) (length b));
      destruct (Nat.ltb_spec (1 + (8 - 1)) (length b));
      destruct (Nat.ltb_spec (1 + 8 + (8 - 1)) (length b));
      destruct (Nat.ltb_spec (length b) 17);
      try lia; split; reflexivity.
Qed.

Lemma length_unpack_loop {T : Type} (read_fun : BuffReader -> T * BuffReader)
      (total : nat) :
  forall reader,
    length (fst (grail_types.unpack_loop read_fun total reader)) = total.
Proof.
  induction total as [|k IH]; intros reader; cbn [grail_types.unpack_loop].
  - reflexivity.
  - destruct (read_fun reader) as [x r1]. specialize (IH r1).
    destruct (grail_types.unpack_loop read_fun k r1) as [xs r2].
    cbn [fst length] in *. rewrite IH. reflexivity.
Qed.

(** X11: [unpackGRAILVector] trusts the count at the head of the buffer:
    it returns as many elements as the count says whether or not the
    buffer holds them, and none when the count itself is cut short. *)
Theorem unpackGRAILVector_length {T : Type}
        (read_fun : BuffReader -> T * BuffReader) (b : Buffer) :
  length (grail_types.unpackGRAILVector read_fun b)
  = if (4 <=? length b)%nat then Z.to_nat (be_val (take 4 b)) else 0%nat.
Proof.
  unfold grail_types.unpackGRAILVector, readPrimitive, BuffReader_new.
  cbn [cur_index buff out_of_range].
  destruct (Nat.leb_spec (0 + 4) (length b)) as [H|H].
  - rewrite length_unpack_loop, drop_0.
    destruct (Nat.leb_spec 4 (length b)); [reflexivity|lia].
  - rewrite length_unpack_loop.
    destruct (Nat.leb_spec 4 (length b)); [lia|reflexivity].
Qed.

(** ** Round trips of the client protocol *)

Lemma frame_kind (kind : Z) (body : list byte) :
  frame kind body !! 4%nat = Some (byte_of_Z kind).
Proof.
  unfold frame, Buffer.
  rewrite lookup_app_r by (rewrite length_be_bytes; lia).
  rewrite length_be_bytes. reflexivity.
Qed.

Lemma frame_other_kind (kind kind' : Z) (body : list byte) :
  byte_of_Z kind <> byte_of_Z kind' -> ~ is_frame kind' (frame kind body).
Proof.
  intros Hne (_ & _ & H). rewrite frame_kind in H. congruence.
Qed.

Lemma makeRequestComplete_wire (ticket : Z) :
  world_model.client.makeRequestComplete ticket
  = frame world_model.client.request_complete (be_bytes 4 ticket).
Proof. reflexivity. Qed.

Lemma makeCancelRequest_wire (ticket : Z) :
  world_model.client.makeCancelRequest ticket
  = frame world_model.client.cancel_request (be_bytes 4 ticket).
Proof. reflexivity. Qed.

Lemma ticket_frame_fits (kind ticket : Z) :
  Z.of_nat (length (frame kind (be_bytes 4 ticket))) < 2 ^ 32.
Proof. rewrite length_frame, length_be_bytes. reflexivity. Qed.

(** X12: a ticket below [2^32] survives [makeRequestComplete] followed by
    [decodeRequestComplete], and [makeCancelRequest] followed by
    [decodeCancelRequest]; each decoder answers 0 to the frame of the
    other kind. *)
Theorem ticket_messages_round_trip (ticket : Z) :
  0 <= ticket < 2 ^ 32 ->
  world_model.client.decodeRequestComplete
    (world_model.client.makeRequestComplete ticket) = ticket
  /\ world_model.client.decodeCancelRequest
       (world_model.client.makeCancelRequest ticket) = ticket
  /\ world_model.client.decodeRequestComplete
       (world_model.client.makeCancelRequest ticket) = 0
  /\ world_model.client.decodeCancelRequest
       (world_model.client.makeRequestComplete ticket) = 0.
Proof.
  intros Ht. rewrite makeRequestComplete_wire, makeCancelRequest_wire.
  split; [|split; [|split]].
  - destruct (frame_header world_model.client.request_complete
                (be_bytes 4 ticket) ltac:(split; [discriminate|reflexivity])
                (ticket_frame_fits _ _)) as (E1 & E2 & E3 & R2).
    unfold world_model.client.decodeRequestComplete,
      world_model.client.decodeRequestComplete_run.
    rewrite E1, E2, E3. cbn [andb Z.eqb world_model.client.request_complete
                                  Pos.eqb].
    apply eq_sym in R2. rewrite <- (app_nil_r (be_bytes 4 ticket)) in R2 at 1.
    apply eq_sym in R2.
    destruct (readPrimitive_wire 4 _ _ _ ltac:(lia) R2) as [E _].
    rewrite E. cbn [fst]. apply Z.mod_small. exact Ht.
  - destruct (frame_header world_model.client.cancel_request
                (be_bytes 4 ticket) ltac:(split; [discriminate|reflexivity])
                (ticket_frame_fits _ _)) as (E1 & E2 & E3 & R2).
    unfold world_model.client.decodeCancelRequest,
      world_model.client.decodeCancelRequest_run.
    rewrite E1, E2, E3. cbn [andb Z.eqb world_model.client.cancel_request
                                  Pos.eqb].
    apply eq_sym in R2. rewrite <- (app_nil_r (be_bytes 4 ticket)) in R2 at 1.
    apply eq_sym in R2.
    destruct (readPrimitive_wire 4 _ _ _ ltac:(lia) R2) as [E _].
    rewrite E. cbn [fst]. apply Z.mod_small. exact Ht.
  - apply decodeRequestComplete_rejects. left.
    apply frame_other_kind. discriminate.
  - apply decodeCancelRequest_rejects. left.
    apply frame_other_kind. discriminate.
Qed.

Lemma ticket_messages_round_trip_witness :
  0 <= 4242 < 2 ^ 32
  /\ (world_model.client.decodeRequestComplete
        (world_model.client.makeRequestComplete 4242) = 4242
      /\ world_model.client.decodeCancelRequest
           (world_model.client.makeCancelRequest 4242) = 4242
      /\ world_model.client.decodeRequestComplete
           (world_model.client.makeCancelRequest 4242) = 0
      /\ world_model.client.decodeCancelRequest
           (world_model.client.makeRequestComplete 4242) = 0).
Proof.
  assert (H : 0 <= 4242 < 2 ^ 32) by (vm_compute; split; congruence).
  split; [exact H|]. exact (ticket_messages_round_trip 4242 H).
Defined.

Lemma makeURISearch_wire (uri : world_model.URI) :
  world_model.client.makeURISearch uri
  = frame world_model.client.uri_search (wire_utf16 uri).
Proof.
  unfold world_model.client.makeURISearch. cbn [pushBackVal].
  rewrite pushBackUTF16_wire. u32_sum.
  apply frame_close. f_equal. lia.
Qed.

(** X13: a search expression of 16-bit code units whose frame fits the
    length field survives [makeURISearch] followed by [decodeURISearch]:
    the decoder takes the whole rest of the frame as the expression. *)
Theorem uri_search_round_trip (uri : world_model.URI) :
  wf_string uri ->
  Z.of_nat (length (world_model.client.makeURISearch uri)) < 2 ^ 32 ->
  world_model.client.decodeURISearch (world_model.client.makeURISearch uri)
  = uri.
Proof.
  intros Hwf Hfit. rewrite makeURISearch_wire in *.
  destruct (frame_header world_model.client.uri_search (wire_utf16 uri)
              ltac:(split; [discriminate|reflexivity]) Hfit)
    as (E1 & E2 & E3 & R2).
  unfold world_model.client.decodeURISearch,
    world_model.client.decodeURISearch_run.
  rewrite E1, E2, E3. cbn [andb Z.eqb world_model.client.uri_search Pos.eqb].
  cbn [cur_index]. rewrite length_frame, length_wire_utf16.
  replace ((5 + 2 * length uri - 5) / 2)%nat with (length uri)
    by (replace (5 + 2 * length uri - 5)%nat with (length uri * 2)%nat by lia;
        rewrite Nat.div_mul by lia; reflexivity).
  apply eq_sym in R2. rewrite <- (app_nil_r (wire_utf16 uri)) in R2 at 1.
  apply eq_sym in R2.
  destruct (readUTF16_wire uri Hwf _ _ R2) as [E _].
  rewrite E. reflexivity.
Qed.

Lemma uri_search_round_trip_witness :
  (wf_string (u16 "lamp.*")
   /\ Z.of_nat (length (world_model.client.makeURISearch (u16 "lamp.*")))
      < 2 ^ 32)
  /\ world_model.client.decodeURISearch
       (world_model.client.makeURISearch (u16 "lamp.*"))
     = u16 "lamp.*".
Proof.
  assert (H1 : wf_string (u16 "lamp.*"))
    by (repeat constructor; vm_compute; congruence).
  assert (H2 : Z.of_nat (length (world_model.client.makeURISearch
                                   (u16 "lamp.*"))) < 2 ^ 32)
    by reflexivity.
  split; [split; assumption|].
  exact (uri_search_round_trip (u16 "lamp.*") H1 H2).
Defined.

(** ** Reads that take an encoding off the buffer *)

Lemma decodes_prim (n : nat) (v : Z) :
  (0 < n)%nat -> 0 <= v < 256 ^ Z.of_nat n ->
  decodes (readPrimitive n) (be_bytes n v) v.
Proof.
  intros Hn Hv r suf R.
  destruct (readPrimitive_wire n v r suf Hn R) as [E R'].
  rewrite length_be_bytes, E, Z.mod_small by exact Hv.
  split; [reflexivity|exact R'].
Qed.

Lemma decodes_u32 (v : Z) :
  0 <= v < 2 ^ 32 -> decodes (readPrimitive 4) (be_bytes 4 v) v.
Proof. intros H. apply decodes_prim; [lia|exact H]. Qed.

Lemma decodes_u8 (v : Z) :
  0 <= v < 2 ^ 8 -> decodes (readPrimitive 1) (be_bytes 1 v) v.
Proof. intros H. apply decodes_prim; [lia|exact H]. Qed.

Lemma decodes_int64 (t : Z) :
  - 2 ^ 63 <= t < 2 ^ 63 -> decodes readPrimitive_int64 (be_bytes 8 t) t.
Proof.
  intros Ht r suf R. unfold readPrimitive_int64.
  destruct (readPrimitive_wire 8 t r suf ltac:(lia) R) as [E R'].
  rewrite length_be_bytes, E, to_int64_wrap by exact Ht.
  split; [reflexivity|exact R'].
Qed.

Lemma be_val_app (a b : list byte) :
  be_val (a ++ b) = be_val a * 256 ^ Z.of_nat (length b) + be_val b.
Proof.
  induction b as [|x b IH] using rev_ind.
  - rewrite app_nil_r. cbn. lia.
  - rewrite app_assoc, !be_val_snoc, IH, length_app. cbn [length].
    replace (Z.of_nat (length b + 1)) with (Z.of_nat (length b) + 1) by lia.
    rewrite Z.pow_add_r by lia. change (be_val []) with 0. lia.
Qed.

Lemma decodes_uint128 (v : uint128_t) :
  wf_uint128 v -> decodes readPrimitive_uint128 (wire_uint128 v) v.
Proof.
  intros [Hu Hl] r suf R. unfold readPrimitive_uint128.
  assert (Hlen : length (wire_uint128 v) = 16%nat)
    by (unfold wire_uint128; rewrite length_app, !length_be_bytes; reflexivity).
  rewrite readPrimitive_ok
    by (pose proof (remaining_fits r _ _ R); lia).
  fold (remaining r). rewrite R.
  assert (Hv : be_val (take 16 (wire_uint128 v ++ suf))
               = upper v * 2 ^ 64 + lower v).
  { rewrite <- Hlen, take_app_length. unfold wire_uint128.
    rewrite be_val_app, !be_val_be_bytes, length_be_bytes.
    change (256 ^ Z.of_nat 8) with (2 ^ 64).
    rewrite !Z.mod_small by assumption. reflexivity. }
  rewrite Hv.
  rewrite Z.div_add_l, Z.div_small, Z.add_0_r by lia.
  rewrite Z.add_comm, Z.mod_add, Z.mod_small by lia.
  rewrite Hlen. destruct v as [u l]. cbn [upper lower].
  split; [reflexivity|].
  rewrite <- Hlen. apply remaining_advance. exact R.
Qed.

Lemma decodes_sized_utf16 (str : list Z) :
  wf_string str -> Z.of_nat (length str) * 2 < 2 ^ 32 ->
  decodes readSizedUTF16 (wire_sized_utf16 str) str.
Proof. intros Hwf Hlen r suf R. exact (readSizedUTF16_wire str r suf Hwf Hlen R). Qed.

Lemma decodes_sized_vector (d : list byte) :
  Z.of_nat (length d) < 2 ^ 32 ->
  decodes readSizedVector (wire_sized_bytes d) d.
Proof. intros Hlen r suf R. exact (readSizedVector_wire d r suf Hlen R). Qed.

(** One read after the other takes the two encodings one after the
    other. *)
Lemma decodes_bind {A B : Type} (f : BuffReader -> A * BuffReader)
      (g : A -> BuffReader -> B * BuffReader) (e1 e2 : list byte)
      (a : A) (b : B) :
  decodes f e1 a -> decodes (g a) e2 b ->
  decodes (fun r => let '(x, r1) := f r in g x r1) (e1 ++ e2) b.
Proof.
  intros Hf Hg r suf R. rewrite <- app_assoc in R.
  destruct (Hf r _ R) as [E1 R1]. destruct (Hg _ _ R1) as [E2 R2].
  rewrite E1, E2, advance_advance in *. rewrite length_app.
  split; [reflexivity|exact R2].
Qed.

Lemma decodes_map {A B : Type} (f : BuffReader -> A * BuffReader)
      (h : A -> B) (e : list byte) (a : A) :
  decodes f e a ->
  decodes (fun r => let '(x, r1) := f r in (h x, r1)) e (h a).
Proof.
  intros Hf r suf R. destruct (Hf r _ R) as [E1 R1].
  rewrite E1. split; [reflexivity|exact R1].
Qed.

(** A counted loop of reads takes the encodings of the elements one after
    the other. *)
Lemma decodes_loop {A : Type} (loop : nat -> BuffReader -> list A * BuffReader)
      (read1 : BuffReader -> A * BuffReader) (w : A -> list byte) :
  (forall r, loop O r = ([], r)) ->
  (forall k r, loop (S k) r
               = let '(a, r1) := read1 r in
                 let '(rest, r2) := loop k r1 in (a :: rest, r2)) ->
  forall l : list A,
    Forall (fun a => decodes read1 (w a) a) l ->
    decodes (loop (length l)) (concat (map w l)) l.
Proof.
  intros H0 HS. induction 1 as [|a l Ha Hl IH]; intros r suf R.
  - cbn [length map concat]. rewrite H0, advance_0.
    split; [reflexivity|exact R].
  - cbn [length map concat] in *. rewrite <- app_assoc in R.
    destruct (Ha r _ R) as [E1 R1]. destruct (IH _ _ R1) as [E2 R2].
    rewrite HS, E1, E2, advance_advance in *. rewrite length_app.
    split; [reflexivity|exact R2].
Qed.

(** A part of an encoding is no longer than the whole. *)
Lemma concat_map_length_le {A : Type} (w : A -> list byte) (l : list A)
      (a : A) :
  elem_of a l -> (length (w a) <= length (concat (map w l)))%nat.
Proof.
  induction 1 as [a l|a x l Hin IH]; cbn [map concat]; rewrite length_app; lia.
Qed.

Lemma concat_map_count_le {A : Type} (w : A -> list byte) (l : list A) :
  (forall a, (1 <= length (w a))%nat) ->
  (length l <= length (concat (map w l)))%nat.
Proof.
  intros Hw. induction l as [|x l IH]; [cbn; lia|].
  cbn [map concat length]. rewrite length_app. specialize (Hw x). lia.
Qed.

Lemma frame_body (kind : Z) (body : list byte) :
  remaining (mkBuffReader (frame kind body) 5 false) = body ++ [].
Proof. rewrite app_nil_r. reflexivity. Qed.

(** [read_off H R]: the next read takes the encoding at the head of [R]
    off the buffer. *)
Ltac read_off H R :=
  let E := fresh "E" in
  let R' := fresh "R" in
  destruct (H _ _ R) as [E R']; rewrite E; clear E R; rename R' into R.

Lemma length_wire_sized_utf16 (str : list Z) :
  length (wire_sized_utf16 str) = (4 + 2 * length str)%nat.
Proof.
  unfold wire_sized_utf16.
  rewrite length_app, length_be_bytes, length_wire_utf16. reflexivity.
Qed.

Lemma decodes_strings (strs : list world_model.URI) :
  Forall wf_string strs ->
  Z.of_nat (length (concat (map wire_sized_utf16 strs))) < 2 ^ 32 ->
  decodes (world_model.read_strings (length strs))
          (concat (map wire_sized_utf16 strs)) strs.
Proof.
  intros Hwf Hfit.
  apply (decodes_loop world_model.read_strings readSizedUTF16).
  - reflexivity.
  - intros k r. cbn [world_model.read_strings].
    destruct (readSizedUTF16 r) as [s r1]. reflexivity.
  - apply Forall_forall. intros s Hin.
    apply decodes_sized_utf16.
    + rewrite Forall_forall in Hwf. apply Hwf. exact Hin.
    + pose proof (concat_map_length_le wire_sized_utf16 strs s Hin) as Hle.
      rewrite length_wire_sized_utf16 in Hle. lia.
Qed.

Lemma strings_count_le (strs : list world_model.URI) :
  (length strs <= length (concat (map wire_sized_utf16 strs)))%nat.
Proof.
  apply concat_map_count_le. intros s.
  rewrite length_wire_sized_utf16. lia.
Qed.

Lemma makeSnapshotRequest_wire (rq : world_model.client.Request) (ticket : Z) :
  world_model.client.makeSnapshotRequest rq ticket
  = frame world_model.client.snapshot_request (wire_request rq ticket).
Proof.
  unfold world_model.client.makeSnapshotRequest. cbn [pushBackVal].
  rewrite pushBackSizedUTF16_wire. u32_sum.
  rewrite push_strings_wire. u32_sum.
  rewrite be_bytes_u32, <- !app_assoc.
  apply frame_close. unfold wire_request.
  rewrite !length_app, !length_be_bytes. f_equal. lia.
Qed.

Lemma decodeSnapshotRequest_frame (uninit : Z * Z)
      (rq : world_model.client.Request) (ticket : Z) :
  wf_request rq -> 0 <= ticket < 2 ^ 32 ->
  Z.of_nat (length (frame world_model.client.snapshot_request
                          (wire_request rq ticket))) < 2 ^ 32 ->
  world_model.client.decodeSnapshotRequest uninit
    (frame world_model.client.snapshot_request (wire_request rq ticket))
  = (rq, ticket).
Proof.
  intros (Huri & Hattrs & Hstart & Hstop) Ht Hfit.
  destruct (frame_header world_model.client.snapshot_request _
              ltac:(split; [discriminate|reflexivity]) Hfit)
    as (E1 & E2 & E3 & _).
  pose proof (frame_body world_model.client.snapshot_request
                (wire_request rq ticket)) as R.
  unfold world_model.client.decodeSnapshotRequest,
    world_model.client.decodeSnapshotRequest_run.
  rewrite E1, E2, E3. clear E1 E2 E3.
  cbn [andb Z.eqb world_model.client.snapshot_request Pos.eqb].
  rewrite length_frame in Hfit.
  unfold wire_request in R at 2. unfold wire_request in Hfit.
  rewrite !length_app, !length_be_bytes, length_wire_sized_utf16 in Hfit.
  pose proof (strings_count_le (world_model.client.attributes rq)) as Hcount.
  rewrite <- !app_assoc in R.
  read_off (decodes_u32 ticket Ht) R.
  read_off (decodes_sized_utf16 (world_model.client.object_uri rq) Huri
              ltac:(lia)) R.
  read_off (decodes_u32 (Z.of_nat (length (world_model.client.attributes rq)))
              ltac:(lia)) R.
  rewrite Nat2Z.id.
  read_off (decodes_strings (world_model.client.attributes rq) Hattrs
              ltac:(lia)) R.
  read_off (decodes_int64 (world_model.client.start rq) Hstart) R.
  read_off (decodes_int64 (world_model.client.stop_period rq) Hstop) R.
  cbn [outOfRange advance out_of_range]. destruct rq; reflexivity.
Qed.

(** X14: a request with well-formed strings and times and a ticket below
    [2^32], whose frame fits the length field, survives
    [makeSnapshotRequest] followed by [decodeSnapshotRequest], whatever the
    decoder's local held before. *)
Theorem snapshot_request_round_trip (uninit : Z * Z)
        (rq : world_model.client.Request) (ticket : Z) :
  wf_request rq -> 0 <= ticket < 2 ^ 32 ->
  Z.of_nat (length (world_model.client.makeSnapshotRequest rq ticket))
  < 2 ^ 32 ->
  world_model.client.decodeSnapshotRequest uninit
    (world_model.client.makeSnapshotRequest rq ticket)
  = (rq, ticket).
Proof.
  intros Hwf Ht Hfit. rewrite makeSnapshotRequest_wire in *.
  exact (decodeSnapshotRequest_frame uninit rq ticket Hwf Ht Hfit).
Qed.

Lemma lamp_request_wf : wf_request lamp_request.
Proof.
  unfold wf_request, wf_string.
  repeat first [split | constructor]; vm_compute; congruence.
Qed.

Lemma snapshot_request_round_trip_witness :
  (wf_request lamp_request /\ 0 <= 7 < 2 ^ 32
   /\ Z.of_nat (length (world_model.client.makeSnapshotRequest lamp_request 7))
      < 2 ^ 32)
  /\ world_model.client.decodeSnapshotRequest (0, 0)
       (world_model.client.makeSnapshotRequest lamp_request 7)
     = (lamp_request, 7).
Proof.
  assert (H1 : 0 <= 7 < 2 ^ 32) by (vm_compute; split; congruence).
  assert (H2 : Z.of_nat (length (world_model.client.makeSnapshotRequest
                                   lamp_request 7)) < 2 ^ 32)
    by reflexivity.
  split; [split; [exact lamp_request_wf|split; assumption]|].
  exact (snapshot_request_round_trip (0, 0) lamp_request 7
           lamp_request_wf H1 H2).
Defined.

Lemma makeRangeRequest_wire (rq : world_model.client.Request) (ticket : Z) :
  world_model.client.makeRangeRequest rq ticket
  = frame world_model.client.range_request (wire_request rq ticket).
Proof.
  unfold world_model.client.makeRangeRequest.
  rewrite makeSnapshotRequest_wire. apply frame_patch.
Qed.

Lemma makeStreamRequest_wire (rq : world_model.client.Request) (ticket : Z) :
  world_model.client.makeStreamRequest rq ticket
  = frame world_model.client.stream_request (wire_request rq ticket).
Proof.
  unfold world_model.client.makeStreamRequest.
  rewrite makeSnapshotRequest_wire. apply frame_patch.
Qed.

(** A frame of another kind holds the five bytes of the header, so the
    flag stays clear and [decodeSnapshotRequest] returns its local as it
    was declared. *)
Lemma decodeSnapshotRequest_other_kind (uninit : Z * Z) (kind : Z)
      (body : list byte) :
  0 <= kind < 256 -> kind <> world_model.client.snapshot_request ->
  Z.of_nat (length (frame kind body)) < 2 ^ 32 ->
  world_model.client.decodeSnapshotRequest uninit (frame kind body)
  = (world_model.client.Request_uninit uninit, 0).
Proof.
  intros Hk Hne Hfit.
  destruct (frame_header kind body Hk Hfit) as (E1 & E2 & E3 & _).
  unfold world_model.client.decodeSnapshotRequest,
    world_model.client.decodeSnapshotRequest_run.
  rewrite E1, E2, E3. cbn [andb].
  destruct (Z.eqb_spec kind world_model.client.snapshot_request);
    [contradiction|reflexivity].
Qed.

(** X15: under the same conditions a request survives [makeRangeRequest]
    followed by [decodeRangeRequest], and [makeStreamRequest] followed by
    [decodeStreamRequest]; the three request kinds are not taken for one
    another: to a frame of another of the three kinds each of the three
    decoders answers ticket 0 and a request without URI and attributes,
    whose [start] and [stop_period] are what the local it returns held
    when it was declared. *)
Theorem range_stream_request_round_trip (uninit_empty uninit : Z * Z)
        (rq : world_model.client.Request) (ticket : Z) :
  wf_request rq -> 0 <= ticket < 2 ^ 32 ->
  Z.of_nat (length (world_model.client.makeSnapshotRequest rq ticket))
  < 2 ^ 32 ->
  let snapshot := world_model.client.makeSnapshotRequest rq ticket in
  let range := world_model.client.makeRangeRequest rq ticket in
  let stream := world_model.client.makeStreamRequest rq ticket in
  let decodeSnapshotRequest :=
    world_model.client.decodeSnapshotRequest uninit in
  let decodeRangeRequest :=
    world_model.client.decodeRangeRequest uninit_empty uninit in
  let decodeStreamRequest :=
    world_model.client.decodeStreamRequest uninit_empty uninit in
  let local := (world_model.client.Request_uninit uninit, 0) in
  let empty := (world_model.client.Request_uninit uninit_empty, 0) in
  fst (decodeRangeRequest range) = (rq, ticket)
  /\ fst (decodeStreamRequest stream) = (rq, ticket)
  /\ decodeSnapshotRequest range = local
  /\ decodeSnapshotRequest stream = local
  /\ fst (decodeRangeRequest snapshot) = empty
  /\ fst (decodeRangeRequest stream) = empty
  /\ fst (decodeStreamRequest snapshot) = empty
  /\ fst (decodeStreamRequest range) = empty.
Proof.
  intros Hwf Ht Hfit snapshot range stream dsnap drange dstream local empty.
  subst snapshot range stream dsnap drange dstream local empty.
  rewrite makeRangeRequest_wire, makeStreamRequest_wire.
  rewrite makeSnapshotRequest_wire in *.
  pose proof (decodeSnapshotRequest_frame uninit rq ticket Hwf Ht Hfit)
    as Hsnap.
  assert (Hfit' : forall k,
             Z.of_nat (length (frame k (wire_request rq ticket))) < 2 ^ 32).
  { intros k. rewrite length_frame in *. exact Hfit. }
  assert (Hlen : forall k, bool_decide
                   (5 <= length (frame k (wire_request rq ticket)))%nat = true).
  { intros k. apply bool_decide_eq_true. rewrite length_frame. lia. }
  unfold world_model.client.decodeRangeRequest,
    world_model.client.decodeStreamRequest.
  rewrite !Hlen, !frame_kind, !frame_patch.
  cbn [from_option andb fst]. rewrite Hsnap.
  split; [reflexivity|]. split; [reflexivity|].
  split.
  { apply decodeSnapshotRequest_other_kind;
      [vm_compute; split; [discriminate|reflexivity]|discriminate|apply Hfit']. }
  split.
  { apply decodeSnapshotRequest_other_kind;
      [vm_compute; split; [discriminate|reflexivity]|discriminate|apply Hfit']. }
  repeat split.
Qed.

Lemma range_stream_request_round_trip_witness :
  (wf_request lamp_request /\ 0 <= 7 < 2 ^ 32
   /\ Z.of_nat (length (world_model.client.makeSnapshotRequest lamp_request 7))
      < 2 ^ 32)
  /\ fst (world_model.client.decodeRangeRequest (3, 4) (5, 9)
            (world_model.client.makeRangeRequest lamp_request 7))
     = (lamp_request, 7)
  /\ fst (world_model.client.decodeRangeRequest (3, 4) (5, 9)
            (world_model.client.makeSnapshotRequest lamp_request 7))
     = (world_model.client.mkRequest [] [] 3 4, 0).
Proof.
  assert (H1 : 0 <= 7 < 2 ^ 32) by (vm_compute; split; congruence).
  assert (H2 : Z.of_nat (length (world_model.client.makeSnapshotRequest
                                   lamp_request 7)) < 2 ^ 32)
    by reflexivity.
  split; [split; [exact lamp_request_wf|split; assumption]|].
  pose proof (range_stream_request_round_trip (3, 4) (5, 9) lamp_request 7
                lamp_request_wf H1 H2) as H.
  split; [exact (proj1 H)|].
  exact (proj1 (proj2 (proj2 (proj2 (proj2 H))))).
Defined.

Lemma decodes_aliases (aliases : list world_model.client.AliasType) :
  Forall wf_alias aliases ->
  Z.of_nat (length (concat (map wire_alias aliases))) < 2 ^ 32 ->
  decodes (world_model.client.read_aliases (length aliases))
          (concat (map wire_alias aliases)) aliases.
Proof.
  intros Hwf Hfit.
  apply (decodes_loop world_model.client.read_aliases
           (fun r => let '(a, r1) := readPrimitive 4 r in
                     let '(t, r2) := readSizedUTF16 r1 in
                     (world_model.client.mkAliasType a t, r2))).
  - reflexivity.
  - intros k r. cbn [world_model.client.read_aliases].
    destruct (readPrimitive 4 r) as [a r1].
    destruct (readSizedUTF16 r1) as [t r2]. reflexivity.
  - apply Forall_forall. intros [a t] Hin.
    rewrite Forall_forall in Hwf. destruct (Hwf _ Hin) as [Ha Ht].
    pose proof (concat_map_length_le wire_alias aliases _ Hin) as Hle.
    unfold wire_alias in *. cbn [world_model.client.alias
                                   world_model.client.type] in *.
    rewrite length_app, length_be_bytes, length_wire_sized_utf16 in Hle.
    apply (decodes_bind (readPrimitive 4)
             (fun a r1 => let '(t, r2) := readSizedUTF16 r1 in
                          (world_model.client.mkAliasType a t, r2))
             _ _ a).
    + apply decodes_u32. exact Ha.
    + apply (decodes_map readSizedUTF16 (world_model.client.mkAliasType a)).
      apply decodes_sized_utf16; [exact Ht|lia].
Qed.

Lemma aliases_count_le (aliases : list world_model.client.AliasType) :
  (length aliases <= length (concat (map wire_alias aliases)))%nat.
Proof.
  apply concat_map_count_le. intros a. unfold wire_alias.
  rewrite length_app, length_be_bytes. lia.
Qed.

Lemma push_aliases_wire (aliases : list world_model.client.AliasType)
      (x : Z) (b : Buffer) :
  world_model.client.push_aliases aliases (u32 x) b
  = (u32 (x + Z.of_nat (length (concat (map wire_alias aliases)))),
     b ++ concat (map wire_alias aliases)).
Proof.
  unfold world_model.client.push_aliases. apply push_loop_wire.
  clear. intros x b a. cbn [pushBackVal].
  rewrite pushBackSizedUTF16_wire. u32_sum.
  unfold wire_alias. rewrite length_app, length_be_bytes, <- app_assoc.
  f_equal. f_equal. lia.
Qed.

Lemma makeAttrAliasMsg_wire (aliases : list world_model.client.AliasType) :
  world_model.client.makeAttrAliasMsg aliases
  = frame world_model.client.attribute_alias (wire_aliases aliases).
Proof.
  unfold world_model.client.makeAttrAliasMsg. cbn [pushBackVal].
  u32_sum. rewrite push_aliases_wire.
  rewrite be_bytes_u32, <- !app_assoc.
  apply frame_close. unfold wire_aliases.
  rewrite !length_app, !length_be_bytes. f_equal. lia.
Qed.

Lemma makeOriginAliasMsg_wire (aliases : list world_model.client.AliasType) :
  world_model.client.makeOriginAliasMsg aliases
  = frame world_model.client.origin_alias (wire_aliases aliases).
Proof.
  unfold world_model.client.makeOriginAliasMsg.
  rewrite makeAttrAliasMsg_wire. apply frame_patch.
Qed.

Lemma decodeAttrAliasMsg_frame (aliases : list world_model.client.AliasType) :
  Forall wf_alias aliases ->
  Z.of_nat (length (frame world_model.client.attribute_alias
                          (wire_aliases aliases))) < 2 ^ 32 ->
  world_model.client.decodeAttrAliasMsg
    (frame world_model.client.attribute_alias (wire_aliases aliases))
  = aliases.
Proof.
  intros Hwf Hfit.
  destruct (frame_header world_model.client.attribute_alias _
              ltac:(split; [discriminate|reflexivity]) Hfit)
    as (E1 & E2 & E3 & _).
  pose proof (frame_body world_model.client.attribute_alias
                (wire_aliases aliases)) as R.
  unfold world_model.client.decodeAttrAliasMsg,
    world_model.client.decodeAttrAliasMsg_run.
  rewrite E1, E2, E3. clear E1 E2 E3.
  cbn [andb Z.eqb world_model.client.attribute_alias Pos.eqb].
  rewrite length_frame in Hfit.
  unfold wire_aliases in R at 2. unfold wire_aliases in Hfit.
  rewrite !length_app, !length_be_bytes in Hfit.
  pose proof (aliases_count_le aliases) as Hcount.
  rewrite <- !app_assoc in R.
  read_off (decodes_u32 (Z.of_nat (length aliases)) ltac:(lia)) R.
  rewrite Nat2Z.id.
  read_off (decodes_aliases aliases Hwf ltac:(lia)) R.
  reflexivity.
Qed.

Lemma decodeAttrAliasMsg_not_frame (b : Buffer) :
  ~ is_frame world_model.client.attribute_alias b ->
  world_model.client.decodeAttrAliasMsg b = [].
Proof.
  intros H. pose proof (decodeAttrAliasMsg_run_not_frame b H) as Hrun.
  unfold world_model.client.decodeAttrAliasMsg.
  destruct (world_model.client.decodeAttrAliasMsg_run b) as [l r].
  cbn [fst] in Hrun. subst l. destruct (outOfRange r); reflexivity.
Qed.

(** X16: a list of aliases (numbers below [2^32], names of 16-bit code
    units) whose frame fits the length field survives [makeAttrAliasMsg]
    followed by [decodeAttrAliasMsg], and [makeOriginAliasMsg] followed by
    [decodeOriginAliasMsg]; each of the two decoders answers the empty
    list to the frame of the other kind. *)
Theorem alias_messages_round_trip
        (aliases : list world_model.client.AliasType) :
  Forall wf_alias aliases ->
  Z.of_nat (length (world_model.client.makeAttrAliasMsg aliases)) < 2 ^ 32 ->
  world_model.client.decodeAttrAliasMsg
    (world_model.client.makeAttrAliasMsg aliases) = aliases
  /\ fst (world_model.client.decodeOriginAliasMsg
            (world_model.client.makeOriginAliasMsg aliases)) = aliases
  /\ world_model.client.decodeAttrAliasMsg
       (world_model.client.makeOriginAliasMsg aliases) = []
  /\ fst (world_model.client.decodeOriginAliasMsg
            (world_model.client.makeAttrAliasMsg aliases)) = [].
Proof.
  intros Hwf Hfit.
  rewrite makeOriginAliasMsg_wire. rewrite makeAttrAliasMsg_wire in *.
  pose proof (decodeAttrAliasMsg_frame aliases Hwf Hfit) as Hattr.
  assert (Hlen : forall k, bool_decide
                   (5 < length (frame k (wire_aliases aliases)))%nat = true).
  { intros k. apply bool_decide_eq_true. rewrite length_frame.
    unfold wire_aliases. rewrite length_app, length_be_bytes. lia. }
  unfold world_model.client.decodeOriginAliasMsg.
  rewrite !Hlen, !frame_kind, !frame_patch.
  cbn [from_option andb fst]. rewrite Hattr.
  repeat split.
  apply decodeAttrAliasMsg_not_frame, frame_other_kind. discriminate.
Qed.

Lemma alias_messages_round_trip_witness :
  let aliases := [world_model.client.mkAliasType 1 (u16 "location");
                  world_model.client.mkAliasType 2 (u16 "on")] in
  (Forall wf_alias aliases
   /\ Z.of_nat (length (world_model.client.makeAttrAliasMsg aliases)) < 2 ^ 32)
  /\ world_model.client.decodeAttrAliasMsg
       (world_model.client.makeAttrAliasMsg aliases) = aliases.
Proof.
  intros aliases.
  assert (H1 : Forall wf_alias aliases).
  { unfold aliases, wf_alias, wf_string.
    repeat first [split | constructor]; vm_compute; congruence. }
  assert (H2 : Z.of_nat (length (world_model.client.makeAttrAliasMsg aliases))
               < 2 ^ 32) by reflexivity.
  split; [split; assumption|].
  exact (proj1 (alias_messages_round_trip aliases H1 H2)).
Defined.

(** [reads_done R]: the reads taken with [read_off] add up to the whole
    encoding. *)
Ltac reads_done R :=
  rewrite ?advance_advance in R; rewrite ?advance_advance;
  rewrite ?length_app; rewrite ?Nat.add_assoc in R; rewrite ?Nat.add_assoc;
  split; [reflexivity|exact R].

Lemma length_wire_sized_bytes (d : list byte) :
  length (wire_sized_bytes d) = (4 + length d)%nat.
Proof.
  unfold wire_sized_bytes. rewrite length_app, length_be_bytes. reflexivity.
Qed.

Lemma decodes_attribute (attr : world_model.AliasedAttribute) :
  wf_attribute attr ->
  Z.of_nat (length (wire_attribute attr)) < 2 ^ 32 ->
  decodes (fun r => let '(na, r) := readPrimitive 4 r in
                    let '(cd, r) := readPrimitive_int64 r in
                    let '(ed, r) := readPrimitive_int64 r in
                    let '(oa, r) := readPrimitive 4 r in
                    let '(d, r) := readSizedVector r in
                    (world_model.mkAliasedAttribute na cd ed oa d, r))
          (wire_attribute attr) attr.
Proof.
  destruct attr as [na cd ed oa d]. unfold wf_attribute, wire_attribute.
  cbn [world_model.name_alias world_model.creation_date
       world_model.expiration_date world_model.origin_alias world_model.data].
  intros (Hna & Hcd & Hed & Hoa) Hfit r suf R.
  rewrite !length_app, !length_be_bytes, length_wire_sized_bytes in Hfit.
  rewrite <- !app_assoc in R.
  read_off (decodes_u32 na Hna) R.
  read_off (decodes_int64 cd Hcd) R.
  read_off (decodes_int64 ed Hed) R.
  read_off (decodes_u32 oa Hoa) R.
  read_off (decodes_sized_vector d ltac:(lia)) R.
  reads_done R.
Qed.

Lemma decodes_attributes (attrs : list world_model.AliasedAttribute) :
  Forall wf_attribute attrs ->
  Z.of_nat (length (concat (map wire_attribute attrs))) < 2 ^ 32 ->
  decodes (world_model.client.read_attributes (length attrs))
          (concat (map wire_attribute attrs)) attrs.
Proof.
  intros Hwf Hfit.
  apply (decodes_loop world_model.client.read_attributes
           (fun r => let '(na, r) := readPrimitive 4 r in
                     let '(cd, r) := readPrimitive_int64 r in
                     let '(ed, r) := readPrimitive_int64 r in
                     let '(oa, r) := readPrimitive 4 r in
                     let '(d, r) := readSizedVector r in
                     (world_model.mkAliasedAttribute na cd ed oa d, r))).
  - reflexivity.
  - intros k r. cbn [world_model.client.read_attributes].
    destruct (readPrimitive 4 r) as [na r1].
    destruct (readPrimitive_int64 r1) as [cd r2].
    destruct (readPrimitive_int64 r2) as [ed r3].
    destruct (readPrimitive 4 r3) as [oa r4].
    destruct (readSizedVector r4) as [d r5]. reflexivity.
  - apply Forall_forall. intros attr Hin.
    rewrite Forall_forall in Hwf.
    pose proof (concat_map_length_le wire_attribute attrs _ Hin) as Hle.
    apply decodes_attribute; [apply Hwf; exact Hin|lia].
Qed.

Lemma attributes_count_le (attrs : list world_model.AliasedAttribute) :
  (length attrs <= length (concat (map wire_attribute attrs)))%nat.
Proof.
  apply concat_map_count_le. intros a. unfold wire_attribute.
  rewrite length_app, length_be_bytes. lia.
Qed.

Lemma push_attributes_wire (attrs : list world_model.AliasedAttribute)
      (x : Z) (b : Buffer) :
  world_model.client.push_attributes attrs (u32 x) b
  = (u32 (x + Z.of_nat (length (concat (map wire_attribute attrs)))),
     b ++ concat (map wire_attribute attrs)).
Proof.
  unfold world_model.client.push_attributes. apply push_loop_wire.
  clear. intros x b [na cd ed oa d]. cbn [pushBackVal].
  rewrite pushSizedContainer_wire. u32_sum.
  unfold wire_attribute.
  cbn [world_model.name_alias world_model.creation_date
       world_model.expiration_date world_model.origin_alias world_model.data].
  rewrite !length_app, !length_be_bytes, <- !app_assoc.
  f_equal. f_equal. lia.
Qed.

Lemma makeDataMessage_wire (wd : world_model.AliasedWorldData) (ticket : Z) :
  world_model.client.makeDataMessage wd ticket
  = frame world_model.client.data_response (wire_world_data wd ticket).
Proof.
  destruct wd as [uri attrs].
  unfold world_model.client.makeDataMessage. cbn [pushBackVal].
  rewrite pushBackSizedUTF16_wire. u32_sum.
  rewrite push_attributes_wire.
  rewrite be_bytes_u32, <- !app_assoc.
  apply frame_close. unfold wire_world_data.
  cbn [world_model.object_uri world_model.attributes].
  rewrite !length_app, !length_be_bytes. f_equal. lia.
Qed.

(** X17: a data response (object name of 16-bit code units, attributes
    with aliases below [2^32] and 64-bit dates, any data bytes) and a ticket
    below [2^32], whose frame fits the length field, survive
    [makeDataMessage] followed by [decodeDataMessage]. *)
Theorem data_message_round_trip (wd : world_model.AliasedWorldData)
        (ticket : Z) :
  wf_world_data wd -> 0 <= ticket < 2 ^ 32 ->
  Z.of_nat (length (world_model.client.makeDataMessage wd ticket)) < 2 ^ 32 ->
  world_model.client.decodeDataMessage
    (world_model.client.makeDataMessage wd ticket)
  = (wd, ticket).
Proof.
  intros (Huri & Hattrs) Ht Hfit. rewrite makeDataMessage_wire in *.
  destruct (frame_header world_model.client.data_response _
              ltac:(split; [discriminate|reflexivity]) Hfit)
    as (E1 & E2 & E3 & _).
  pose proof (frame_body world_model.client.data_response
                (wire_world_data wd ticket)) as R.
  unfold world_model.client.decodeDataMessage,
    world_model.client.decodeDataMessage_run.
  rewrite E1, E2, E3. clear E1 E2 E3.
  cbn [andb Z.eqb world_model.client.data_response Pos.eqb].
  rewrite length_frame in Hfit.
  unfold wire_world_data in R at 2. unfold wire_world_data in Hfit.
  rewrite !length_app, !length_be_bytes, length_wire_sized_utf16 in Hfit.
  pose proof (attributes_count_le (world_model.attributes wd)) as Hcount.
  rewrite <- !app_assoc in R.
  read_off (decodes_sized_utf16 (world_model.object_uri wd) Huri
              ltac:(lia)) R.
  read_off (decodes_u32 ticket Ht) R.
  read_off (decodes_u32 (Z.of_nat (length (world_model.attributes wd)))
              ltac:(lia)) R.
  rewrite Nat2Z.id.
  read_off (decodes_attributes (world_model.attributes wd) Hattrs
              ltac:(lia)) R.
  cbn [outOfRange advance out_of_range]. destruct wd; reflexivity.
Qed.

Lemma data_message_round_trip_witness :
  let wd := world_model.mkAliasedWorldData (u16 "lamp.1")
              [world_model.mkAliasedAttribute 1 1000 (-1) 3 [x01; x02];
               world_model.mkAliasedAttribute 2 1001 0 3 []] in
  (wf_world_data wd /\ 0 <= 7 < 2 ^ 32
   /\ Z.of_nat (length (world_model.client.makeDataMessage wd 7)) < 2 ^ 32)
  /\ world_model.client.decodeDataMessage
       (world_model.client.makeDataMessage wd 7)
     = (wd, 7).
Proof.
  intros wd.
  assert (H1 : wf_world_data wd).
  { unfold wd, wf_world_data, wf_attribute, wf_time, wf_string.
    repeat first [split | constructor]; vm_compute; congruence. }
  assert (H2 : 0 <= 7 < 2 ^ 32) by (vm_compute; split; congruence).
  assert (H3 : Z.of_nat (length (world_model.client.makeDataMessage wd 7))
               < 2 ^ 32) by reflexivity.
  split; [split; [exact H1|split; assumption]|].
  exact (data_message_round_trip wd 7 H1 H2 H3).
Defined.

(** ** Round trips of the solver protocol *)

(** The decoders that end with a string take the rest of the frame for
    it. *)
Lemma rest_is_string (r : BuffReader) (b : Buffer) (str : list Z) :
  buff r = b -> wf_string str ->
  remaining r = wire_utf16 str ++ [] ->
  readUTF16 ((length b - cur_index r) / 2)%nat r
  = (str, advance (2 * length str) r).
Proof.
  intros Hb Hwf R. subst b.
  assert (Hlen : (length (buff r) - cur_index r = length str * 2)%nat).
  { pose proof (f_equal (@length byte) R) as Hl. unfold remaining in Hl.
    rewrite length_drop, length_app, length_wire_utf16 in Hl.
    cbn [length] in Hl. lia. }
  rewrite Hlen, Nat.div_mul by lia.
  exact (proj1 (readUTF16_wire str Hwf r [] R)).
Qed.

(** [read_rest str H R]: the last read takes the rest of the frame, which
    [R] says is the string [str]. *)
Ltac read_rest str H R :=
  match goal with
  | |- context [readUTF16 ((length ?b - cur_index ?r) / 2)%nat ?r] =>
      rewrite (rest_is_string r b str eq_refl H R)
  end.

Lemma decodes_type_alias (a : world_model.solver.AliasType) :
  wf_type_alias a ->
  Z.of_nat (length (wire_type_alias a)) < 2 ^ 32 ->
  decodes (fun r => let '(al, r) := readPrimitive 4 r in
                    let '(t, r) := readSizedUTF16 r in
                    let '(od, r) := readPrimitive 1 r in
                    (world_model.solver.mkAliasType al t (negb (od =? 0)), r))
          (wire_type_alias a) a.
Proof.
  destruct a as [al t od]. unfold wf_type_alias, wire_type_alias.
  cbn [world_model.solver.alias world_model.solver.type
       world_model.solver.on_demand].
  intros (Hal & Ht) Hfit r suf R.
  rewrite !length_app, !length_be_bytes, length_wire_sized_utf16 in Hfit.
  rewrite <- !app_assoc in R.
  read_off (decodes_u32 al Hal) R.
  read_off (decodes_sized_utf16 t Ht ltac:(lia)) R.
  read_off (decodes_u8 (if od then 1 else 0)
              ltac:(destruct od; vm_compute; split; congruence)) R.
  replace (negb ((if od then 1 else 0) =? 0)) with od by (destruct od; reflexivity).
  reads_done R.
Qed.

Lemma decodes_type_aliases (aliases : list world_model.solver.AliasType) :
  Forall wf_type_alias aliases ->
  Z.of_nat (length (concat (map wire_type_alias aliases))) < 2 ^ 32 ->
  decodes (world_model.solver.read_aliases (length aliases))
          (concat (map wire_type_alias aliases)) aliases.
Proof.
  intros Hwf Hfit.
  apply (decodes_loop world_model.solver.read_aliases
           (fun r => let '(al, r) := readPrimitive 4 r in
                     let '(t, r) := readSizedUTF16 r in
                     let '(od, r) := readPrimitive 1 r in
                     (world_model.solver.mkAliasType al t (negb (od =? 0)),
                      r))).
  - reflexivity.
  - intros k r. cbn [world_model.solver.read_aliases].
    destruct (readPrimitive 4 r) as [al r1].
    destruct (readSizedUTF16 r1) as [t r2].
    destruct (readPrimitive 1 r2) as [od r3]. reflexivity.
  - apply Forall_forall. intros a Hin.
    rewrite Forall_forall in Hwf.
    pose proof (concat_map_length_le wire_type_alias aliases _ Hin) as Hle.
    apply decodes_type_alias; [apply Hwf; exact Hin|lia].
Qed.

Lemma type_aliases_count_le (aliases : list world_model.solver.AliasType) :
  (length aliases <= length (concat (map wire_type_alias aliases)))%nat.
Proof.
  apply concat_map_count_le. intros a. unfold wire_type_alias.
  rewrite length_app, length_be_bytes. lia.
Qed.

Lemma push_type_aliases_wire (aliases : list world_model.solver.AliasType)
      (x : Z) (b : Buffer) :
  world_model.solver.push_type_aliases aliases (u32 x) b
  = (u32 (x + Z.of_nat (length (concat (map wire_type_alias aliases)))),
     b ++ concat (map wire_type_alias aliases)).
Proof.
  unfold world_model.solver.push_type_aliases. apply push_loop_wire.
  clear. intros x b a. cbn [pushBackVal].
  rewrite pushBackSizedUTF16_wire. u32_sum.
  unfold wire_type_alias. rewrite !length_app, !length_be_bytes, <- !app_assoc.
  f_equal. f_equal. lia.
Qed.

Lemma makeTypeAnnounceMsg_wire (aliases : list world_model.solver.AliasType)
      (origin : list Z) :
  world_model.solver.makeTypeAnnounceMsg aliases origin
  = frame world_model.solver.type_announce (wire_type_announce aliases origin).
Proof.
  unfold world_model.solver.makeTypeAnnounceMsg. cbn [pushBackVal].
  u32_sum. rewrite push_type_aliases_wire, pushBackUTF16_wire. u32_sum.
  rewrite be_bytes_u32, <- !app_assoc.
  apply frame_close. unfold wire_type_announce.
  rewrite !length_app, !length_be_bytes. f_equal. lia.
Qed.

(** X18: a type announcement (aliases below [2^32], names and origin of
    16-bit code units, on-demand flags) whose frame fits the length field
    survives [makeTypeAnnounceMsg] followed by [decodeTypeAnnounceMsg]:
    the decoder takes what follows the aliases as the origin. *)
Theorem type_announce_round_trip
        (aliases : list world_model.solver.AliasType) (origin : list Z) :
  Forall wf_type_alias aliases -> wf_string origin ->
  Z.of_nat (length (world_model.solver.makeTypeAnnounceMsg aliases origin))
  < 2 ^ 32 ->
  world_model.solver.decodeTypeAnnounceMsg
    (world_model.solver.makeTypeAnnounceMsg aliases origin)
  = (aliases, origin).
Proof.
  intros Hwf Horigin Hfit. rewrite makeTypeAnnounceMsg_wire in *.
  destruct (frame_header world_model.solver.type_announce _
              ltac:(split; [discriminate|reflexivity]) Hfit)
    as (E1 & E2 & E3 & _).
  pose proof (frame_body world_model.solver.type_announce
                (wire_type_announce aliases origin)) as R.
  unfold world_model.solver.decodeTypeAnnounceMsg,
    world_model.solver.decodeTypeAnnounceMsg_run.
  rewrite E1, E2, E3. clear E1 E2 E3.
  cbn [andb Z.eqb world_model.solver.type_announce Pos.eqb].
  rewrite length_frame in Hfit.
  unfold wire_type_announce in R at 2. unfold wire_type_announce in Hfit.
  rewrite !length_app, !length_be_bytes in Hfit.
  pose proof (type_aliases_count_le aliases) as Hcount.
  rewrite <- !app_assoc in R.
  read_off (decodes_u32 (Z.of_nat (length aliases)) ltac:(lia)) R.
  rewrite Nat2Z.id.
  read_off (decodes_type_aliases aliases Hwf ltac:(lia)) R.
  read_rest origin Horigin R.
  reflexivity.
Qed.

Lemma type_announce_round_trip_witness :
  let aliases := [world_model.solver.mkAliasType 1 (u16 "location") false;
                  world_model.solver.mkAliasType 2 (u16 "on") true] in
  (Forall wf_type_alias aliases /\ wf_string (u16 "solver.1")
   /\ Z.of_nat (length (world_model.solver.makeTypeAnnounceMsg
                          aliases (u16 "solver.1"))) < 2 ^ 32)
  /\ world_model.solver.decodeTypeAnnounceMsg
       (world_model.solver.makeTypeAnnounceMsg aliases (u16 "solver.1"))
     = (aliases, u16 "solver.1").
Proof.
  intros aliases.
  assert (H1 : Forall wf_type_alias aliases).
  { unfold aliases, wf_type_alias, wf_string.
    repeat first [split | constructor]; vm_compute; congruence. }
  assert (H2 : wf_string (u16 "solver.1"))
    by (repeat constructor; vm_compute; congruence).
  assert (H3 : Z.of_nat (length (world_model.solver.makeTypeAnnounceMsg
                                   aliases (u16 "solver.1"))) < 2 ^ 32)
    by reflexivity.
  split; [split; [exact H1|split; assumption]|].
  exact (type_announce_round_trip aliases (u16 "solver.1") H1 H2 H3).
Defined.

Lemma decodes_on_demand (a : Z * list world_model.URI) :
  wf_on_demand a ->
  Z.of_nat (length (wire_on_demand a)) < 2 ^ 32 ->
  decodes (fun r => let '(cur_alias, r) := readPrimitive 4 r in
                    let '(total_attribs, r) := readPrimitive 4 r in
                    let '(attribs, r) :=
                      world_model.read_strings (Z.to_nat total_attribs) r in
                    ((cur_alias, attribs), r))
          (wire_on_demand a) a.
Proof.
  destruct a as [al strs]. unfold wf_on_demand, wire_on_demand. cbn [fst snd].
  intros (Hal & Hstrs) Hfit r suf R.
  rewrite !length_app, !length_be_bytes in Hfit.
  pose proof (strings_count_le strs) as Hcount.
  rewrite <- !app_assoc in R.
  read_off (decodes_u32 al Hal) R.
  read_off (decodes_u32 (Z.of_nat (length strs)) ltac:(lia)) R.
  rewrite Nat2Z.id.
  read_off (decodes_strings strs Hstrs ltac:(lia)) R.
  reads_done R.
Qed.

Lemma decodes_on_demands (aliases : list (Z * list world_model.URI)) :
  Forall wf_on_demand aliases ->
  Z.of_nat (length (concat (map wire_on_demand aliases))) < 2 ^ 32 ->
  decodes (world_model.solver.read_on_demand (length aliases))
          (concat (map wire_on_demand aliases)) aliases.
Proof.
  intros Hwf Hfit.
  apply (decodes_loop world_model.solver.read_on_demand
           (fun r => let '(cur_alias, r) := readPrimitive 4 r in
                     let '(total_attribs, r) := readPrimitive 4 r in
                     let '(attribs, r) :=
                       world_model.read_strings (Z.to_nat total_attribs) r in
                     ((cur_alias, attribs), r))).
  - reflexivity.
  - intros k r. cbn [world_model.solver.read_on_demand].
    destruct (readPrimitive 4 r) as [al r1].
    destruct (readPrimitive 4 r1) as [n r2].
    destruct (world_model.read_strings (Z.to_nat n) r2) as [strs r3].
    reflexivity.
  - apply Forall_forall. intros a Hin.
    rewrite Forall_forall in Hwf.
    pose proof (concat_map_length_le wire_on_demand aliases _ Hin) as Hle.
    apply decodes_on_demand; [apply Hwf; exact Hin|lia].
Qed.

Lemma on_demands_count_le (aliases : list (Z * list world_model.URI)) :
  (length aliases <= length (concat (map wire_on_demand aliases)))%nat.
Proof.
  apply concat_map_count_le. intros a. unfold wire_on_demand.
  rewrite length_app, length_be_bytes. lia.
Qed.

Lemma push_on_demand_wire (aliases : list (Z * list world_model.URI))
      (x : Z) (b : Buffer) :
  world_model.solver.push_on_demand aliases (u32 x) b
  = (u32 (x + Z.of_nat (length (concat (map wire_on_demand aliases)))),
     b ++ concat (map wire_on_demand aliases)).
Proof.
  unfold world_model.solver.push_on_demand. apply push_loop_wire.
  clear. intros x b a. cbn [pushBackVal]. u32_sum.
  rewrite push_strings_wire.
  unfold wire_on_demand.
  rewrite be_bytes_u32, !length_app, !length_be_bytes, <- !app_assoc.
  f_equal. f_equal. lia.
Qed.

Lemma makeStartOnDemand_wire (aliases : list (Z * list world_model.URI)) :
  world_model.solver.makeStartOnDemand aliases
  = frame world_model.solver.start_on_demand (wire_on_demands aliases).
Proof.
  unfold world_model.solver.makeStartOnDemand. cbn [pushBackVal].
  u32_sum. rewrite push_on_demand_wire.
  rewrite be_bytes_u32, <- !app_assoc.
  apply frame_close. unfold wire_on_demands.
  rewrite !length_app, !length_be_bytes. f_equal. lia.
Qed.

Lemma makeStopOnDemand_wire (aliases : list (Z * list world_model.URI)) :
  world_model.solver.makeStopOnDemand aliases
  = frame world_model.solver.stop_on_demand (wire_on_demands aliases).
Proof.
  unfold world_model.solver.makeStopOnDemand.
  rewrite makeStartOnDemand_wire. apply frame_patch.
Qed.

Lemma decodeStartOnDemand_frame (aliases : list (Z * list world_model.URI)) :
  Forall wf_on_demand aliases ->
  Z.of_nat (length (frame world_model.solver.start_on_demand
                          (wire_on_demands aliases))) < 2 ^ 32 ->
  world_model.solver.decodeStartOnDemand
    (frame world_model.solver.start_on_demand (wire_on_demands aliases))
  = aliases.
Proof.
  intros Hwf Hfit.
  destruct (frame_header world_model.solver.start_on_demand _
              ltac:(split; [discriminate|reflexivity]) Hfit)
    as (E1 & E2 & E3 & _).
  pose proof (frame_body world_model.solver.start_on_demand
                (wire_on_demands aliases)) as R.
  unfold world_model.solver.decodeStartOnDemand,
    world_model.solver.decodeStartOnDemand_run.
  rewrite E1, E2, E3. clear E1 E2 E3.
  cbn [andb Z.eqb world_model.solver.start_on_demand Pos.eqb].
  rewrite length_frame in Hfit.
  unfold wire_on_demands in R at 2. unfold wire_on_demands in Hfit.
  rewrite !length_app, !length_be_bytes in Hfit.
  pose proof (on_demands_count_le aliases) as Hcount.
  rewrite <- !app_assoc in R.
  read_off (decodes_u32 (Z.of_nat (length aliases)) ltac:(lia)) R.
  rewrite Nat2Z.id.
  read_off (decodes_on_demands aliases Hwf ltac:(lia)) R.
  reflexivity.
Qed.

Lemma decodeStartOnDemand_not_frame (b : Buffer) :
  ~ is_frame world_model.solver.start_on_demand b ->
  world_model.solver.decodeStartOnDemand b = [].
Proof.
  intros H. pose proof (decodeStartOnDemand_run_not_frame b H) as Hrun.
  unfold world_model.solver.decodeStartOnDemand.
  destruct (world_model.solver.decodeStartOnDemand_run b) as [l r].
  cbn [fst] in Hrun. subst l. destruct (outOfRange r); reflexivity.
Qed.

(** X19: a list of on-demand requests (type aliases below [2^32], each
    with its names of 16-bit code units) whose frame fits the length field
    survives [makeStartOnDemand] followed by [decodeStartOnDemand], and
    [makeStopOnDemand] followed by [decodeStopOnDemand]; a start is not
    taken for a stop nor a stop for a start. *)
Theorem on_demand_round_trip (aliases : list (Z * list world_model.URI)) :
  Forall wf_on_demand aliases ->
  Z.of_nat (length (world_model.solver.makeStartOnDemand aliases)) < 2 ^ 32 ->
  world_model.solver.decodeStartOnDemand
    (world_model.solver.makeStartOnDemand aliases) = aliases
  /\ fst (world_model.solver.decodeStopOnDemand
            (world_model.solver.makeStopOnDemand aliases)) = aliases
  /\ world_model.solver.decodeStartOnDemand
       (world_model.solver.makeStopOnDemand aliases) = []
  /\ fst (world_model.solver.decodeStopOnDemand
            (world_model.solver.makeStartOnDemand aliases)) = [].
Proof.
  intros Hwf Hfit.
  rewrite makeStopOnDemand_wire. rewrite makeStartOnDemand_wire in *.
  pose proof (decodeStartOnDemand_frame aliases Hwf Hfit) as Hstart.
  assert (Hfit' : forall k, Z.of_nat (length (frame k (wire_on_demands aliases)))
                            < 2 ^ 32)
    by (intros k; rewrite length_frame in *; exact Hfit).
  split; [exact Hstart|]. split; [|split].
  - destruct (frame_header world_model.solver.stop_on_demand _
                ltac:(split; [discriminate|reflexivity]) (Hfit' _))
      as (E1 & E2 & E3 & _).
    unfold world_model.solver.decodeStopOnDemand.
    rewrite E1, E2, E3, frame_patch.
    cbn [andb Z.eqb world_model.solver.stop_on_demand Pos.eqb fst].
    exact Hstart.
  - apply decodeStartOnDemand_not_frame, frame_other_kind. discriminate.
  - destruct (frame_header world_model.solver.start_on_demand _
                ltac:(split; [discriminate|reflexivity]) (Hfit' _))
      as (E1 & E2 & E3 & _).
    unfold world_model.solver.decodeStopOnDemand.
    rewrite E1, E2, E3. reflexivity.
Qed.

Lemma on_demand_round_trip_witness :
  let aliases := [(1, [u16 "lamp.*"; u16 "door.*"]); (2, [])] in
  (Forall wf_on_demand aliases
   /\ Z.of_nat (length (world_model.solver.makeStartOnDemand aliases))
      < 2 ^ 32)
  /\ fst (world_model.solver.decodeStopOnDemand
            (world_model.solver.makeStopOnDemand aliases)) = aliases.
Proof.
  intros aliases.
  assert (H1 : Forall wf_on_demand aliases).
  { unfold aliases, wf_on_demand, wf_string.
    repeat first [split | constructor]; vm_compute; congruence. }
  assert (H2 : Z.of_nat (length (world_model.solver.makeStartOnDemand aliases))
               < 2 ^ 32) by reflexivity.
  split; [split; assumption|].
  exact (proj1 (proj2 (on_demand_round_trip aliases H1 H2))).
Defined.

Lemma makeCreateURI_wire (uri : world_model.URI) (t : Z) (origin : list Z) :
  world_model.solver.makeCreateURI uri t origin
  = frame world_model.solver.create_uri
          (wire_sized_utf16 uri ++ be_bytes 8 t ++ wire_utf16 origin).
Proof.
  unfold world_model.solver.makeCreateURI. cbn [pushBackVal].
  rewrite pushBackSizedUTF16_wire, pushBackUTF16_wire. u32_sum.
  rewrite <- !app_assoc. apply frame_close.
  rewrite !length_app, !length_be_bytes. f_equal. lia.
Qed.

Lemma makeExpireURI_wire (uri : world_model.URI) (t : Z) (origin : list Z) :
  world_model.solver.makeExpireURI uri t origin
  = frame world_model.solver.expire_uri
          (wire_sized_utf16 uri ++ be_bytes 8 t ++ wire_utf16 origin).
Proof.
  unfold world_model.solver.makeExpireURI. cbn [pushBackVal].
  rewrite pushBackSizedUTF16_wire, pushBackUTF16_wire. u32_sum.
  rewrite <- !app_assoc. apply frame_close.
  rewrite !length_app, !length_be_bytes. f_equal. lia.
Qed.

Lemma makeDeleteURI_wire (uri : world_model.URI) (origin : list Z) :
  world_model.solver.makeDeleteURI uri origin
  = frame world_model.solver.delete_uri
          (wire_sized_utf16 uri ++ wire_utf16 origin).
Proof.
  unfold world_model.solver.makeDeleteURI. cbn [pushBackVal].
  rewrite pushBackSizedUTF16_wire, pushBackUTF16_wire. u32_sum.
  rewrite <- !app_assoc. apply frame_close.
  rewrite !length_app. f_equal. lia.
Qed.

(** X20: a name and an origin of 16-bit code units and a 64-bit time, whose
    frame fits the length field, survive [makeCreateURI] followed by
    [decodeCreateURI], [makeExpireURI] followed by [decodeExpireURI] and
    (without the time) [makeDeleteURI] followed by [decodeDeleteURI]; a
    creation is not taken for an expiration nor the reverse. *)
Theorem uri_events_round_trip (uri : world_model.URI) (t : Z)
        (origin : list Z) :
  wf_string uri -> wf_time t -> wf_string origin ->
  Z.of_nat (length (world_model.solver.makeCreateURI uri t origin)) < 2 ^ 32 ->
  world_model.solver.decodeCreateURI
    (world_model.solver.makeCreateURI uri t origin) = (uri, t, origin)
  /\ world_model.solver.decodeExpireURI
       (world_model.solver.makeExpireURI uri t origin) = (uri, t, origin)
  /\ world_model.solver.decodeDeleteURI
       (world_model.solver.makeDeleteURI uri origin) = (uri, origin)
  /\ world_model.solver.decodeCreateURI
       (world_model.solver.makeExpireURI uri t origin) = ([], 0, [])
  /\ world_model.solver.decodeExpireURI
       (world_model.solver.makeCreateURI uri t origin) = ([], 0, []).
Proof.
  intros Huri Ht Horigin Hfit.
  rewrite makeCreateURI_wire, makeExpireURI_wire, makeDeleteURI_wire in *.
  rewrite length_frame, !length_app, length_be_bytes,
    length_wire_sized_utf16 in Hfit.
  split; [|split; [|split; [|split]]].
  - assert (Hfit' : Z.of_nat (length (frame world_model.solver.create_uri
                      (wire_sized_utf16 uri ++ be_bytes 8 t
                       ++ wire_utf16 origin))) < 2 ^ 32).
    { rewrite length_frame, !length_app, length_be_bytes,
        length_wire_sized_utf16. exact Hfit. }
    destruct (frame_header world_model.solver.create_uri _
                ltac:(split; [discriminate|reflexivity]) Hfit')
      as (E1 & E2 & E3 & _).
    pose proof (frame_body world_model.solver.create_uri
                  (wire_sized_utf16 uri ++ be_bytes 8 t ++ wire_utf16 origin))
      as R.
    unfold world_model.solver.decodeCreateURI,
      world_model.solver.decodeCreateURI_run.
    rewrite E1, E2, E3. clear E1 E2 E3.
    cbn [andb Z.eqb world_model.solver.create_uri Pos.eqb].
    rewrite <- !app_assoc in R.
    read_off (decodes_sized_utf16 uri Huri ltac:(lia)) R.
    read_off (decodes_int64 t Ht) R.
    read_rest origin Horigin R. reflexivity.
  - assert (Hfit' : Z.of_nat (length (frame world_model.solver.expire_uri
                      (wire_sized_utf16 uri ++ be_bytes 8 t
                       ++ wire_utf16 origin))) < 2 ^ 32).
    { rewrite length_frame, !length_app, length_be_bytes,
        length_wire_sized_utf16. exact Hfit. }
    destruct (frame_header world_model.solver.expire_uri _
                ltac:(split; [discriminate|reflexivity]) Hfit')
      as (E1 & E2 & E3 & _).
    pose proof (frame_body world_model.solver.expire_uri
                  (wire_sized_utf16 uri ++ be_bytes 8 t ++ wire_utf16 origin))
      as R.
    unfold world_model.solver.decodeExpireURI,
      world_model.solver.decodeExpireURI_run.
    rewrite E1, E2, E3. clear E1 E2 E3.
    cbn [andb Z.eqb world_model.solver.expire_uri Pos.eqb].
    rewrite <- !app_assoc in R.
    read_off (decodes_sized_utf16 uri Huri ltac:(lia)) R.
    read_off (decodes_int64 t Ht) R.
    read_rest origin Horigin R. reflexivity.
  - assert (Hfit' : Z.of_nat (length (frame world_model.solver.delete_uri
                      (wire_sized_utf16 uri ++ wire_utf16 origin))) < 2 ^ 32).
    { rewrite length_frame, !length_app, length_wire_sized_utf16. lia. }
    destruct (frame_header world_model.solver.delete_uri _
                ltac:(split; [discriminate|reflexivity]) Hfit')
      as (E1 & E2 & E3 & _).
    pose proof (frame_body world_model.solver.delete_uri
                  (wire_sized_utf16 uri ++ wire_utf16 origin)) as R.
    unfold world_model.solver.decodeDeleteURI,
      world_model.solver.decodeDeleteURI_run.
    rewrite E1, E2, E3. clear E1 E2 E3.
    cbn [andb Z.eqb world_model.solver.delete_uri Pos.eqb].
    rewrite <- !app_assoc in R.
    read_off (decodes_sized_utf16 uri Huri ltac:(lia)) R.
    read_rest origin Horigin R. reflexivity.
  - apply decodeCreateURI_rejects. left.
    apply frame_other_kind. discriminate.
  - apply decodeExpireURI_rejects. left.
    apply frame_other_kind. discriminate.
Qed.

Lemma uri_events_round_trip_witness :
  (wf_string (u16 "lamp.1") /\ wf_time (-1000) /\ wf_string (u16 "solver.1")
   /\ Z.of_nat (length (world_model.solver.makeCreateURI
                          (u16 "lamp.1") (-1000) (u16 "solver.1"))) < 2 ^ 32)
  /\ world_model.solver.decodeCreateURI
       (world_model.solver.makeCreateURI (u16 "lamp.1") (-1000)
                                         (u16 "solver.1"))
     = (u16 "lamp.1", -1000, u16 "solver.1").
Proof.
  assert (H1 : wf_string (u16 "lamp.1"))
    by (repeat constructor; vm_compute; congruence).
  assert (H2 : wf_time (-1000)) by (vm_compute; split; congruence).
  assert (H3 : wf_string (u16 "solver.1"))
    by (repeat constructor; vm_compute; congruence).
  assert (H4 : Z.of_nat (length (world_model.solver.makeCreateURI
                                   (u16 "lamp.1") (-1000) (u16 "solver.1")))
               < 2 ^ 32) by reflexivity.
  split; [split; [exact H1|split; [exact H2|split; assumption]]|].
  exact (proj1 (uri_events_round_trip (u16 "lamp.1") (-1000) (u16 "solver.1")
                  H1 H2 H3 H4)).
Defined.

Lemma makeExpireAttribute_wire (uri : world_model.URI)
      (attribute origin : list Z) (t : Z) :
  world_model.solver.makeExpireAttribute uri attribute origin t
  = frame world_model.solver.expire_attribute
          (wire_sized_utf16 uri ++ wire_sized_utf16 attribute
           ++ be_bytes 8 t ++ wire_utf16 origin).
Proof.
  unfold world_model.solver.makeExpireAttribute. cbn [pushBackVal].
  rewrite !pushBackSizedUTF16_wire, pushBackUTF16_wire. u32_sum.
  rewrite <- !app_assoc. apply frame_close.
  rewrite !length_app, !length_be_bytes. f_equal. lia.
Qed.

Lemma makeDeleteAttribute_wire (uri : world_model.URI)
      (attribute origin : list Z) :
  world_model.solver.makeDeleteAttribute uri attribute origin
  = frame world_model.solver.delete_attribute
          (wire_sized_utf16 uri ++ wire_sized_utf16 attribute
           ++ wire_utf16 origin).
Proof.
  unfold world_model.solver.makeDeleteAttribute. cbn [pushBackVal].
  rewrite !pushBackSizedUTF16_wire, pushBackUTF16_wire. u32_sum.
  rewrite <- !app_assoc. apply frame_close.
  rewrite !length_app. f_equal. lia.
Qed.

(** X21: the name of an object, the name of an attribute and an origin,
    all of 16-bit code units, and a 64-bit time, whose frame fits the
    length field, survive [makeExpireAttribute] followed by
    [decodeExpireAttribute] and (without the time) [makeDeleteAttribute]
    followed by [decodeDeleteAttribute]; the encoder takes the origin
    before the time and the decoder returns the time before the origin. *)
Theorem attribute_events_round_trip (uri : world_model.URI)
        (attribute origin : list Z) (t : Z) :
  wf_string uri -> wf_string attribute -> wf_string origin -> wf_time t ->
  Z.of_nat (length (world_model.solver.makeExpireAttribute
                      uri attribute origin t)) < 2 ^ 32 ->
  world_model.solver.decodeExpireAttribute
    (world_model.solver.makeExpireAttribute uri attribute origin t)
  = (uri, attribute, t, origin)
  /\ world_model.solver.decodeDeleteAttribute
       (world_model.solver.makeDeleteAttribute uri attribute origin)
     = (uri, attribute, origin).
Proof.
  intros Huri Hattr Horigin Ht Hfit.
  rewrite makeExpireAttribute_wire, makeDeleteAttribute_wire in *.
  pose proof Hfit as Hsize.
  rewrite length_frame, !length_app, length_be_bytes,
    !length_wire_sized_utf16 in Hsize.
  split.
  - destruct (frame_header world_model.solver.expire_attribute _
                ltac:(split; [discriminate|reflexivity]) Hfit)
      as (E1 & E2 & E3 & _).
    pose proof (frame_body world_model.solver.expire_attribute
                  (wire_sized_utf16 uri ++ wire_sized_utf16 attribute
                   ++ be_bytes 8 t ++ wire_utf16 origin)) as R.
    unfold world_model.solver.decodeExpireAttribute,
      world_model.solver.decodeExpireAttribute_run.
    rewrite E1, E2, E3. clear E1 E2 E3.
    cbn [andb Z.eqb world_model.solver.expire_attribute Pos.eqb].
    rewrite <- !app_assoc in R.
    read_off (decodes_sized_utf16 uri Huri ltac:(lia)) R.
    read_off (decodes_sized_utf16 attribute Hattr ltac:(lia)) R.
    read_off (decodes_int64 t Ht) R.
    read_rest origin Horigin R. reflexivity.
  - assert (Hfit' : Z.of_nat (length (frame world_model.solver.delete_attribute
                      (wire_sized_utf16 uri ++ wire_sized_utf16 attribute
                       ++ wire_utf16 origin))) < 2 ^ 32).
    { rewrite length_frame, !length_app, !length_wire_sized_utf16. lia. }
    destruct (frame_header world_model.solver.delete_attribute _
                ltac:(split; [discriminate|reflexivity]) Hfit')
      as (E1 & E2 & E3 & _).
    pose proof (frame_body world_model.solver.delete_attribute
                  (wire_sized_utf16 uri ++ wire_sized_utf16 attribute
                   ++ wire_utf16 origin)) as R.
    unfold world_model.solver.decodeDeleteAttribute,
      world_model.solver.decodeDeleteAttribute_run.
    rewrite E1, E2, E3. clear E1 E2 E3.
    cbn [andb Z.eqb world_model.solver.delete_attribute Pos.eqb].
    rewrite <- !app_assoc in R.
    read_off (decodes_sized_utf16 uri Huri ltac:(lia)) R.
    read_off (decodes_sized_utf16 attribute Hattr ltac:(lia)) R.
    read_rest origin Horigin R. reflexivity.
Qed.

Lemma attribute_events_round_trip_witness :
  (wf_string (u16 "lamp.1") /\ wf_string (u16 "on")
   /\ wf_string (u16 "solver.1") /\ wf_time 2000
   /\ Z.of_nat (length (world_model.solver.makeExpireAttribute
                          (u16 "lamp.1") (u16 "on") (u16 "solver.1") 2000))
      < 2 ^ 32)
  /\ world_model.solver.decodeExpireAttribute
       (world_model.solver.makeExpireAttribute
          (u16 "lamp.1") (u16 "on") (u16 "solver.1") 2000)
     = (u16 "lamp.1", u16 "on", 2000, u16 "solver.1").
Proof.
  assert (H1 : wf_string (u16 "lamp.1"))
    by (repeat constructor; vm_compute; congruence).
  assert (H2 : wf_string (u16 "on"))
    by (repeat constructor; vm_compute; congruence).
  assert (H3 : wf_string (u16 "solver.1"))
    by (repeat constructor; vm_compute; congruence).
  assert (H4 : wf_time 2000) by (vm_compute; split; congruence).
  assert (H5 : Z.of_nat (length (world_model.solver.makeExpireAttribute
                                   (u16 "lamp.1") (u16 "on") (u16 "solver.1")
                                   2000)) < 2 ^ 32) by reflexivity.
  split; [split; [exact H1|split; [exact H2|split; [exact H3|split;
            assumption]]]|].
  exact (proj1 (attribute_events_round_trip (u16 "lamp.1") (u16 "on")
                  (u16 "solver.1") 2000 H1 H2 H3 H4 H5)).
Defined.

(** ** Round trips between aggregators, solvers and sensors *)

Lemma length_wire_uint128 (v : uint128_t) : length (wire_uint128 v) = 16%nat.
Proof.
  unfold wire_uint128. rewrite length_app, !length_be_bytes. reflexivity.
Qed.

Lemma decodes_container (d : list byte) :
  forall c : list byte,
    length c = length d -> decodes (readPrimitiveContainer c) d d.
Proof.
  induction d as [|x d IH]; intros c Hc r suf H.
  - destruct c; [|discriminate]. cbn [readPrimitiveContainer length].
    rewrite advance_0. split; [reflexivity|exact H].
  - destruct c as [|y c]; [discriminate|]. injection Hc as Hc.
    change (x :: d) with ([x] ++ d) in H. rewrite <- app_assoc in H.
    pose proof (remaining_fits r [x] _ H ltac:(cbn; lia)) as Hfit.
    cbn [length] in Hfit.
    pose proof (remaining_advance r [x] _ H) as R1. cbn [length] in R1.
    destruct (IH c Hc _ _ R1) as [E2 R2].
    cbn [readPrimitiveContainer length].
    destruct (Nat.leb_spec (cur_index r + 1) (length (buff r))); [|lia].
    rewrite readPrimitive_ok by lia. fold (remaining r). rewrite H.
    cbn [app take]. rewrite take_0. rewrite be_val_single, byte_of_to_Z.
    change (mkBuffReader (buff r) (cur_index r + 1) (out_of_range r))
      with (advance 1 r).
    rewrite E2. rewrite advance_advance in *.
    split; [reflexivity|exact R2].
Qed.

(** The members of a sample as both sample decoders read them, [left]
    being what the decoder computes as the number of bytes left. *)
Lemma decodes_sample {B : Type} (sample : SampleData)
      (left : BuffReader -> Z) (k : SampleData -> BuffReader -> B)
      (r : BuffReader) :
  wf_sample sample ->
  remaining r = wire_sample sample ++ [] ->
  (forall r', buff r' = buff r ->
              (cur_index r' <= length (buff r'))%nat ->
              remaining r' = sense_data sample ++ [] ->
              Z.to_nat (left r') = length (sense_data sample)) ->
  exists r_end,
    out_of_range r_end = out_of_range r
    /\ (let '(phy, reader) := readPrimitive 1 r in
        let '(tx, reader) := readPrimitive_uint128 reader in
        let '(rx, reader) := readPrimitive_uint128 reader in
        let '(stamp, reader) := readPrimitive_int64 reader in
        let '(strength, reader) := readPrimitive 4 reader in
        let '(sense, reader) :=
          readPrimitiveContainer
            (replicate (Z.to_nat (left reader)) Byte.x00) reader in
        k (mkSampleData phy tx rx stamp strength sense true) reader)
       = k (valid_sample sample) r_end.
Proof.
  intros (Hphy & Htx & Hrx & Hstamp & Hrss) R Hleft.
  unfold wire_sample in R. rewrite <- !app_assoc in R.
  read_off (decodes_u8 (physical_layer sample) Hphy) R.
  read_off (decodes_uint128 (tx_id sample) Htx) R.
  read_off (decodes_uint128 (rx_id sample) Hrx) R.
  read_off (decodes_int64 (rx_timestamp sample) Hstamp) R.
  pose proof (remaining_fits _ _ _ R ltac:(rewrite length_be_bytes; lia))
    as Hfit.
  read_off (decodes_u32 (rss sample) Hrss) R.
  match type of R with
  | remaining ?r' = _ => pose proof (Hleft r' eq_refl Hfit R) as Hl
  end.
  read_off (decodes_container (sense_data sample)
              (replicate (Z.to_nat (left _)) Byte.x00)
              ltac:(rewrite length_replicate; exact Hl)) R.
  eexists. split; [|reflexivity]. reflexivity.
Qed.

Lemma bytes_left (r : BuffReader) (d : list byte) (len : Z) :
  len = Z.of_nat (length (buff r)) -> len < 2 ^ 32 ->
  (cur_index r <= length (buff r))%nat ->
  remaining r = d ++ [] ->
  Z.to_nat (u32 (len - Z.of_nat (cur_index r))) = length d.
Proof.
  intros -> Hfit Hcur R.
  pose proof (f_equal (@length byte) R) as Hl. unfold remaining in Hl.
  rewrite length_drop, length_app in Hl. cbn [length] in Hl.
  rewrite u32_small by lia. lia.
Qed.

Lemma makeSampleMsg_wire (sample : SampleData) :
  aggregator_solver.makeSampleMsg sample
  = frame aggregator_solver.server_sample (wire_sample sample).
Proof.
  destruct sample as [phy tx rx stamp strength sense v].
  unfold aggregator_solver.makeSampleMsg, pushBackVal_uint128.
  cbn [pushBackVal].
  change [x00; x00; x00; x00; byte_of_Z aggregator_solver.server_sample]
    with (be_bytes 4 0 ++ be_bytes 1 aggregator_solver.server_sample).
  fold (wire_uint128 tx). fold (wire_uint128 rx).
  change 1 with (u32 1) at 1. u32_sum.
  unfold wire_sample. cbn [physical_layer tx_id rx_id rx_timestamp rss
                           sense_data].
  destruct sense as [|c sense].
  - cbn [length Nat.ltb Nat.leb]. rewrite <- !app_assoc.
    apply frame_close.
    rewrite !length_app, !length_be_bytes, !length_wire_uint128.
    f_equal.
  - cbn [length Nat.ltb Nat.leb]. rewrite pushContainer_wire. u32_sum.
    rewrite <- !app_assoc. apply frame_close.
    rewrite !length_app, !length_be_bytes, !length_wire_uint128.
    f_equal. cbn [length]. lia.
Qed.

(** X22: a sample whose members hold values of their C++ types, with any
    sense data, whose frame fits the length field survives
    [aggregator_solver::makeSampleMsg] followed by
    [aggregator_solver::decodeSampleMsg] called with the size of the
    frame, and comes back marked valid. *)
Theorem sample_round_trip (sample : SampleData) :
  wf_sample sample ->
  Z.of_nat (length (aggregator_solver.makeSampleMsg sample)) < 2 ^ 32 ->
  aggregator_solver.decodeSampleMsg
    (aggregator_solver.makeSampleMsg sample)
    (Z.of_nat (length (aggregator_solver.makeSampleMsg sample)))
  = valid_sample sample.
Proof.
  intros Hwf Hfit. rewrite makeSampleMsg_wire in *.
  destruct (frame_header aggregator_solver.server_sample _
              ltac:(split; [discriminate|reflexivity]) Hfit)
    as (E1 & E2 & E3 & _).
  pose proof (frame_body aggregator_solver.server_sample
                (wire_sample sample)) as R.
  unfold aggregator_solver.decodeSampleMsg,
    aggregator_solver.decodeSampleMsg_run.
  assert (H4 : (4 <? Z.of_nat (length (frame aggregator_solver.server_sample
                                             (wire_sample sample)))) = true)
    by (apply Z.ltb_lt; rewrite length_frame; lia).
  rewrite H4, E1, E2. unfold world_model.length_matches in E3.
  rewrite Z.eqb_sym, E3.
  cbn [andb Z.eqb aggregator_solver.server_sample Pos.eqb].
  destruct (decodes_sample sample
              (fun reader =>
                 u32 (Z.of_nat (length (frame aggregator_solver.server_sample
                                              (wire_sample sample)))
                      - Z.of_nat (cur_index reader)))
              (fun s reader => (s, outOfRange reader))
              _ Hwf R) as (r_end & _ & Hd).
  { intros r' Hb Hcur R'.
    apply bytes_left; [rewrite Hb; reflexivity|exact Hfit|exact Hcur|exact R']. }
  cbv beta zeta in Hd |- *. rewrite Hd. reflexivity.
Qed.

Lemma sample_wf_witness :
  wf_sample (mkSampleData 1 (mk_uint128 0 77) (mk_uint128 0 5) 1000 3212836864
                          [x0a; x0b] false).
Proof.
  unfold wf_sample, wf_uint128, wf_time.
  repeat split; vm_compute; congruence.
Qed.

Lemma sample_round_trip_witness :
  let sample := mkSampleData 1 (mk_uint128 0 77) (mk_uint128 0 5) 1000
                             3212836864 [x0a; x0b] false in
  (wf_sample sample
   /\ Z.of_nat (length (aggregator_solver.makeSampleMsg sample)) < 2 ^ 32)
  /\ aggregator_solver.decodeSampleMsg
       (aggregator_solver.makeSampleMsg sample)
       (Z.of_nat (length (aggregator_solver.makeSampleMsg sample)))
     = valid_sample sample.
Proof.
  intros sample.
  assert (H2 : Z.of_nat (length (aggregator_solver.makeSampleMsg sample))
               < 2 ^ 32) by reflexivity.
  split; [split; [exact sample_wf_witness|exact H2]|].
  exact (sample_round_trip sample sample_wf_witness H2).
Defined.

Lemma sensor_makeSampleMsg_wire (sample : SampleData) :
  sensor_aggregator.makeSampleMsg sample
  = be_bytes 4 (Z.of_nat (length (wire_sample sample))) ++ wire_sample sample.
Proof.
  destruct sample as [phy tx rx stamp strength sense v].
  unfold sensor_aggregator.makeSampleMsg, pushBackVal_uint128.
  cbn [pushBackVal physical_layer tx_id rx_id rx_timestamp rss sense_data].
  fold (wire_uint128 tx). fold (wire_uint128 rx).
  change (0 + Z.of_nat 1) with (0 + 1). change (u32 (0 + 1)) with (u32 1).
  u32_sum.
  change [x00; x00; x00; x00] with (be_bytes 4 0).
  unfold wire_sample. cbn [physical_layer tx_id rx_id rx_timestamp rss
                           sense_data].
  assert (Hclose : forall total body,
             total = u32 (Z.of_nat (length body)) ->
             snd (pushBackValAt 4 total (be_bytes 4 0 ++ body) 0)
             = be_bytes 4 (Z.of_nat (length body)) ++ body).
  { intros total body ->. unfold pushBackValAt. cbn [snd].
    rewrite take_0. cbn [app].
    rewrite (drop_app_length' (be_bytes 4 0))
      by (rewrite length_be_bytes; reflexivity).
    rewrite be_bytes_u32. reflexivity. }
  destruct sense as [|c sense].
  - cbn [length Nat.ltb Nat.leb]. rewrite <- !app_assoc.
    apply Hclose.
    rewrite !length_app, !length_be_bytes, !length_wire_uint128.
    f_equal.
  - cbn [length Nat.ltb Nat.leb]. rewrite pushContainer_wire. u32_sum.
    rewrite <- !app_assoc. apply Hclose.
    rewrite !length_app, !length_be_bytes, !length_wire_uint128.
    f_equal. cbn [length]. lia.
Qed.

(** X23: the same sample survives [sensor_aggregator::makeSampleMsg]
    followed by [sensor_aggregator::decodeSampleMsg] called with the size
    of the frame, whose frame carries no kind byte: the members follow the
    length field at once. *)
Theorem sensor_sample_round_trip (sample : SampleData) :
  wf_sample sample ->
  Z.of_nat (length (sensor_aggregator.makeSampleMsg sample)) < 2 ^ 32 ->
  sensor_aggregator.decodeSampleMsg
    (sensor_aggregator.makeSampleMsg sample)
    (Z.of_nat (length (sensor_aggregator.makeSampleMsg sample)))
  = valid_sample sample
  /\ take 4 (sensor_aggregator.makeSampleMsg sample)
     = be_bytes 4 (Z.of_nat (length (sensor_aggregator.makeSampleMsg sample))
                   - 4)
  /\ drop 4 (sensor_aggregator.makeSampleMsg sample) = wire_sample sample.
Proof.
  intros Hwf Hfit. rewrite sensor_makeSampleMsg_wire in *.
  set (b := be_bytes 4 (Z.of_nat (length (wire_sample sample)))
            ++ wire_sample sample) in *.
  assert (Hb : length b = (4 + length (wire_sample sample))%nat)
    by (subst b; rewrite length_app, length_be_bytes; reflexivity).
  split; [|split].
  - assert (R0 : remaining (BuffReader_new b)
                 = be_bytes 4 (Z.of_nat (length (wire_sample sample)))
                   ++ wire_sample sample ++ [])
      by (rewrite app_nil_r; reflexivity).
    unfold sensor_aggregator.decodeSampleMsg.
    assert (H4 : (4 <? Z.of_nat (length b)) = true).
    { apply Z.ltb_lt. unfold wire_sample in Hb.
      rewrite !length_app, !length_be_bytes in Hb. lia. }
    rewrite H4.
    read_off (decodes_u32 (Z.of_nat (length (wire_sample sample)))
                ltac:(lia)) R0.
    assert (Hm : (u32 (Z.of_nat (length (wire_sample sample)) + 4)
                  =? Z.of_nat (length b)) = true)
      by (apply Z.eqb_eq; rewrite u32_small by lia; lia).
    rewrite Hm.
    destruct (decodes_sample sample
                (fun reader => u32 (Z.of_nat (length b)
                                    - Z.of_nat (cur_index reader)))
                (fun s _ => s) _ Hwf R0) as (r_end & _ & Hd).
    { intros r' Hb' Hcur R'.
      apply bytes_left;
        [rewrite Hb'; reflexivity|exact Hfit|exact Hcur|exact R']. }
    cbv beta zeta in Hd |- *. exact Hd.
  - subst b. rewrite take_app_length'
      by (rewrite length_be_bytes; reflexivity).
    rewrite length_app, length_be_bytes. f_equal. lia.
  - subst b. apply drop_app_length'. rewrite length_be_bytes. reflexivity.
Qed.

Lemma sensor_sample_round_trip_witness :
  let sample := mkSampleData 1 (mk_uint128 0 77) (mk_uint128 0 5) 1000
                             3212836864 [x0a; x0b] false in
  (wf_sample sample
   /\ Z.of_nat (length (sensor_aggregator.makeSampleMsg sample)) < 2 ^ 32)
  /\ sensor_aggregator.decodeSampleMsg
       (sensor_aggregator.makeSampleMsg sample)
       (Z.of_nat (length (sensor_aggregator.makeSampleMsg sample)))
     = valid_sample sample.
Proof.
  intros sample.
  assert (H2 : Z.of_nat (length (sensor_aggregator.makeSampleMsg sample))
               < 2 ^ 32) by reflexivity.
  split; [split; [exact sample_wf_witness|exact H2]|].
  exact (proj1 (sensor_sample_round_trip sample sample_wf_witness H2)).
Defined.


Lemma length_wire_txer (t : aggregator_solver.Transmitter) :
  length (wire_txer t) = 32%nat.
Proof.
  unfold wire_txer. rewrite length_app, !length_wire_uint128. reflexivity.
Qed.

Lemma decodes_txers (ts : list aggregator_solver.Transmitter) :
  Forall wf_txer ts ->
  decodes (aggregator_solver.read_txers (length ts))
          (concat (map wire_txer ts)) ts.
Proof.
  intros Hwf.
  apply (decodes_loop aggregator_solver.read_txers
           (fun r => let '(b, r) := readPrimitive_uint128 r in
                     let '(m, r) := readPrimitive_uint128 r in
                     (aggregator_solver.mkTransmitter b m, r))).
  - reflexivity.
  - intros k r. cbn [aggregator_solver.read_txers].
    destruct (readPrimitive_uint128 r) as [b r1].
    destruct (readPrimitive_uint128 r1) as [m r2]. reflexivity.
  - apply Forall_forall. intros [b m] Hin.
    rewrite Forall_forall in Hwf. destruct (Hwf _ Hin) as [Hb Hm].
    cbn [aggregator_solver.base_id aggregator_solver.mask] in Hb, Hm.
    intros r suf R. unfold wire_txer in *.
    cbn [aggregator_solver.base_id aggregator_solver.mask] in *.
    rewrite <- !app_assoc in R.
    read_off (decodes_uint128 b Hb) R.
    read_off (decodes_uint128 m Hm) R.
    reads_done R.
Qed.

Lemma txers_count_le (ts : list aggregator_solver.Transmitter) :
  (length ts <= length (concat (map wire_txer ts)))%nat.
Proof.
  apply concat_map_count_le. intros t. rewrite length_wire_txer. lia.
Qed.

Lemma decodes_rule (rule : aggregator_solver.Rule) :
  wf_rule rule ->
  Z.of_nat (length (wire_rule rule)) < 2 ^ 32 ->
  decodes (fun r => let '(phy, r) := readPrimitive 1 r in
                    let '(num_txers, r) := readPrimitive 4 r in
                    let '(ts, r) :=
                      aggregator_solver.read_txers (Z.to_nat num_txers) r in
                    let '(interval, r) := readPrimitive 8 r in
                    (aggregator_solver.mkRule phy ts interval, r))
          (wire_rule rule) rule.
Proof.
  destruct rule as [phy ts interval]. unfold wf_rule, wire_rule.
  cbn [aggregator_solver.physical_layer aggregator_solver.txers
       aggregator_solver.update_interval].
  intros (Hphy & Hts & Hint) Hfit r suf R.
  rewrite !length_app, !length_be_bytes in Hfit.
  pose proof (txers_count_le ts) as Hcount.
  rewrite <- !app_assoc in R.
  read_off (decodes_u8 phy Hphy) R.
  read_off (decodes_u32 (Z.of_nat (length ts)) ltac:(lia)) R.
  rewrite Nat2Z.id.
  read_off (decodes_txers ts Hts) R.
  read_off (decodes_prim 8 interval ltac:(lia) Hint) R.
  reads_done R.
Qed.

Lemma decodes_rules (rules : list aggregator_solver.Rule) :
  Forall wf_rule rules ->
  Z.of_nat (length (concat (map wire_rule rules))) < 2 ^ 32 ->
  decodes (aggregator_solver.read_rules (length rules))
          (concat (map wire_rule rules)) rules.
Proof.
  intros Hwf Hfit.
  apply (decodes_loop aggregator_solver.read_rules
           (fun r => let '(phy, r) := readPrimitive 1 r in
                     let '(num_txers, r) := readPrimitive 4 r in
                     let '(ts, r) :=
                       aggregator_solver.read_txers (Z.to_nat num_txers) r in
                     let '(interval, r) := readPrimitive 8 r in
                     (aggregator_solver.mkRule phy ts interval, r))).
  - reflexivity.
  - intros k r. cbn [aggregator_solver.read_rules].
    destruct (readPrimitive 1 r) as [phy r1].
    destruct (readPrimitive 4 r1) as [n r2].
    destruct (aggregator_solver.read_txers (Z.to_nat n) r2) as [ts r3].
    destruct (readPrimitive 8 r3) as [interval r4]. reflexivity.
  - apply Forall_forall. intros rule Hin.
    rewrite Forall_forall in Hwf.
    pose proof (concat_map_length_le wire_rule rules _ Hin) as Hle.
    apply decodes_rule; [apply Hwf; exact Hin|lia].
Qed.

Lemma rules_count_le (rules : list aggregator_solver.Rule) :
  (length rules <= length (concat (map wire_rule rules)))%nat.
Proof.
  apply concat_map_count_le. intros rule. unfold wire_rule.
  rewrite length_app, length_be_bytes. lia.
Qed.

Lemma push_txers_wire (ts : list aggregator_solver.Transmitter)
      (x : Z) (b : Buffer) :
  aggregator_solver.push_txers ts (u32 x) b
  = (u32 (x + Z.of_nat (length (concat (map wire_txer ts)))),
     b ++ concat (map wire_txer ts)).
Proof.
  unfold aggregator_solver.push_txers. apply push_loop_wire.
  clear. intros x b t. unfold pushBackVal_uint128. u32_sum.
  rewrite length_wire_txer. unfold wire_txer, wire_uint128.
  rewrite <- !app_assoc. f_equal. f_equal. lia.
Qed.

Lemma push_rules_wire (rules : list aggregator_solver.Rule)
      (x : Z) (b : Buffer) :
  aggregator_solver.push_rules rules (u32 x) b
  = (u32 (x + Z.of_nat (length (concat (map wire_rule rules)))),
     b ++ concat (map wire_rule rules)).
Proof.
  unfold aggregator_solver.push_rules. apply push_loop_wire.
  clear. intros x b rule. cbn [pushBackVal]. u32_sum.
  rewrite push_txers_wire. u32_sum.
  unfold wire_rule.
  rewrite be_bytes_u32, !length_app, !length_be_bytes, <- !app_assoc.
  f_equal. f_equal. lia.
Qed.

Lemma makeSubscribeReqMsg_wire (rules : aggregator_solver.Subscription) :
  aggregator_solver.makeSubscribeReqMsg rules
  = frame aggregator_solver.subscription_request (wire_subscription rules).
Proof.
  unfold aggregator_solver.makeSubscribeReqMsg. cbn [pushBackVal].
  change [x00; x00; x00; x00;
          byte_of_Z aggregator_solver.subscription_request]
    with (be_bytes 4 0 ++ be_bytes 1 aggregator_solver.subscription_request).
  change (u32 (1 + Z.of_nat 4)) with (u32 5).
  rewrite push_rules_wire.
  rewrite be_bytes_u32, <- !app_assoc.
  apply frame_close. unfold wire_subscription.
  rewrite !length_app, !length_be_bytes. f_equal. lia.
Qed.

(** X24: a subscription (rules with an 8-bit physical layer, transmitter
    identifiers and masks of two 64-bit halves, a 64-bit interval) whose
    frame fits the length field survives [makeSubscribeReqMsg] followed by
    [decodeSubscribeMsg] called with the size of the frame. *)
Theorem subscription_round_trip (rules : aggregator_solver.Subscription) :
  Forall wf_rule rules ->
  Z.of_nat (length (aggregator_solver.makeSubscribeReqMsg rules)) < 2 ^ 32 ->
  aggregator_solver.decodeSubscribeMsg
    (aggregator_solver.makeSubscribeReqMsg rules)
    (Z.of_nat (length (aggregator_solver.makeSubscribeReqMsg rules)))
  = rules.
Proof.
  intros Hwf Hfit. rewrite makeSubscribeReqMsg_wire in *.
  destruct (frame_header aggregator_solver.subscription_request _
              ltac:(split; [discriminate|reflexivity]) Hfit)
    as (E1 & E2 & E3 & _).
  pose proof (frame_body aggregator_solver.subscription_request
                (wire_subscription rules)) as R.
  unfold aggregator_solver.decodeSubscribeMsg.
  assert (H4 : (4 <? Z.of_nat (length (frame
                        aggregator_solver.subscription_request
                        (wire_subscription rules)))) = true)
    by (apply Z.ltb_lt; rewrite length_frame; lia).
  rewrite H4, E1, E2. unfold world_model.length_matches in E3.
  rewrite Z.eqb_sym, E3.
  cbn [andb orb Z.eqb aggregator_solver.subscription_request Pos.eqb].
  rewrite length_frame in Hfit.
  unfold wire_subscription in R at 2. unfold wire_subscription in Hfit.
  rewrite !length_app, !length_be_bytes in Hfit.
  pose proof (rules_count_le rules) as Hcount.
  rewrite <- !app_assoc in R.
  read_off (decodes_u32 (Z.of_nat (length rules)) ltac:(lia)) R.
  rewrite Nat2Z.id.
  read_off (decodes_rules rules Hwf ltac:(lia)) R.
  reflexivity.
Qed.

Lemma subscription_round_trip_witness :
  let rules :=
    [aggregator_solver.mkRule 1
       [aggregator_solver.mkTransmitter (mk_uint128 0 77)
                                        (mk_uint128 0 255)] 4000;
     aggregator_solver.mkRule 2 [] 0] in
  (Forall wf_rule rules
   /\ Z.of_nat (length (aggregator_solver.makeSubscribeReqMsg rules)) < 2 ^ 32)
  /\ aggregator_solver.decodeSubscribeMsg
       (aggregator_solver.makeSubscribeReqMsg rules)
       (Z.of_nat (length (aggregator_solver.makeSubscribeReqMsg rules)))
     = rules.
Proof.
  intros rules.
  assert (H1 : Forall wf_rule rules).
  { unfold rules, wf_rule, wf_txer, wf_uint128.
    repeat first [split | constructor]; vm_compute; congruence. }
  assert (H2 : Z.of_nat (length (aggregator_solver.makeSubscribeReqMsg rules))
               < 2 ^ 32) by reflexivity.
  split; [split; assumption|].
  exact (subscription_round_trip rules H1 H2).
Defined.

(** ** The receiver and the byte stream *)

Lemma receive_loop_eq (interrupted : bool)
      (answers : list MessageReceiver.recv_result) (pending : Buffer)
      (piece_length : Z) (calls : nat) :
  MessageReceiver.receive_loop interrupted answers pending piece_length calls
  = if MessageReceiver.needs_more interrupted pending piece_length then
      match answers with
      | [] => MessageReceiver.Waiting
      | MessageReceiver.RecvWouldBlock :: rest =>
          MessageReceiver.receive_loop interrupted rest pending piece_length
                                       (S calls)
      | MessageReceiver.RecvError :: _ => MessageReceiver.Thrown
      | MessageReceiver.RecvBytes bs :: rest =>
          let received := take MessageReceiver.raw_messages_size bs in
          if (length received =? 0)%nat then MessageReceiver.Thrown
          else
            let pending := pending ++ received in
            let piece_length :=
              if (4 <=? length pending)%nat
              then MessageReceiver.piece_length_of pending
              else piece_length in
            MessageReceiver.receive_loop interrupted rest pending piece_length
                                         (S calls)
      end
    else MessageReceiver.Returned (pending, answers, calls).
Proof. destruct answers; reflexivity. Qed.

Lemma whole_piece_ge4 (fr : Buffer) : whole_piece fr -> (4 <= length fr)%nat.
Proof.
  intros [Hl _]. pose proof (be_val_range (take 4 fr)). lia.
Qed.

(** Once four bytes of the stream are pending, the receiver knows the size
    of the piece. *)
Lemma piece_length_of_stream (pending more fr rest : Buffer) :
  whole_piece fr -> pending ++ more = fr ++ rest ->
  (4 <= length pending)%nat ->
  MessageReceiver.piece_length_of pending = Z.of_nat (length fr).
Proof.
  intros Hfr Hs H4. pose proof (whole_piece_ge4 fr Hfr) as Hf4.
  destruct Hfr as [Hl Hlt].
  rewrite piece_length_of_ge4 by exact H4.
  assert (Ht : take 4 pending = take 4 fr).
  { rewrite <- (take_app_le pending more 4) by lia.
    rewrite Hs. apply take_app_le. lia. }
  rewrite Ht, <- Hl. apply u32_small. lia.
Qed.

Lemma receive_loop_reassembles (fr rest : Buffer) :
  whole_piece fr ->
  forall (answers : list MessageReceiver.recv_result) (pending : Buffer)
         (calls : nat),
    delivers answers ->
    pending ++ stream_of answers = fr ++ rest ->
    exists pending1 used answers1,
      MessageReceiver.receive_loop
        false answers pending (MessageReceiver.known_piece_length pending)
        calls
      = MessageReceiver.Returned (pending1, answers1, (calls + length used)%nat)
      /\ answers = used ++ answers1
      /\ pending1 = pending ++ stream_of used
      /\ (length fr <= length pending1)%nat.
Proof.
  intros Hfr. pose proof (whole_piece_ge4 fr Hfr) as Hf4.
  induction answers as [|a answers IH]; intros pending calls Hd Hs.
  - cbn [stream_of map concat] in Hs. rewrite app_nil_r in Hs. subst pending.
    rewrite receive_loop_eq.
    assert (Hpl : MessageReceiver.known_piece_length (fr ++ rest)
                  = Z.of_nat (length fr)).
    { unfold MessageReceiver.known_piece_length.
      destruct (Nat.leb_spec 4 (length (fr ++ rest))) as [H|H];
        [|rewrite length_app in H; lia].
      apply (piece_length_of_stream _ [] fr rest Hfr);
        [apply app_nil_r|exact H]. }
    rewrite Hpl. unfold MessageReceiver.needs_more. cbn [negb andb].
    rewrite length_app.
    destruct (Nat.ltb_spec (length fr + length rest) 4); [lia|].
    destruct (Z.ltb_spec (Z.of_nat (length fr + length rest))
                         (Z.of_nat (length fr))); [lia|].
    cbn [orb]. exists (fr ++ rest), [], [].
    cbn [stream_of map concat length].
    rewrite Nat.add_0_r, !app_nil_r, length_app.
    split; [reflexivity|]. split; [reflexivity|]. split; [reflexivity|lia].
  - rewrite receive_loop_eq.
    destruct (Nat.le_gt_cases (length fr) (length pending)) as [Hge|Hlt].
    + assert (Hpl : MessageReceiver.known_piece_length pending
                    = Z.of_nat (length fr)).
      { unfold MessageReceiver.known_piece_length.
        destruct (Nat.leb_spec 4 (length pending)) as [H|H]; [|lia].
        exact (piece_length_of_stream _ _ fr rest Hfr Hs H). }
      rewrite Hpl. unfold MessageReceiver.needs_more. cbn [negb andb].
      destruct (Nat.ltb_spec (length pending) 4); [lia|].
      destruct (Z.ltb_spec (Z.of_nat (length pending))
                           (Z.of_nat (length fr))); [lia|].
      cbn [orb]. exists pending, [], (a :: answers).
      rewrite Nat.add_0_r. cbn [stream_of map concat length].
      rewrite !app_nil_r.
      split; [reflexivity|]. split; [reflexivity|]. split;
        [reflexivity|exact Hge].
    + assert (Hmore : MessageReceiver.needs_more
                        false pending
                        (MessageReceiver.known_piece_length pending) = true).
      { unfold MessageReceiver.needs_more, MessageReceiver.known_piece_length.
        cbn [negb andb].
        destruct (Nat.leb_spec 4 (length pending)) as [H|H].
        - rewrite (piece_length_of_stream _ _ fr rest Hfr Hs H).
          destruct (Nat.ltb_spec (length pending) 4); [reflexivity|].
          cbn [orb]. apply Z.ltb_lt. lia.
        - destruct (Nat.ltb_spec (length pending) 4); [reflexivity|lia]. }
      rewrite Hmore. inversion Hd as [|a' answers' Ha Hd']; subst.
      destruct a as [bs| |]; [| |destruct Ha].
      * cbv zeta.
        rewrite (take_ge bs) by lia.
        destruct (Nat.eqb_spec (length bs) 0) as [H0|_]; [lia|].
        cbn [stream_of map concat] in Hs. rewrite app_assoc in Hs.
        destruct (IH (pending ++ bs) (S calls) Hd' Hs)
          as (pending1 & used & answers1 & E & Ha1 & Hp1 & Hlen).
        assert (Hk : (if (4 <=? length (pending ++ bs))%nat
                      then MessageReceiver.piece_length_of (pending ++ bs)
                      else MessageReceiver.known_piece_length pending)
                     = MessageReceiver.known_piece_length (pending ++ bs)).
        { unfold MessageReceiver.known_piece_length.
          destruct (Nat.leb_spec 4 (length (pending ++ bs))) as [H|H];
            [reflexivity|].
          rewrite length_app in H.
          destruct (Nat.leb_spec 4 (length pending)); [lia|reflexivity]. }
        rewrite Hk, E.
        exists pending1, (MessageReceiver.RecvBytes bs :: used), answers1.
        cbn [length stream_of map concat app].
        replace (calls + S (length used))%nat
          with (S calls + length used)%nat by lia.
        subst answers pending1. rewrite <- app_assoc in *.
        split; [reflexivity|]. split; [reflexivity|]. split;
          [reflexivity|exact Hlen].
      * cbn [stream_of map concat app] in Hs.
        destruct (IH pending (S calls) Hd' Hs)
          as (pending1 & used & answers1 & E & Ha1 & Hp1 & Hlen).
        rewrite E.
        exists pending1, (MessageReceiver.RecvWouldBlock :: used), answers1.
        cbn [length stream_of map concat app].
        replace (calls + S (length used))%nat
          with (S calls + length used)%nat by lia.
        subst answers pending1.
        split; [reflexivity|]. split; [reflexivity|]. split;
          [reflexivity|exact Hlen].
Qed.

Lemma stream_of_app (a b : list MessageReceiver.recv_result) :
  stream_of (a ++ b) = stream_of a ++ stream_of b.
Proof. unfold stream_of. rewrite map_app, concat_app. reflexivity. Qed.

(** X25: the receiver cuts the byte stream at the piece boundaries however
    the socket chops the stream up.  When the bytes pending and the bytes
    the socket will deliver (in non-empty reads of at most 10000 bytes,
    with any number of would-block answers between them) begin with a
    whole piece [fr], [getNextMessage] returns exactly [fr]; it consumes
    only some of the answers, and what it keeps pending followed by what
    the socket has not delivered yet is the rest of the stream, so that the
    next call is in the same position for the next piece. *)
Theorem getNextMessage_reassembles (fr rest pending : Buffer)
        (answers : list MessageReceiver.recv_result)
        (polls : list MessageReceiver.ready_result) (calls : nat) :
  whole_piece fr -> delivers answers ->
  pending ++ stream_of answers = fr ++ rest ->
  exists used answers' pending',
    MessageReceiver.getNextMessage
      false
      (MessageReceiver.mkState pending
         (MessageReceiver.mkSocket polls answers calls))
    = MessageReceiver.Returned
        (fr, MessageReceiver.mkState pending'
               (MessageReceiver.mkSocket polls answers'
                                         (calls + length used)))
    /\ answers = used ++ answers'
    /\ delivers answers'
    /\ pending' ++ stream_of answers' = rest.
Proof.
  intros Hfr Hd Hs.
  destruct (receive_loop_reassembles fr rest Hfr answers pending calls Hd Hs)
    as (pending1 & used & answers1 & E & Ha & Hp & Hlen).
  assert (Hs1 : pending1 ++ stream_of answers1 = fr ++ rest).
  { subst pending1 answers. rewrite stream_of_app, app_assoc in Hs. exact Hs. }
  pose proof (whole_piece_ge4 fr Hfr) as Hf4.
  assert (Hpl : MessageReceiver.piece_length_of pending1
                = Z.of_nat (length fr))
    by (apply (piece_length_of_stream _ _ fr rest Hfr Hs1); lia).
  assert (Htake : take (length fr) pending1 = fr).
  { rewrite <- (take_app_le pending1 (stream_of answers1)) by lia.
    rewrite Hs1. apply take_app_length. }
  assert (Hdrop : drop (length fr) pending1 ++ stream_of answers1 = rest).
  { rewrite <- drop_app_le by lia. rewrite Hs1. apply drop_app_length. }
  exists used, answers1.
  unfold MessageReceiver.getNextMessage.
  cbn [MessageReceiver.previous_unfinished MessageReceiver.sock
       MessageReceiver.reads MessageReceiver.io_calls MessageReceiver.polls].
  rewrite E, Hpl, Nat2Z.id, Htake.
  assert (Hd1 : delivers answers1).
  { subst answers. unfold delivers in *. apply Forall_app in Hd. tauto. }
  destruct (Z.ltb_spec (Z.of_nat (length fr)) (Z.of_nat (length pending1))).
  - exists (drop (length fr) pending1).
    split; [reflexivity|]. split; [exact Ha|]. split; [exact Hd1|exact Hdrop].
  - exists []. split; [reflexivity|]. split; [exact Ha|].
    split; [exact Hd1|].
    rewrite drop_ge in Hdrop by lia. exact Hdrop.
Qed.

Lemma getNextMessage_reassembles_witness :
  let fr := [x00; x00; x00; x01; x06] in
  let answers := [MessageReceiver.RecvBytes [x00; x00];
                  MessageReceiver.RecvWouldBlock;
                  MessageReceiver.RecvBytes [x00; x01; x06; x00; x00]] in
  (whole_piece fr /\ delivers answers
   /\ [] ++ stream_of answers = fr ++ [x00; x00])
  /\ exists used answers' pending',
      MessageReceiver.getNextMessage
        false
        (MessageReceiver.mkState []
           (MessageReceiver.mkSocket [] answers 0))
      = MessageReceiver.Returned
          (fr, MessageReceiver.mkState pending'
                 (MessageReceiver.mkSocket [] answers' (0 + length used)))
      /\ answers = used ++ answers'
      /\ delivers answers'
      /\ pending' ++ stream_of answers' = [x00; x00].
Proof.
  intros fr answers.
  assert (H1 : whole_piece fr) by (split; reflexivity).
  assert (H2 : delivers answers).
  { unfold answers, delivers, MessageReceiver.raw_messages_size.
    constructor; [cbn [length]; lia|].
    constructor; [exact I|].
    constructor; [cbn [length]; lia|]. constructor. }
  assert (H3 : [] ++ stream_of answers = fr ++ [x00; x00]) by reflexivity.
  split; [split; [exact H1|split; assumption]|].
  exact (getNextMessage_reassembles fr [x00; x00] [] answers [] 0 H1 H2 H3).
Defined.

(** X26: when [messageAvailable] has answered true, whatever its flag was,
    the next [getNextMessage] (not interrupted) returns at once, without a
    call on the socket: it returns the first bytes pending, as many as
    their first four bytes plus four say (in 32 bits), and keeps the
    others. *)
Theorem available_then_next_is_immediate (interrupted : bool)
        (st st' : MessageReceiver.state) :
  MessageReceiver.messageAvailable interrupted st
  = MessageReceiver.Returned (true, st') ->
  exists packet pending',
    MessageReceiver.getNextMessage false st'
    = MessageReceiver.Returned
        (packet, MessageReceiver.mkState pending' (MessageReceiver.sock st'))
    /\ packet ++ pending' = MessageReceiver.previous_unfinished st'
    /\ Z.of_nat (length packet)
       = u32 (be_val (take 4 (MessageReceiver.previous_unfinished st')) + 4)
    /\ (4 <= length (MessageReceiver.previous_unfinished st'))%nat.
Proof.
  intros Hav.
  assert (Hfull : (MessageReceiver.piece_length_of
                     (MessageReceiver.previous_unfinished st')
                   <=? Z.of_nat (length (MessageReceiver.previous_unfinished
                                           st'))) = true).
  { unfold MessageReceiver.messageAvailable in Hav.
    destruct (MessageReceiver.needs_more _ _ _).
    - destruct (MessageReceiver.inputReady (MessageReceiver.sock st))
        as [[| |] s]; try discriminate.
      destruct (MessageReceiver.reads s) as [|[bs| |] rest];
        try discriminate.
      destruct (length (take MessageReceiver.raw_messages_size bs) =? 0)%nat;
        [discriminate|].
      injection Hav as Ht <-. exact Ht.
    - injection Hav as Ht <-. exact Ht. }
  destruct st' as [pending [polls answers calls]].
  cbn [MessageReceiver.previous_unfinished MessageReceiver.sock] in *.
  apply Z.leb_le in Hfull.
  assert (H4 : (4 <= length pending)%nat).
  { destruct (Nat.le_gt_cases 4 (length pending)) as [H|H]; [exact H|].
    rewrite piece_length_of_lt4 in Hfull by exact H. lia. }
  pose proof (piece_length_of_ge4 pending H4) as Hpl.
  pose proof (u32_range (be_val (take 4 pending) + 4)) as Hr.
  unfold MessageReceiver.getNextMessage.
  cbn [MessageReceiver.previous_unfinished MessageReceiver.sock
       MessageReceiver.reads MessageReceiver.io_calls MessageReceiver.polls].
  rewrite receive_loop_eq.
  assert (Hno : MessageReceiver.needs_more
                  false pending (MessageReceiver.known_piece_length pending)
                = false).
  { unfold MessageReceiver.needs_more, MessageReceiver.known_piece_length.
    cbn [negb andb].
    destruct (Nat.leb_spec 4 (length pending)); [|lia].
    destruct (Nat.ltb_spec (length pending) 4); [lia|].
    cbn [orb]. apply Z.ltb_ge. exact Hfull. }
  rewrite Hno, Hpl in *.
  set (n := Z.to_nat (u32 (be_val (take 4 pending) + 4))).
  assert (Hn : Z.of_nat n = u32 (be_val (take 4 pending) + 4))
    by (subst n; apply Z2Nat.id; lia).
  destruct (Z.ltb_spec (u32 (be_val (take 4 pending) + 4))
                       (Z.of_nat (length pending))).
  - exists (take n pending), (drop n pending).
    split; [reflexivity|]. split; [apply take_drop|].
    split; [rewrite length_take; lia|exact H4].
  - exists (take n pending), [].
    split; [reflexivity|].
    rewrite take_ge by lia. split; [apply app_nil_r|]. split; [lia|exact H4].
Qed.

Lemma available_then_next_is_immediate_witness :
  let st := MessageReceiver.mkState
              [x00; x00; x00; x01; x06; x00]
              (MessageReceiver.mkSocket [] [] 0) in
  MessageReceiver.messageAvailable false st
  = MessageReceiver.Returned (true, st)
  /\ exists packet pending',
      MessageReceiver.getNextMessage false st
      = MessageReceiver.Returned
          (packet, MessageReceiver.mkState pending' (MessageReceiver.sock st))
      /\ packet ++ pending' = MessageReceiver.previous_unfinished st
      /\ Z.of_nat (length packet)
         = u32 (be_val (take 4 (MessageReceiver.previous_unfinished st)) + 4)
      /\ (4 <= length (MessageReceiver.previous_unfinished st))%nat.
Proof.
  intros st.
  assert (H : MessageReceiver.messageAvailable false st
              = MessageReceiver.Returned (true, st)) by reflexivity.
  split; [exact H|].
  exact (available_then_next_is_immediate false st st H).
Defined.

(** ** What the encoders build is what the receiver cuts *)

Lemma encoded_frame (kind : Z) (b : Buffer) :
  encoded kind b -> exists body, b = frame kind body.
Proof.
  intros H. destruct H.
  - eexists. apply makeSnapshotRequest_wire.
  - eexists. apply makeRangeRequest_wire.
  - eexists. apply makeStreamRequest_wire.
  - eexists. apply makeAttrAliasMsg_wire.
  - eexists. apply makeOriginAliasMsg_wire.
  - eexists. apply makeRequestComplete_wire.
  - eexists. apply makeCancelRequest_wire.
  - eexists. apply makeDataMessage_wire.
  - eexists. apply makeURISearch_wire.
  - exists (concat (map wire_sized_utf16 uris)).
    apply makeURISearchResponse_wire.
  - eexists. apply makeTypeAnnounceMsg_wire.
  - eexists. apply makeStartOnDemand_wire.
  - eexists. apply makeStopOnDemand_wire.
  - exists (be_bytes 1 (if c then 1 else 0)
            ++ be_bytes 4 (Z.of_nat (length l))
            ++ concat (map wire_solution l)).
    apply makeSolutionMsg_wire.
  - eexists. apply makeCreateURI_wire.
  - eexists. apply makeExpireURI_wire.
  - eexists. apply makeDeleteURI_wire.
  - eexists. apply makeExpireAttribute_wire.
  - eexists. apply makeDeleteAttribute_wire.
  - eexists. apply makeSubscribeReqMsg_wire.
  - eexists. apply makeSampleMsg_wire.
Qed.

(** X27: every frame that an encoder of the client, solver and
    aggregator-solver protocols builds, if it is shorter than 4 GiB, has in
    its first four bytes its own size minus four and at offset 4 the kind
    of the message; it is therefore a whole piece for the receiver, which
    cuts it out of the stream as it is. *)
Theorem encoders_build_frames (kind : Z) (b : Buffer) :
  encoded kind b -> Z.of_nat (length b) < 2 ^ 32 ->
  is_frame kind b /\ whole_piece b /\ (5 <= length b)%nat.
Proof.
  intros Henc Hfit. destruct (encoded_frame kind b Henc) as [body ->].
  pose proof (frame_is_frame kind body Hfit) as Hf.
  split; [exact Hf|]. destruct Hf as (Hl & Hlt & _).
  split; [split; assumption|]. rewrite length_frame. lia.
Qed.

Lemma encoders_build_frames_witness :
  let b := world_model.solver.makeDeleteURI (u16 "lamp.1") (u16 "solver.1") in
  (encoded world_model.solver.delete_uri b /\ Z.of_nat (length b) < 2 ^ 32)
  /\ (is_frame world_model.solver.delete_uri b /\ whole_piece b
      /\ (5 <= length b)%nat).
Proof.
  intros b.
  assert (H1 : encoded world_model.solver.delete_uri b)
    by apply enc_delete_uri.
  assert (H2 : Z.of_nat (length b) < 2 ^ 32) by reflexivity.
  split; [split; assumption|].
  exact (encoders_build_frames world_model.solver.delete_uri b H1 H2).
Defined.

(** X28: [decodeTypeAnnounceMsg] reads the origin after, and outside, the
    test of the header, so that it does not answer the empty pair to a
    frame of another kind: it returns no alias and the payload of the
    frame as the origin. *)
Theorem decodeTypeAnnounceMsg_other_kind (kind : Z) (str : list Z) :
  0 <= kind < 256 -> kind <> world_model.solver.type_announce ->
  wf_string str ->
  Z.of_nat (length (frame kind (wire_utf16 str))) < 2 ^ 32 ->
  world_model.solver.decodeTypeAnnounceMsg (frame kind (wire_utf16 str))
  = ([], str).
Proof.
  intros Hk Hne Hwf Hfit.
  destruct (frame_header kind _ Hk Hfit) as (E1 & E2 & E3 & _).
  pose proof (frame_body kind (wire_utf16 str)) as R.
  unfold world_model.solver.decodeTypeAnnounceMsg,
    world_model.solver.decodeTypeAnnounceMsg_run.
  rewrite E1, E2, E3.
  apply Z.eqb_neq in Hne. rewrite Hne. cbn [andb].
  read_rest str Hwf R. reflexivity.
Qed.

Lemma decodeTypeAnnounceMsg_other_kind_witness :
  (0 <= world_model.client.uri_search < 256
   /\ world_model.client.uri_search <> world_model.solver.type_announce
   /\ wf_string (u16 "lamp.*")
   /\ Z.of_nat (length (frame world_model.client.uri_search
                              (wire_utf16 (u16 "lamp.*")))) < 2 ^ 32)
  /\ world_model.solver.decodeTypeAnnounceMsg
       (world_model.client.makeURISearch (u16 "lamp.*"))
     = ([], u16 "lamp.*").
Proof.
  assert (H1 : 0 <= world_model.client.uri_search < 256)
    by (vm_compute; split; congruence).
  assert (H2 : world_model.client.uri_search
               <> world_model.solver.type_announce) by discriminate.
  assert (H3 : wf_string (u16 "lamp.*"))
    by (repeat constructor; vm_compute; congruence).
  assert (H4 : Z.of_nat (length (frame world_model.client.uri_search
                                       (wire_utf16 (u16 "lamp.*")))) < 2 ^ 32)
    by reflexivity.
  split; [split; [exact H1|split; [exact H2|split; assumption]]|].
  rewrite makeURISearch_wire.
  exact (decodeTypeAnnounceMsg_other_kind world_model.client.uri_search
           (u16 "lamp.*") H1 H2 H3 H4).
Defined.

(** X29: [pushBackVal(val, buff, index)] writes in place: when the [n]
    bytes at [index] lie inside the buffer, the buffer keeps its size, the
    bytes outside the [n] written are untouched, and the free
    [readPrimitive] at [index] gives the value back (modulo [256^n]). *)
Theorem pushBackValAt_in_place (n : nat) (v : Z) (b : Buffer) (index : nat) :
  (index + n <= length b)%nat ->
  length (snd (pushBackValAt n v b index)) = length b
  /\ (forall j, (j < index \/ index + n <= j)%nat ->
                snd (pushBackValAt n v b index) !! j = b !! j)
  /\ readPrimitiveAt n (snd (pushBackValAt n v b index)) index
     = v mod 256 ^ Z.of_nat n.
Proof.
  intros Hin. unfold pushBackValAt. cbn [snd].
  assert (Hlen : length (take index b ++ be_bytes n v ++ drop (index + n) b)
                 = length b).
  { rewrite !length_app, length_take, length_be_bytes, length_drop. lia. }
  split; [exact Hlen|]. split.
  - intros j [Hj|Hj]; unfold Buffer in *.
    + rewrite lookup_app_l by (rewrite length_take; lia).
      apply lookup_take_lt. exact Hj.
    + rewrite lookup_app_r by (rewrite length_take; lia).
      rewrite lookup_app_r by (rewrite length_take, length_be_bytes; lia).
      rewrite length_take, length_be_bytes, lookup_drop. f_equal. lia.
  - unfold readPrimitiveAt. rewrite Hlen.
    assert (Hd : take n (drop index (take index b ++ be_bytes n v
                                     ++ drop (index + n) b))
                 = be_bytes n v).
    { rewrite drop_app_length' by (rewrite length_take; lia).
      apply take_app_length'. rewrite length_be_bytes. reflexivity. }
    rewrite Hd, be_val_be_bytes.
    destruct (Nat.ltb_spec (index + (n - 1)) (length b)) as [H|H];
      [reflexivity|].
    assert (n = 0%nat) by lia. subst n. cbn. symmetry. apply Z.mod_1_r.
Qed.

Lemma pushBackValAt_in_place_witness :
  (0 + 4 <= length [x00; x00; x00; x00; x06; x07])%nat
  /\ length (snd (pushBackValAt 4 2 [x00; x00; x00; x00; x06; x07] 0))
     = length [x00; x00; x00; x00; x06; x07].
Proof.
  assert (H : (0 + 4 <= length [x00; x00; x00; x00; x06; x07])%nat)
    by (cbn; lia).
  split; [exact H|].
  exact (proj1 (pushBackValAt_in_place 4 2 [x00; x00; x00; x00; x06; x07] 0 H)).
Defined.

(** ** Strings that are cut short *)

Lemma readUTF16_zero_fill (k : nat) :
  forall r : BuffReader,
    let m := (k `min` ((length (buff r) - cur_index r) / 2))%nat in
    fst (readUTF16 k r)
    = map (fun i => be_val (take 2 (drop (cur_index r + 2 * i) (buff r))))
          (seq 0 m)
      ++ replicate (k - m) 0.
Proof.
  induction k as [|k IH]; intros r m; [reflexivity|].
  cbn [readUTF16]. unfold readPrimitive.
  destruct (Nat.leb_spec (cur_index r + 2) (length (buff r))) as [Hin|Hout].
  - specialize (IH (mkBuffReader (buff r) (cur_index r + 2) (out_of_range r))).
    cbn [buff cur_index] in IH.
    destruct (readUTF16 k _) as [str r'] eqn:E. cbn [fst] in *.
    assert (Hdiv : ((length (buff r) - cur_index r) / 2
                    = S ((length (buff r) - (cur_index r + 2)) / 2))%nat).
    { replace (length (buff r) - cur_index r)%nat
        with (length (buff r) - (cur_index r + 2) + 1 * 2)%nat by lia.
      rewrite Nat.div_add by lia. lia. }
    subst m. rewrite Hdiv, <- Nat.succ_min_distr.
    set (m' := (k `min` ((length (buff r) - (cur_index r + 2)) / 2))%nat) in *.
    cbn [seq map app]. rewrite Nat.mul_0_r, Nat.add_0_r.
    rewrite IH, <- seq_shift, map_map. cbn [Nat.sub].
    f_equal. f_equal. apply map_ext. intros i.
    replace (cur_index r + 2 + 2 * i)%nat with (cur_index r + 2 * S i)%nat
      by lia.
    reflexivity.
  - specialize (IH (mkBuffReader (buff r) (cur_index r) true)).
    cbn [buff cur_index] in IH.
    destruct (readUTF16 k _) as [str r'] eqn:E. cbn [fst] in *.
    assert (Hdiv : ((length (buff r) - cur_index r) / 2 = 0)%nat)
      by (apply Nat.div_small; lia).
    subst m. rewrite Hdiv in *. rewrite Nat.min_0_r in *.
    rewrite IH. cbn [seq map app]. rewrite !Nat.sub_0_r. reflexivity.
Qed.

(** X30: [readSizedUTF16] returns as many code units as the size field
    says, whatever the buffer holds: when the four bytes of the size are
    there, the result is the code units that are whole in the buffer,
    followed by zeros up to the declared number. *)
Theorem readSizedUTF16_zero_fill (r : BuffReader) :
  (cur_index r + 4 <= length (buff r))%nat ->
  let k := Z.to_nat (be_val (take 4 (remaining r)) / 2) in
  let m := (k `min` ((length (buff r) - (cur_index r + 4)) / 2))%nat in
  fst (readSizedUTF16 r)
  = map (fun i => be_val (take 2 (drop (cur_index r + 4 + 2 * i) (buff r))))
        (seq 0 m)
    ++ replicate (k - m) 0.
Proof.
  intros Hr k m. unfold readSizedUTF16.
  rewrite readPrimitive_ok by exact Hr.
  rewrite readUTF16_zero_fill. reflexivity.
Qed.

Lemma readSizedUTF16_zero_fill_witness :
  let r := BuffReader_new [x00; x00; x00; x06; x00; x61; x00] in
  (cur_index r + 4 <= length (buff r))%nat
  /\ fst (readSizedUTF16 r) = [97; 0; 0].
Proof.
  intros r.
  assert (H : (cur_index r + 4 <= length (buff r))%nat) by (cbn; lia).
  split; [exact H|].
  exact (readSizedUTF16_zero_fill r H).
Defined.

(** * Counts and lengths inside a frame (C4) *)

Lemma wire_data_response_frame (uri : world_model.URI) (ticket n : Z)
      (rest : list byte) :
  wire_data_response uri ticket n rest
  = frame world_model.client.data_response
          (wire_sized_utf16 uri ++ be_bytes 4 ticket ++ be_bytes 4 n ++ rest).
Proof. reflexivity. Qed.

(** The loops over attributes and rules, cut in two. *)
Lemma read_attributes_app (j k : nat) :
  forall r : BuffReader,
    world_model.client.read_attributes (j + k) r
    = let '(front, r1) := world_model.client.read_attributes j r in
      let '(back, r2) := world_model.client.read_attributes k r1 in
      (front ++ back, r2).
Proof.
  induction j as [|j IH]; intros r;
    cbn [Nat.add world_model.client.read_attributes].
  - destruct (world_model.client.read_attributes k r). reflexivity.
  - destruct (readPrimitive 4 r) as [na r1].
    destruct (readPrimitive_int64 r1) as [cd r2].
    destruct (readPrimitive_int64 r2) as [ed r3].
    destruct (readPrimitive 4 r3) as [oa r4].
    destruct (readSizedVector r4) as [d r5].
    rewrite IH.
    destruct (world_model.client.read_attributes j r5) as [front r6].
    destruct (world_model.client.read_attributes k r6) as [back r7].
    reflexivity.
Qed.

Lemma read_rules_app (j k : nat) :
  forall r : BuffReader,
    aggregator_solver.read_rules (j + k) r
    = let '(front, r1) := aggregator_solver.read_rules j r in
      let '(back, r2) := aggregator_solver.read_rules k r1 in
      (front ++ back, r2).
Proof.
  induction j as [|j IH]; intros r;
    cbn [Nat.add aggregator_solver.read_rules].
  - destruct (aggregator_solver.read_rules k r). reflexivity.
  - destruct (readPrimitive 1 r) as [phy r1].
    destruct (readPrimitive 4 r1) as [nt r2].
    destruct (aggregator_solver.read_txers (Z.to_nat nt) r2) as [ts r3].
    destruct (readPrimitive 8 r3) as [iv r4].
    rewrite IH.
    destruct (aggregator_solver.read_rules j r4) as [front r5].
    destruct (aggregator_solver.read_rules k r5) as [back r6].
    reflexivity.
Qed.

(** A sized vector whose length field announces more bytes than follow is
    read as the bytes that follow. *)
Lemma readSizedVector_short (declared : Z) (d : list byte) (r : BuffReader) :
  0 <= declared < 2 ^ 32 -> Z.of_nat (length d) <= declared ->
  remaining r = be_bytes 4 declared ++ d ->
  readSizedVector r = (d, advance (4 + length d) r).
Proof.
  intros Hd Hle R.
  pose proof (remaining_fits r _ _ R) as Hfits.
  rewrite length_be_bytes in Hfits. specialize (Hfits ltac:(lia)).
  destruct (readPrimitive_wire 4 _ r _ ltac:(lia) R) as [E1 R1].
  unfold readSizedVector. rewrite E1.
  change (256 ^ Z.of_nat 4) with (2 ^ 32). rewrite Z.mod_small by lia.
  rewrite Z.div_1_r, readSizedVector_loop_take by (cbn; lia).
  rewrite R1, take_ge, Nat.min_r, advance_advance by lia.
  reflexivity.
Qed.

(** Past the end of the buffer every rule is read as zeros. *)
Lemma read_rules_exhausted (k : nat) :
  forall r : BuffReader,
    (length (buff r) <= cur_index r)%nat ->
    fst (aggregator_solver.read_rules k r)
    = replicate k (aggregator_solver.mkRule 0 [] 0).
Proof.
  induction k as [|k IH]; intros r Hr;
    cbn [aggregator_solver.read_rules replicate]; [reflexivity|].
  rewrite (readPrimitive_fail 1 r) by lia.
  rewrite (readPrimitive_fail 4) by (cbn; lia).
  change (Z.to_nat 0) with 0%nat.
  cbn [aggregator_solver.read_txers buff cur_index].
  rewrite (readPrimitive_fail 8) by (cbn; lia).
  cbn [buff cur_index].
  specialize (IH (mkBuffReader (buff r) (cur_index r) true) Hr).
  destruct (aggregator_solver.read_rules k _) as [rules r'].
  cbn [fst] in *. rewrite IH. reflexivity.
Qed.

(** C4, as the code has it.  In a [data_response] frame whose length field
    is consistent, an attribute count [n] that the bytes after it cannot
    satisfy (every attribute takes 28 bytes before its data) makes
    [decodeDataMessage] return the empty value and ticket 0.  The length of
    a sized byte blob is not such a count: [readSizedVector] returns the
    bytes that are there, at most the declared number, and leaves the flag
    as it was; so a [data_response] frame of well-formed attributes whose
    last attribute announces more data bytes than the frame still holds is
    accepted, with all its attributes, the last one with the data bytes
    that are there, and with its ticket.  [decodeSubscribeMsg] never looks
    at the flag: on a frame of a subscription kind it returns as many rules
    as the count field says, whatever the bytes after it; when the frame
    announces [count] rules and holds fewer whole rules and nothing else,
    it returns those rules followed by rules of zeros (physical layer 0,
    no transmitters, interval 0) up to [count]. *)
Theorem embedded_counts
        (uri : world_model.URI) (ticket n : Z) (rest : list byte)
        (r : BuffReader) (b : Buffer)
        (attrs : list world_model.AliasedAttribute)
        (last : world_model.AliasedAttribute) (declared : Z)
        (kind count : Z) (rules : aggregator_solver.Subscription) :
  (wf_string uri -> 0 <= n < 2 ^ 32 ->
   Z.of_nat (length (wire_data_response uri ticket n rest)) < 2 ^ 32 ->
   Z.of_nat (length rest) < 28 * n ->
   world_model.client.decodeDataMessage (wire_data_response uri ticket n rest)
   = (world_model.client.AliasedWorldData_empty, 0))
  /\ ((cur_index r + 4 <= length (buff r))%nat ->
      fst (readSizedVector r)
      = take (Z.to_nat (be_val (take 4 (remaining r)))) (drop 4 (remaining r))
      /\ out_of_range (snd (readSizedVector r)) = out_of_range r)
  /\ (let fr :=
        wire_data_response
          uri ticket (Z.of_nat (length attrs) + 1)
          (concat (map wire_attribute attrs)
           ++ wire_attribute_declaring last declared) in
      wf_string uri -> 0 <= ticket < 2 ^ 32 ->
      Forall wf_attribute attrs -> wf_attribute last ->
      Z.of_nat (length (world_model.data last)) < declared < 2 ^ 32 ->
      Z.of_nat (length fr) < 2 ^ 32 ->
      world_model.client.decodeDataMessage fr
      = (world_model.mkAliasedWorldData uri (attrs ++ [last]), ticket))
  /\ (is_frame aggregator_solver.subscription_request b
      \/ is_frame aggregator_solver.subscription_response b ->
      (9 <= length b)%nat ->
      length (aggregator_solver.decodeSubscribeMsg b (Z.of_nat (length b)))
      = Z.to_nat (be_val (take 4 (drop 5 b))))
  /\ (let fr := frame kind (be_bytes 4 count ++ concat (map wire_rule rules)) in
      kind = aggregator_solver.subscription_request
      \/ kind = aggregator_solver.subscription_response ->
      Forall wf_rule rules ->
      Z.of_nat (length rules) < count < 2 ^ 32 ->
      Z.of_nat (length fr) < 2 ^ 32 ->
      aggregator_solver.decodeSubscribeMsg fr (Z.of_nat (length fr))
      = rules ++ replicate (Z.to_nat count - length rules)
                           (aggregator_solver.mkRule 0 [] 0)).
Proof.
  split; [|split; [|split; [|split]]].
  - intros Huri Hn Hfit Hrest.
    unfold wire_data_response in *.
    set (payload := be_bytes 1 world_model.client.data_response
                    ++ wire_sized_utf16 uri ++ be_bytes 4 ticket
                    ++ be_bytes 4 n ++ rest) in *.
    set (fr := be_bytes 4 (Z.of_nat (length payload)) ++ payload) in *.
    assert (Hfr : length fr = (4 + length payload)%nat)
      by (subst fr; rewrite length_app, length_be_bytes; reflexivity).
    assert (Hpl : length payload
                  = (1 + length (wire_sized_utf16 uri) + 4 + 4 + length rest)%nat).
    { subst payload. rewrite !length_app, !length_be_bytes. lia. }
    assert (Hul : Z.of_nat (length uri) * 2 < 2 ^ 32).
    { unfold wire_sized_utf16 in Hpl.
      rewrite length_app, length_be_bytes, length_wire_utf16 in Hpl. lia. }
    assert (R0 : remaining (BuffReader_new fr)
                 = be_bytes 4 (Z.of_nat (length payload)) ++ payload)
      by reflexivity.
    destruct (readPrimitive_wire 4 _ _ _ ltac:(lia) R0) as [E1 R1].
    unfold payload in R1.
    destruct (readPrimitive_wire 1 _ _ _ ltac:(lia) R1) as [E2 R2].
    destruct (readSizedUTF16_wire uri _ _ Huri Hul R2) as [E3 R3].
    destruct (readPrimitive_wire 4 _ _ _ ltac:(lia) R3) as [E4 R4].
    destruct (readPrimitive_wire 4 _ _ _ ltac:(lia) R4) as [E5 R5].
    unfold world_model.client.decodeDataMessage,
      world_model.client.decodeDataMessage_run.
    rewrite E1, E2. change (256 ^ Z.of_nat 4) with (2 ^ 32) in *.
    rewrite (Z.mod_small (Z.of_nat (length payload))) by lia.
    assert (Hm : world_model.length_matches fr (Z.of_nat (length payload)) = true).
    { unfold world_model.length_matches. rewrite u32_small by lia.
      apply Z.eqb_eq. lia. }
    rewrite Hm.
    change (world_model.client.data_response
            =? world_model.client.data_response mod 256 ^ Z.of_nat 1) with true.
    cbn [andb]. rewrite E3, E4, E5. rewrite (Z.mod_small n) by lia.
    rewrite !advance_advance in *.
    match goal with
    | |- context [world_model.client.read_attributes ?k ?rd] =>
        pose proof (read_attributes_consumes k rd) as Hc;
        destruct (world_model.client.read_attributes k rd) as [ats r6]
    end.
    cbn [snd] in Hc. destruct Hc as (_ & _ & Hin & Hflag).
    unfold outOfRange. destruct (out_of_range r6); [reflexivity|].
    exfalso. destruct (Hflag eq_refl) as [_ Hadv].
    cbn [advance buff cur_index BuffReader_new] in Hin, Hadv.
    specialize (Hin ltac:(lia)). lia.
  - intros Hr. unfold readSizedVector. rewrite readPrimitive_ok by exact Hr.
    fold (remaining r).
    rewrite readSizedVector_loop_take by (cbn; lia). cbn [fst snd].
    rewrite Z.div_1_r. split; [|reflexivity].
    f_equal. unfold remaining. cbn [buff cur_index]. rewrite drop_drop.
    reflexivity.
  - intros fr Huri Ht Hattrs Hlast Hdecl Hfit. subst fr.
    rewrite wire_data_response_frame in *.
    set (body := wire_sized_utf16 uri ++ be_bytes 4 ticket
                 ++ be_bytes 4 (Z.of_nat (length attrs) + 1)
                 ++ concat (map wire_attribute attrs)
                 ++ wire_attribute_declaring last declared) in *.
    destruct (frame_header world_model.client.data_response body
                ltac:(split; [discriminate|reflexivity]) Hfit)
      as (E1 & E2 & E3 & _).
    pose proof (frame_body world_model.client.data_response body) as R.
    unfold world_model.client.decodeDataMessage,
      world_model.client.decodeDataMessage_run.
    rewrite E1, E2, E3. clear E1 E2 E3.
    cbn [andb Z.eqb world_model.client.data_response Pos.eqb].
    rewrite length_frame in Hfit.
    unfold body in R at 2. unfold body in Hfit.
    rewrite !length_app, !length_be_bytes, length_wire_sized_utf16 in Hfit.
    pose proof (attributes_count_le attrs) as Hcount.
    rewrite <- !app_assoc in R.
    read_off (decodes_sized_utf16 uri Huri ltac:(lia)) R.
    read_off (decodes_u32 ticket Ht) R.
    read_off (decodes_u32 (Z.of_nat (length attrs) + 1) ltac:(lia)) R.
    replace (Z.to_nat (Z.of_nat (length attrs) + 1))
      with (length attrs + 1)%nat by lia.
    rewrite read_attributes_app.
    read_off (decodes_attributes attrs Hattrs ltac:(lia)) R.
    destruct last as [na cd ed oa d].
    destruct Hlast as (Hna & Hcd & Hed & Hoa).
    unfold wire_attribute_declaring in R.
    cbn [world_model.name_alias world_model.creation_date
         world_model.expiration_date world_model.origin_alias
         world_model.data] in *.
    cbn [Nat.add world_model.client.read_attributes].
    rewrite <- !app_assoc in R.
    read_off (decodes_u32 na Hna) R.
    read_off (decodes_int64 cd Hcd) R.
    read_off (decodes_int64 ed Hed) R.
    read_off (decodes_u32 oa Hoa) R.
    rewrite app_nil_r in R.
    rewrite (readSizedVector_short declared d _ ltac:(lia) ltac:(lia) R).
    cbn [outOfRange advance out_of_range]. reflexivity.
  - intros Hsub Hb9.
    unfold aggregator_solver.decodeSubscribeMsg.
    assert (H4 : (4 <? Z.of_nat (length b)) = true) by (apply Z.ltb_lt; lia).
    rewrite H4.
    assert (Hc : exists id,
               (id = aggregator_solver.subscription_request
                \/ id = aggregator_solver.subscription_response)
               /\ is_frame id b).
    { destruct Hsub; eauto. }
    destruct Hc as (id & Hid & Hf).
    destruct (is_frame_reads id b) as (E1 & E2 & E3);
      [destruct Hid; subst id; cbv; split; congruence | exact Hf |].
    rewrite E1, E2. unfold world_model.length_matches in E3.
    rewrite Z.eqb_sym, E3.
    assert (Hk : ((aggregator_solver.subscription_request =? id)
                  || (aggregator_solver.subscription_response =? id)) = true)
      by (destruct Hid; subst id; reflexivity).
    rewrite Hk. cbn [andb].
    rewrite readPrimitive_ok by (cbn; lia). cbn [buff cur_index].
    apply read_rules_length.
  - intros fr Hkind Hrules Hcount Hfit. subst fr.
    set (body := be_bytes 4 count ++ concat (map wire_rule rules)) in *.
    assert (Hk : 0 <= kind < 256)
      by (destruct Hkind; subst kind; cbv; split; congruence).
    destruct (frame_header kind body Hk Hfit) as (E1 & E2 & E3 & _).
    pose proof (frame_body kind body) as R.
    unfold aggregator_solver.decodeSubscribeMsg.
    assert (H4 : (4 <? Z.of_nat (length (frame kind body))) = true)
      by (apply Z.ltb_lt; rewrite length_frame; lia).
    rewrite H4, E1, E2. unfold world_model.length_matches in E3.
    rewrite Z.eqb_sym, E3.
    assert (Hor : ((aggregator_solver.subscription_request =? kind)
                   || (aggregator_solver.subscription_response =? kind)) = true)
      by (destruct Hkind; subst kind; reflexivity).
    rewrite Hor. cbn [andb].
    rewrite length_frame in Hfit.
    unfold body in R at 2. unfold body in Hfit.
    rewrite length_app, length_be_bytes in Hfit.
    rewrite <- !app_assoc in R.
    read_off (decodes_u32 count ltac:(lia)) R.
    set (m := (Z.to_nat count - length rules)%nat).
    replace (Z.to_nat count) with (length rules + m)%nat by lia.
    rewrite read_rules_app.
    read_off (decodes_rules rules Hrules ltac:(lia)) R.
    match goal with
    | |- context [aggregator_solver.read_rules m ?rd] =>
        pose proof (read_rules_exhausted m rd) as Hz;
        destruct (aggregator_solver.read_rules m rd) as [back r2]
    end.
    cbn [fst] in *. rewrite Hz; [reflexivity|].
    apply (f_equal (@length byte)) in R. unfold remaining in R.
    rewrite length_drop in R. cbn [length] in R. lia.
Qed.

Lemma embedded_counts_witness :
  let uri := u16 "a" in
  let rest := [x00; x00; x00; x01] in
  let r := BuffReader_new [x00; x00; x00; x05; xaa; xbb] in
  let b := [x00; x00; x00; x05; x03; x00; x00; x00; x02] in
  let attrs := [world_model.mkAliasedAttribute 1 1000 (-1) 3 [x01]] in
  let last := world_model.mkAliasedAttribute 2 0 0 3 [xaa; xbb] in
  let rules := [aggregator_solver.mkRule 1 [] 4000] in
  (Z.of_nat (length rest) < 28 * 1
   /\ Z.of_nat (length (world_model.data last)) < 5 < 2 ^ 32
   /\ Z.of_nat (length rules) < 3 < 2 ^ 32)
  /\ world_model.client.decodeDataMessage (wire_data_response uri 7 1 rest)
     = (world_model.client.AliasedWorldData_empty, 0)
  /\ fst (readSizedVector r) = [xaa; xbb]
  /\ world_model.client.decodeDataMessage
       (wire_data_response
          uri 7 2
          (concat (map wire_attribute attrs)
           ++ wire_attribute_declaring last 5))
     = (world_model.mkAliasedWorldData uri (attrs ++ [last]), 7)
  /\ length (aggregator_solver.decodeSubscribeMsg b (Z.of_nat (length b)))
     = 2%nat
  /\ aggregator_solver.decodeSubscribeMsg
       (frame aggregator_solver.subscription_request
              (be_bytes 4 3 ++ concat (map wire_rule rules))) 22
     = rules ++ [aggregator_solver.mkRule 0 [] 0;
                 aggregator_solver.mkRule 0 [] 0].
Proof.
  intros uri rest r b attrs last rules.
  assert (H1 : wf_string uri) by (repeat constructor; cbn; lia).
  assert (H2 : 0 <= 1 < 2 ^ 32) by lia.
  assert (H3 : Z.of_nat (length (wire_data_response uri 7 1 rest)) < 2 ^ 32)
    by (vm_compute; reflexivity).
  assert (H4 : Z.of_nat (length rest) < 28 * 1) by (cbn; lia).
  assert (H5 : (cur_index r + 4 <= length (buff r))%nat) by (cbn; lia).
  assert (H6 : is_frame aggregator_solver.subscription_request b
               \/ is_frame aggregator_solver.subscription_response b)
    by (left; repeat split; vm_compute; reflexivity).
  assert (H7 : (9 <= length b)%nat) by (cbn; lia).
  assert (H8 : 0 <= 7 < 2 ^ 32) by lia.
  assert (H9 : Forall wf_attribute attrs).
  { constructor; [|constructor].
    unfold wf_attribute, wf_time. cbn. lia. }
  assert (H10 : wf_attribute last).
  { unfold wf_attribute, wf_time. cbn. lia. }
  assert (H11 : Z.of_nat (length (world_model.data last)) < 5 < 2 ^ 32)
    by (cbn; lia).
  assert (H12 : Z.of_nat (length
                  (wire_data_response
                     uri 7 (Z.of_nat (length attrs) + 1)
                     (concat (map wire_attribute attrs)
                      ++ wire_attribute_declaring last 5))) < 2 ^ 32)
    by (vm_compute; reflexivity).
  assert (H13 : aggregator_solver.subscription_request
                = aggregator_solver.subscription_request
                \/ aggregator_solver.subscription_request
                   = aggregator_solver.subscription_response)
    by (left; reflexivity).
  assert (H14 : Forall wf_rule rules).
  { constructor; [|constructor].
    unfold wf_rule. cbn. split; [lia|]. split; [constructor|lia]. }
  assert (H15 : Z.of_nat (length rules) < 3 < 2 ^ 32) by (cbn; lia).
  assert (H16 : Z.of_nat (length
                  (frame aggregator_solver.subscription_request
                         (be_bytes 4 3 ++ concat (map wire_rule rules))))
                < 2 ^ 32)
    by (vm_compute; reflexivity).
  destruct (embedded_counts uri 7 1 rest r b attrs last 5
              aggregator_solver.subscription_request 3 rules)
    as (Ea & Eb & Ec & Ed & Ee).
  split; [split; [exact H4|split; [exact H11|exact H15]]|].
  split; [exact (Ea H1 H2 H3 H4)|].
  split; [exact (proj1 (Eb H5))|].
  split; [exact (Ec H1 H8 H9 H10 H11 H12)|].
  split; [exact (Ed H6 H7)|].
  exact (Ee H13 H14 H15 H16).
Defined.

(** C4 as stated fails.  A subscription frame that announces one rule and
    ends there is decoded to one rule of zeros, not to the empty
    subscription; a [data_response] frame whose only attribute announces
    five bytes of data and carries two is decoded to that attribute with
    the two bytes, under its own ticket. *)
Lemma embedded_counts_not_rejected :
  let b := [x00; x00; x00; x05; x03; x00; x00; x00; x01] in
  let fr :=
    wire_data_response
      [] 7 1
      (be_bytes 4 1 ++ be_bytes 8 0 ++ be_bytes 8 0 ++ be_bytes 4 1
       ++ be_bytes 4 5 ++ [xaa; xbb]) in
  (is_frame aggregator_solver.subscription_request b
   /\ aggregator_solver.decodeSubscribeMsg b (Z.of_nat (length b))
      = [aggregator_solver.mkRule 0 [] 0]
   /\ aggregator_solver.decodeSubscribeMsg b (Z.of_nat (length b)) <> [])
  /\ (is_frame world_model.client.data_response fr
      /\ world_model.client.decodeDataMessage fr
         = (world_model.mkAliasedWorldData
              [] [world_model.mkAliasedAttribute 1 0 0 1 [xaa; xbb]], 7)
      /\ world_model.client.decodeDataMessage fr
         <> (world_model.client.AliasedWorldData_empty, 0)).
Proof.
  vm_compute. repeat split; try reflexivity; discriminate.
Qed.
